(** * Round-based market simulation

    A shallow embedding of the client code of the game (the React
    components [RoundManager], [TradingInterface], [GameEditor] and
    [GameDetails], and the [gameApi] wrapper they call), with the
    properties its specification states about them.  The two remote
    procedures the client calls for placing an order and for advancing a
    round have no body in the client code; module [Engine] models them
    from the specification.

    Conventions of the embedding.
    - A JavaScript number that holds money or a price is a rational [Q];
      a division of two of them rounds to the nearest double
      ([Js.divide]).  A number that is an integer by construction (a
      round number, a quantity, a time in milliseconds) is a [Z].
      [NaN] is [None] in an [option].
    - A string is a [string], the bytes of its UTF-8 encoding; a
      JavaScript object used as a dictionary is a [gmap]; an array is a
      [list].
    - React state is a record, an event handler is a function on it, and
      the remote store behind [gameApi] is a record of tables. *)

From Stdlib Require Import ZArith QArith Qround Qpower Bool List String Ascii Lia.
From stdpp Require Import base option list gmap strings.
Import ListNotations.

Local Open Scope string_scope.
Local Open Scope Z_scope.

(** ** JavaScript primitives used by the components *)

Module Js.

(** The white space and the line terminators of one byte: space, tab,
    line feed, vertical tab, form feed, carriage return. *)
Definition is_white (c : ascii) : bool :=
  let n := nat_of_ascii c in
  ((n =? 32) || (n =? 9) || (n =? 10) || (n =? 11) || (n =? 12) || (n =? 13))%nat.

(** The third byte of U+2000 to U+200A, U+2028, U+2029 and U+202F,
    after the bytes 226 and 128. *)
Definition is_wide_white (c : ascii) : bool :=
  let n := nat_of_ascii c in
  (((128 <=? n) && (n <=? 138)) || (n =? 168) || (n =? 169) || (n =? 175))%nat.

(** The string without the white space it starts with
    ([StrWhiteSpaceChar]): the characters of one byte and, in their
    UTF-8 encoding, U+00A0, U+1680, U+2000 to U+200A, U+2028, U+2029,
    U+202F, U+205F, U+3000 and U+FEFF. *)
Fixpoint trim_start (s : string) : string :=
  match s with
  | String c s' =>
      if is_white c then trim_start s'
      else
        match s with
        | String "194" (String "160" r) => trim_start r
        | String "225" (String "154" (String "128" r)) => trim_start r
        | String "226" (String "128" (String c3 r)) =>
            if is_wide_white c3 then trim_start r else s
        | String "226" (String "129" (String "159" r)) => trim_start r
        | String "227" (String "128" (String "128" r)) => trim_start r
        | String "239" (String "187" (String "191" r)) => trim_start r
        | _ => s
        end
  | EmptyString => s
  end.

(** Nothing but white space. *)
Definition all_white (s : string) : bool :=
  match trim_start s with
  | EmptyString => true
  | _ => false
  end.

(** The string without the white space it ends with: it is cut where
    nothing but white space follows. *)
Fixpoint trim_end (s : string) : string :=
  match s with
  | String c s' => if all_white s then EmptyString else String c (trim_end s')
  | EmptyString => s
  end.

(** [s.trim()] *)
Definition trim (s : string) : string := trim_end (trim_start s).

(** The value of [c] as a digit in base [radix] (10 or 16). *)
Definition digit_val (radix : Z) (c : ascii) : option Z :=
  let n := Z.of_nat (nat_of_ascii c) in
  if (48 <=? n) && (n <=? 57) then Some (n - 48)
  else if (radix =? 16) && (97 <=? n) && (n <=? 102) then Some (n - 87)
  else if (radix =? 16) && (65 <=? n) && (n <=? 70) then Some (n - 55)
  else None.

(** The longest prefix of digits, read in base [radix]; [acc] is [None]
    until a first digit has been read. *)
Fixpoint parse_digits (radix : Z) (s : string) (acc : option Z) : option Z :=
  match s with
  | String c s' =>
      match digit_val radix c with
      | Some d =>
          parse_digits radix s'
            (Some (match acc with Some a => a * radix + d | None => d end))
      | None => acc
      end
  | EmptyString => acc
  end.

(** [parseInt(s)] without a radix argument: leading white space and a
    sign are skipped, a [0x] prefix selects base 16, and the digits that
    follow are read as far as they go; the result is [NaN] ([None]) when
    there is no digit.  The result is the integer read: JavaScript
    returns the double nearest to it, which is the same number up to
    2^53; a statement that needs the number sent carries that bound. *)
Definition parseInt (s : string) : option Z :=
  let s1 := trim_start s in
  let '(sign, s2) :=
    match s1 with
    | String "-" r => (-1, r)
    | String "+" r => (1, r)
    | _ => (1, s1)
    end in
  let '(radix, s3) :=
    match s2 with
    | String "0" (String "x" r) => (16, r)
    | String "0" (String "X" r) => (16, r)
    | _ => (10, s2)
    end in
  match parse_digits radix s3 None with
  | Some n => Some (sign * n)
  | None => None
  end.

(** [x || d] on a number that may be [NaN]: [NaN] and [0] are falsy. *)
Definition or_default (x : option Z) (d : Z) : Z :=
  match x with
  | Some n => if n =? 0 then d else n
  | None => d
  end.

(** [x <= 0] on a number that may be [NaN]: a comparison with [NaN] is
    false. *)
Definition le_zero (x : option Z) : bool :=
  match x with
  | Some n => n <=? 0
  | None => false
  end.

(** A string is falsy exactly when it is empty. *)
Definition str_truthy (s : string) : bool :=
  match s with
  | EmptyString => false
  | _ => true
  end.

(** A price is falsy exactly when it is zero. *)
Definition q_truthy (q : Q) : bool := negb (Qnum q =? 0).

(** [x] rounded to the nearest integer, a tie going to the even one. *)
Definition round_half_even (x : Q) : Z :=
  let f := Qfloor x in
  match ((x - inject_Z f) ?= (1 # 2))%Q with
  | Lt => f
  | Gt => f + 1
  | Eq => if Z.even f then f else f + 1
  end.

(** For [q > 0], the exponent [e] with [2^e <= q < 2^(e+1)]. *)
Definition binade (q : Q) : Z :=
  let e := Z.log2 (Qnum q) - Z.log2 (Zpos (Qden q)) in
  if Qle_bool (2 ^ e) q then e else e - 1.

(** The double nearest to [q > 0], a tie going to the even mantissa,
    before overflow is looked at: a mantissa of 53 bits, and of fewer
    bits below the smallest normal number, where the exponent stays at
    -1074. *)
Definition nearest_double (q : Q) : Q :=
  let s := Z.max (binade q - 52) (-1074) in
  (inject_Z (round_half_even (q / 2 ^ s)) * 2 ^ s)%Q.

(** A double that is not an infinity. *)
Definition finite (d : Q) : option Q :=
  if Qle_bool (2 ^ 1024) d then None else Some d.

(** The double a real number rounds to; [None] when that is an
    infinity. *)
Definition to_double (q : Q) : option Q :=
  match (q ?= 0)%Q with
  | Eq => Some 0%Q
  | Gt => finite (nearest_double q)
  | Lt => Qopp <$> finite (nearest_double (- q))
  end.

(** [a / b] on two doubles: the quotient rounded to the nearest double;
    [None] stands for [NaN] and the infinities, which a division by
    zero and an overflow give. *)
Definition divide (a b : Q) : option Q :=
  if q_truthy b then to_double (a / b) else None.

(** [Math.floor(x)] *)
Definition floor (x : option Q) : option Z := Qfloor <$> x.

Definition upper_ascii (c : ascii) : ascii :=
  let n := nat_of_ascii c in
  if ((97 <=? n) && (n <=? 122))%nat then ascii_of_nat (n - 32) else c.

(** [s.toUpperCase()], on the ASCII range. *)
Fixpoint toUpperCase (s : string) : string :=
  match s with
  | String c s' => String (upper_ascii c) (toUpperCase s')
  | EmptyString => s
  end.

End Js.

(** ** The data held by the remote store, as the client reads it *)

Module Store.

Inductive GameStatus := Draft | Live | Completed | Archived.

Inductive RoundStatus := Pending | Active | Done.

Inductive Side := Buy | Sell.

(** A timestamp column as [new Date(x).getTime()] sees it: absent,
    present but unreadable ([NaN]), or a time in milliseconds. *)
Inductive Timestamp :=
| NoTime
| BadTime
| TimeMs (ms : Z).

Record Game := {
  id : Z;
  title : string;
  description : string;
  status : GameStatus;
  initial_cash : Q;
  total_rounds : Z;
  allow_short : bool;
  current_round_number : Z;
  created_by : Z
}.

(** A row of [game_stocks]; [current_price] is the field that
    [TradingInterface.loadStocks] adds, absent on a row as stored. *)
Record Stock := {
  stock_game_id : Z;
  symbol : string;
  display_name : string;
  initial_price : Q;
  current_price : option Q
}.

Record Round := {
  round_game_id : Z;
  round_number : Z;
  duration_minutes : option Z;
  round_status : RoundStatus;
  actual_start_time : Timestamp;
  actual_end_time : Timestamp
}.

Record RoundPrice := {
  price_game_id : Z;
  price_round_number : Z;
  price_symbol : string;
  price : Q
}.

Record Position := {
  position_symbol : string;
  quantity : Z;
  average_price : Q
}.

Record PlayerState := {
  cash : Q;
  equity_value : Q;
  total_value : Q
}.

(** The tables the components read and write.  Inserts are modelled as
    succeeding: the constraints the database may enforce are not part of
    the client code. *)
Record Db := {
  games : list Game;
  game_stocks : list Stock;
  game_rounds : list Round;
  round_prices : list RoundPrice;
  next_id : Z
}.

Definition status_eqb (a b : GameStatus) : bool :=
  match a, b with
  | Draft, Draft | Live, Live | Completed, Completed | Archived, Archived => true
  | _, _ => false
  end.

Definition round_status_eqb (a b : RoundStatus) : bool :=
  match a, b with
  | Pending, Pending | Active, Active | Done, Done => true
  | _, _ => false
  end.

End Store.

Import Store.

(** ** [gameApi]: the wrapper around the remote store *)

Module gameApi.

(** [.from('games').select('*').eq('id', gameId).single()] *)
Definition getGameById (db : Db) (gameId : Z) : option Game :=
  List.find (fun g => id g =? gameId) (games db).

(** [.from('game_stocks').select('*').eq('game_id', gameId)]: the rows
    of the game, here in the order of the table.  The code has them
    sorted by symbol for the lists it shows; what is stated of these
    rows below does not depend on their order. *)
Definition getStocks (db : Db) (gameId : Z) : list Stock :=
  List.filter (fun s => stock_game_id s =? gameId) (game_stocks db).

Definition getRounds (db : Db) (gameId : Z) : list Round :=
  List.filter (fun r => round_game_id r =? gameId) (game_rounds db).

Definition is_price_of (gameId roundNumber : Z) (p : RoundPrice) : bool :=
  (price_game_id p =? gameId) && (price_round_number p =? roundNumber).

(** [.from('round_prices').select('*').eq('game_id', gameId)
     .eq('round_number', roundNumber)] *)
Definition getRoundPrices (db : Db) (gameId roundNumber : Z) : list RoundPrice :=
  List.filter (is_price_of gameId roundNumber) (round_prices db).

Definition set_games (db : Db) (gs : list Game) : Db :=
  {| games := gs; game_stocks := game_stocks db; game_rounds := game_rounds db;
     round_prices := round_prices db; next_id := next_id db |}.

Definition set_round_prices (db : Db) (ps : list RoundPrice) : Db :=
  {| games := games db; game_stocks := game_stocks db; game_rounds := game_rounds db;
     round_prices := ps; next_id := next_id db |}.

(** [createGame]: the store chooses the identifier of the new row. *)
Definition createGame (db : Db) (gameData : Z -> Game) : Game * Db :=
  let g := gameData (next_id db) in
  (g, {| games := games db ++ [g]; game_stocks := game_stocks db;
         game_rounds := game_rounds db; round_prices := round_prices db;
         next_id := next_id db + 1 |}).

(** [updateGame]: [.update(updates).eq('id', gameId).select().single()].
    [single()] answers with an error unless exactly one row comes back,
    and [updateGame] throws it: [None].  That is the case when no game
    has the identifier, and then nothing is written. *)
Definition updateGame (db : Db) (gameId : Z) (updates : Game -> Game) : option Db :=
  match List.filter (fun g => id g =? gameId) (games db) with
  | [_] =>
      Some (set_games db
              (List.map (fun g => if id g =? gameId then updates g else g) (games db)))
  | _ => None
  end.

(** [addStockToGame]: inserts [{ game_id: gameId, ...stock }]. *)
Definition addStockToGame (db : Db) (gameId : Z) (stock : Stock) : Db :=
  {| games := games db;
     game_stocks := game_stocks db ++
       [ {| stock_game_id := gameId; symbol := symbol stock;
            display_name := display_name stock;
            initial_price := initial_price stock;
            current_price := current_price stock |} ];
     game_rounds := game_rounds db; round_prices := round_prices db;
     next_id := next_id db |}.

Definition createRounds (db : Db) (rounds : list Round) : Db :=
  {| games := games db; game_stocks := game_stocks db;
     game_rounds := game_rounds db ++ rounds;
     round_prices := round_prices db; next_id := next_id db |}.

(** [setRoundPrices]: the rows of the round are deleted, then one row
    per element of [prices] is inserted. *)
Definition setRoundPrices (db : Db) (gameId roundNumber : Z)
    (prices : list (string * Q)) : Db :=
  let kept :=
    List.filter (fun p => negb (is_price_of gameId roundNumber p)) (round_prices db) in
  let priceRecords :=
    List.map (fun sp => {| price_game_id := gameId;
                           price_round_number := roundNumber;
                           price_symbol := fst sp;
                           price := snd sp |}) prices in
  set_round_prices db (kept ++ priceRecords).

End gameApi.

(** ** [RoundManager]: the countdown and the automatic advance *)

Module RoundManager.

(** A pending [setTimeout] whose callback calls
    [gameApi.advanceToNextRound]. *)
Record Timeout := {
  timeout_id : nat;
  set_at : Z;
  delay : Z
}.

(** What the callback of [setInterval] captured from the run of the
    effect that created it. *)
Record Interval := {
  interval_round : Round;
  interval_admin : bool
}.

(** The component's timer state ([useState], [useRef]) together with
    the part of the browser it acts on: the table of pending timeouts
    and the calls of [advanceToNextRound] issued so far. *)
Record State := {
  timeRemaining : Z;
  autoAdvancing : bool;
  countdownIntervalRef : option Interval;
  autoAdvanceTimeoutRef : option nat;
  timers : list Timeout;
  next_timer : nat;
  in_flight : nat;
  advance_calls : nat
}.

Definition initial : State :=
  {| timeRemaining := 0; autoAdvancing := false;
     countdownIntervalRef := None; autoAdvanceTimeoutRef := None;
     timers := []; next_timer := 0; in_flight := 0; advance_calls := 0 |}.

Definition setTimeRemaining (v : Z) (st : State) : State :=
  {| timeRemaining := v; autoAdvancing := autoAdvancing st;
     countdownIntervalRef := countdownIntervalRef st;
     autoAdvanceTimeoutRef := autoAdvanceTimeoutRef st;
     timers := timers st; next_timer := next_timer st;
     in_flight := in_flight st; advance_calls := advance_calls st |}.

Definition setAutoAdvancing (v : bool) (st : State) : State :=
  {| timeRemaining := timeRemaining st; autoAdvancing := v;
     countdownIntervalRef := countdownIntervalRef st;
     autoAdvanceTimeoutRef := autoAdvanceTimeoutRef st;
     timers := timers st; next_timer := next_timer st;
     in_flight := in_flight st; advance_calls := advance_calls st |}.

Definition set_interval (v : option Interval) (st : State) : State :=
  {| timeRemaining := timeRemaining st; autoAdvancing := autoAdvancing st;
     countdownIntervalRef := v;
     autoAdvanceTimeoutRef := autoAdvanceTimeoutRef st;
     timers := timers st; next_timer := next_timer st;
     in_flight := in_flight st; advance_calls := advance_calls st |}.

(** [clearTimeout(id)]: the timeout leaves the table, if it is there. *)
Definition drop_timer (i : nat) (l : list Timeout) : list Timeout :=
  List.filter (fun t => negb (timeout_id t =? i)%nat) l.

Definition clearCountdown (st : State) : State :=
  match countdownIntervalRef st with
  | Some _ => set_interval None st
  | None => st
  end.

Definition clearAutoAdvanceTimeout (st : State) : State :=
  match autoAdvanceTimeoutRef st with
  | Some i =>
      {| timeRemaining := timeRemaining st; autoAdvancing := autoAdvancing st;
         countdownIntervalRef := countdownIntervalRef st;
         autoAdvanceTimeoutRef := None;
         timers := drop_timer i (timers st); next_timer := next_timer st;
         in_flight := in_flight st; advance_calls := advance_calls st |}
  | None => st
  end.

Definition calculateTimeRemaining (currentRound : Round) (now : Z) : Z :=
  match actual_start_time currentRound with
  | NoTime => 0
  | BadTime => 0
  | TimeMs startTime =>
      let durationMs := Js.or_default (duration_minutes currentRound) 0 * 60 * 1000 in
      if durationMs <=? 0 then 0
      else
        let endTime := startTime + durationMs in
        let remaining := Z.max 0 (endTime - now) in
        remaining / 1000
  end.

Definition triggerAutoAdvance (isAdmin : bool) (now : Z) (st : State) : State :=
  if negb isAdmin then st
  else
    match autoAdvanceTimeoutRef st with
    | Some _ => st
    | None =>
        {| timeRemaining := timeRemaining st; autoAdvancing := true;
           countdownIntervalRef := countdownIntervalRef st;
           autoAdvanceTimeoutRef := Some (next_timer st);
           timers := timers st ++
             [ {| timeout_id := next_timer st; set_at := now; delay := 3000 |} ];
           next_timer := S (next_timer st);
           in_flight := in_flight st; advance_calls := advance_calls st |}
    end.

(** The two early exits of the effect. *)
Definition no_active_round (st : State) : State :=
  clearAutoAdvanceTimeout (setTimeRemaining 0 (setAutoAdvancing false st)).

(** The body of the timer effect, run with the props and state of one
    render at time [now]. *)
Definition timerEffect (game : option Game) (rounds : list Round)
    (isAdmin : bool) (now : Z) (st : State) : State :=
  let st := clearCountdown st in
  match game with
  | None => no_active_round st
  | Some g =>
      if negb (status_eqb (status g) Live) then no_active_round st
      else
        match List.find (fun r => round_number r =? current_round_number g) rounds with
        | None => no_active_round st
        | Some currentRound =>
            if negb (round_status_eqb (round_status currentRound) Active)
            then no_active_round st
            else
              let initialRemaining := calculateTimeRemaining currentRound now in
              let st := if 0 <? initialRemaining then setAutoAdvancing false st else st in
              let st := setTimeRemaining initialRemaining st in
              let st := if initialRemaining <=? 0
                        then triggerAutoAdvance isAdmin now st else st in
              set_interval
                (Some {| interval_round := currentRound; interval_admin := isAdmin |}) st
        end
  end.

(** The function the effect returns, run before the next run of the
    effect and when the component goes away. *)
Definition cleanup (st : State) : State :=
  clearAutoAdvanceTimeout (clearCountdown st).

(** One firing of the interval at time [now]. *)
Definition tick (now : Z) (st : State) : State :=
  match countdownIntervalRef st with
  | None => st
  | Some iv =>
      let remaining := calculateTimeRemaining (interval_round iv) now in
      let st := setTimeRemaining remaining st in
      if remaining <=? 0
      then triggerAutoAdvance (interval_admin iv) now (clearCountdown st)
      else st
  end.

(** The timeout [i] comes due: it leaves the table and its callback
    issues the call, which stays in flight until it settles. *)
Definition timeoutFires (i : nat) (st : State) : State :=
  if existsb (fun t => (timeout_id t =? i)%nat) (timers st) then
    {| timeRemaining := timeRemaining st; autoAdvancing := autoAdvancing st;
       countdownIntervalRef := countdownIntervalRef st;
       autoAdvanceTimeoutRef := autoAdvanceTimeoutRef st;
       timers := drop_timer i (timers st); next_timer := next_timer st;
       in_flight := S (in_flight st); advance_calls := S (advance_calls st) |}
  else st.

(** The awaited call settles: the [catch] branch on failure, then the
    [finally] branch. *)
Definition advanceSettles (ok : bool) (st : State) : State :=
  match in_flight st with
  | O => st
  | S n =>
      {| timeRemaining := timeRemaining st;
         autoAdvancing := if ok then autoAdvancing st else false;
         countdownIntervalRef := countdownIntervalRef st;
         autoAdvanceTimeoutRef := None;
         timers := timers st; next_timer := next_timer st;
         in_flight := n; advance_calls := advance_calls st |}
  end.

Inductive Event :=
| Render (game : option Game) (rounds : list Round) (isAdmin : bool) (now : Z)
| Tick (now : Z)
| TimeoutFires (i : nat)
| AdvanceSettles (ok : bool)
| Unmount.

(** [Render] is a run of the effect: the cleanup of the previous run,
    then the body. *)
Definition step (st : State) (e : Event) : State :=
  match e with
  | Render game rounds isAdmin now => timerEffect game rounds isAdmin now (cleanup st)
  | Tick now => tick now st
  | TimeoutFires i => timeoutFires i st
  | AdvanceSettles ok => advanceSettles ok st
  | Unmount => cleanup st
  end.

Definition run (evs : list Event) (st : State) : State :=
  List.fold_left step evs st.

Definition by_admin (e : Event) : bool :=
  match e with
  | Render _ _ isAdmin _ => isAdmin
  | _ => false
  end.

End RoundManager.

(** ** [TradingInterface]: prices, limits and order entry *)

Module TradingInterface.

Record State := {
  stocks : list Stock;
  positions : list Position;
  playerState : option PlayerState;
  currentRound : option Round;
  selectedStock : option Stock;
  orderType : Side;
  quantity : string;
  submitting : bool
}.

(** The call [gameApi.placeOrder(gameId, symbol, side, quantity)]; the
    quantity is [None] when the number passed is [NaN]. *)
Record OrderCall := {
  call_symbol : string;
  call_side : Side;
  call_quantity : option Z
}.

Definition set_stocks (l : list Stock) (st : State) : State :=
  {| stocks := l; positions := positions st; playerState := playerState st;
     currentRound := currentRound st; selectedStock := selectedStock st;
     orderType := orderType st; quantity := quantity st;
     submitting := submitting st |}.

(** [priceData?.price || stock.initial_price] *)
Definition price_or_initial (priceData : option RoundPrice) (stock : Stock) : Q :=
  match priceData with
  | Some p => if Js.q_truthy (price p) then price p else initial_price stock
  | None => initial_price stock
  end.

Definition with_current_price (prices : list RoundPrice) (stock : Stock) : Stock :=
  let priceData := List.find (fun p => String.eqb (price_symbol p) (symbol stock)) prices in
  {| stock_game_id := stock_game_id stock; symbol := symbol stock;
     display_name := display_name stock; initial_price := initial_price stock;
     current_price := Some (price_or_initial priceData stock) |}.

(** [loadStocks]: the rows of the game's stocks, each with the price of
    the game's current round merged in.  When the game cannot be read
    the [catch] branch leaves the state as it is. *)
Definition loadStocks (db : Db) (gameId : Z) (st : State) : State :=
  let data := gameApi.getStocks db gameId in
  match gameApi.getGameById db gameId with
  | None => st
  | Some game =>
      if negb (current_round_number game =? 0) then
        let prices := gameApi.getRoundPrices db gameId (current_round_number game) in
        set_stocks (List.map (with_current_price prices) data) st
      else set_stocks data st
  end.

(** [loadCurrentRound]: the state changes only when the game has a
    current round number. *)
Definition loadCurrentRound (db : Db) (gameId : Z) (st : State) : State :=
  match gameApi.getGameById db gameId with
  | None => st
  | Some game =>
      if negb (current_round_number game =? 0) then
        let current :=
          List.find (fun r => round_number r =? current_round_number game)
                    (gameApi.getRounds db gameId) in
        {| stocks := stocks st; positions := positions st;
           playerState := playerState st; currentRound := current;
           selectedStock := selectedStock st; orderType := orderType st;
           quantity := quantity st; submitting := submitting st |}
      else st
  end.

(** The [onChange] of the stock selector. *)
Definition selectStock (value : string) (st : State) : State :=
  {| stocks := stocks st; positions := positions st;
     playerState := playerState st; currentRound := currentRound st;
     selectedStock := List.find (fun s => String.eqb (symbol s) value) (stocks st);
     orderType := orderType st; quantity := "";
     submitting := submitting st |}.

Definition getPosition (st : State) (sym : string) : option Position :=
  List.find (fun p => String.eqb (position_symbol p) sym) (positions st).

(** [calculateMaxQuantity]; the result is [None] when the division has
    no finite value (a price that is absent or zero). *)
Definition calculateMaxQuantity (st : State) (stock : option Stock) : option Z :=
  match stock, playerState st with
  | Some stock, Some ps =>
      match orderType st with
      | Buy =>
          match current_price stock with
          | Some p => Js.floor (Js.divide (cash ps) p)
          | None => None
          end
      | Sell =>
          match getPosition st (symbol stock) with
          | Some position => Some (Js.or_default (Some (Store.quantity position)) 0)
          | None => Some 0
          end
      end
  | _, _ => Some 0
  end.

(** [handlePlaceOrder]: [None] when the handler stops at its alert,
    otherwise the call it makes. *)
Definition handlePlaceOrder (st : State) : option OrderCall :=
  match selectedStock st with
  | None => None
  | Some stock =>
      if negb (Js.str_truthy (quantity st)) || Js.le_zero (Js.parseInt (quantity st))
      then None
      else Some {| call_symbol := symbol stock; call_side := orderType st;
                   call_quantity := Js.parseInt (quantity st) |}
  end.

Definition canTrade (st : State) : bool :=
  match currentRound st with
  | Some r => round_status_eqb (round_status r) Active
  | None => false
  end.

(** The [disabled] attributes of the order form as rendered.  The
    quantity input, its Max button and the submit button exist only
    while a stock is selected. *)
Record Form := {
  buy_disabled : bool;
  sell_disabled : bool;
  select_disabled : bool;
  max_disabled : option bool;
  quantity_disabled : option bool;
  submit_disabled : option bool
}.

Definition render (st : State) : Form :=
  {| buy_disabled := negb (canTrade st);
     sell_disabled := negb (canTrade st);
     select_disabled := negb (canTrade st);
     max_disabled :=
       match selectedStock st with
       | Some _ => Some (negb (canTrade st))
       | None => None
       end;
     quantity_disabled :=
       match selectedStock st with
       | Some _ => Some (negb (canTrade st))
       | None => None
       end;
     submit_disabled :=
       match selectedStock st with
       | Some _ =>
           Some (negb (canTrade st) || submitting st
                 || negb (Js.str_truthy (quantity st))
                 || Js.le_zero (Js.parseInt (quantity st)))
       | None => None
       end |}.

(** A click on the submit button: a button that is absent or disabled
    runs no handler. *)
Definition clickSubmit (st : State) : option OrderCall :=
  match submit_disabled (render st) with
  | Some false => handlePlaceOrder st
  | _ => None
  end.

(** The price the order summary shows for the selected stock. *)
Definition summary_price (st : State) : option Q :=
  match selectedStock st with
  | Some stock => current_price stock
  | None => None
  end.

End TradingInterface.

(** ** [GameDetails]: which tabs are offered *)

Module GameDetails.

Inductive Role := Player | Admin.

Definition isAdmin (role : option Role) : bool :=
  match role with
  | Some Admin => true
  | _ => false
  end.

(** [!isAdmin && game?.status === 'live'] *)
Definition tradingTabOffered (role : option Role) (game : option Game) : bool :=
  negb (isAdmin role) &&
  match game with
  | Some g => status_eqb (status g) Live
  | None => false
  end.

End GameDetails.

(** ** [GameEditor]: the form that creates or edits a game *)

Module GameEditor.

(** [priceMatrix] maps a round number to the array of the prices
    entered for that round; [roundDurations] maps a round number to
    minutes. *)
Record State := {
  game : option Game;
  title : string;
  description : string;
  initialCash : Q;
  totalRounds : Z;
  allowShort : bool;
  stocks : list Stock;
  roundDurations : gmap Z Z;
  priceMatrix : gmap Z (list (string * Q))
}.

(** What [handleSave] comes to: the game is saved; one of its own
    validations has failed, with its message; or a call to the store
    has thrown, with the message of the store. *)
Inductive SaveResult :=
| Saved (gameId : Z) (db : Db)
| Failed (message : string)
| StoreError.

(** The [onChange] of the total-rounds field:
    [Math.max(1, Math.min(20, parseInt(value) || 1))]. *)
Definition clampTotalRounds (value : string) : Z :=
  let rounds := Js.or_default (Js.parseInt value) 1 in
  Z.max 1 (Z.min 20 rounds).

Definition onTotalRoundsChange (value : string) (st : State) : State :=
  {| game := game st; title := title st; description := description st;
     initialCash := initialCash st; totalRounds := clampTotalRounds value;
     allowShort := allowShort st; stocks := stocks st;
     roundDurations := roundDurations st; priceMatrix := priceMatrix st |}.

(** The price entered for [sym] in round [roundNum], if there is one. *)
Definition entered_price (st : State) (sym : string) (roundNum : Z) : option Q :=
  let roundPrices := default [] (priceMatrix st !! roundNum) in
  snd <$> List.find (fun p => String.eqb (fst p) sym) roundPrices.

(** [stocks.find(s => s.symbol === symbol)?.initial_price || 0] *)
Definition initial_or_zero (st : State) (sym : string) : Q :=
  match List.find (fun s => String.eqb (symbol s) sym) (stocks st) with
  | Some s => if Js.q_truthy (initial_price s) then initial_price s else 0%Q
  | None => 0%Q
  end.

(** [priceObj?.price || stocks.find(...)?.initial_price || 0] *)
Definition getPriceForRound (st : State) (sym : string) (roundNum : Z) : Q :=
  match entered_price st sym roundNum with
  | Some p => if Js.q_truthy p then p else initial_or_zero st sym
  | None => initial_or_zero st sym
  end.

(** The values of [i] in [for (let i = 1; i <= n; i++)]. *)
Definition upto (n : Z) : list Z :=
  List.map Z.of_nat (List.seq 1 (Z.to_nat n)).

Definition set_stocks_prices (l : list Stock) (m : gmap Z (list (string * Q)))
    (st : State) : State :=
  {| game := game st; title := title st; description := description st;
     initialCash := initialCash st; totalRounds := totalRounds st;
     allowShort := allowShort st; stocks := l;
     roundDurations := roundDurations st; priceMatrix := m |}.

(** [handleAddStock] on the three fields of the form; [parsed] is
    [parseFloat(newStockPrice)], [None] for [NaN].  [None] is returned
    when the handler stops at one of its error messages. *)
Definition handleAddStock (newStockSymbol newStockName newStockPrice : string)
    (parsed : option Q) (st : State) : option State :=
  if negb (Js.str_truthy newStockSymbol) || negb (Js.str_truthy newStockName)
     || negb (Js.str_truthy newStockPrice)
  then None
  else
    match parsed with
    | None => None
    | Some price =>
        if Qle_bool price 0 then None
        else
          match List.find
                  (fun s => String.eqb (Js.toUpperCase (symbol s))
                                       (Js.toUpperCase newStockSymbol))
                  (stocks st) with
          | Some _ => None
          | None =>
              let newStock :=
                {| stock_game_id := 0; symbol := Js.toUpperCase newStockSymbol;
                   display_name := newStockName; initial_price := price;
                   current_price := None |} in
              let newPrices :=
                List.fold_left
                  (fun m i => <[ i := (default [] (m !! i) ++ [(symbol newStock, price)])%list ]> m)
                  (upto (totalRounds st)) (priceMatrix st) in
              Some (set_stocks_prices (stocks st ++ [newStock]) newPrices st)
          end
    end.

Definition handleRemoveStock (sym : string) (st : State) : State :=
  set_stocks_prices
    (List.filter (fun s => negb (String.eqb (symbol s) sym)) (stocks st))
    (List.filter (fun p => negb (String.eqb (fst p) sym)) <$> priceMatrix st)
    st.

(** The first entry of [sym] gets the price [price]. *)
Fixpoint set_price (sym : string) (price : Q) (l : list (string * Q))
    : list (string * Q) :=
  match l with
  | p :: l' =>
      if String.eqb (fst p) sym then (fst p, price) :: l'
      else p :: set_price sym price l'
  | [] => []
  end.

(** [handlePriceChange], with [parsed] for [parseFloat(value)]: the
    entry of the symbol in the round is overwritten, or added when there
    is none. *)
Definition handlePriceChange (roundNum : Z) (sym : string) (parsed : option Q)
    (st : State) : State :=
  match parsed with
  | None => st
  | Some price =>
      let roundPrices := default [] (priceMatrix st !! roundNum) in
      let updated :=
        if existsb (fun p => String.eqb (fst p) sym) roundPrices
        then set_price sym price roundPrices
        else (roundPrices ++ [(sym, price)])%list in
      set_stocks_prices (stocks st) (<[ roundNum := updated ]> (priceMatrix st)) st
  end.

(** The form for a new game, as [useState] initialises it and the first
    effect fills in the durations. *)
Definition newGame : State :=
  {| game := None; title := ""; description := ""; initialCash := 10000;
     totalRounds := 5; allowShort := false; stocks := [];
     roundDurations := list_to_map (List.map (fun i => (i, 10)) (upto 5));
     priceMatrix := ∅ |}.

(** The states the handlers of the stock, price and total-rounds fields
    lead to. *)
Inductive edited (st0 : State) : State -> Prop :=
| edited_start : edited st0 st0
| edited_add st st' sym name text parsed :
    edited st0 st -> handleAddStock sym name text parsed st = Some st' ->
    edited st0 st'
| edited_remove st sym :
    edited st0 st -> edited st0 (handleRemoveStock sym st)
| edited_price st roundNum sym parsed :
    edited st0 st -> edited st0 (handlePriceChange roundNum sym parsed st)
| edited_rounds st value :
    edited st0 st -> edited st0 (onTotalRoundsChange value st).

Definition roundsToCreate (st : State) (gameId : Z) : list Round :=
  List.map (fun i =>
    {| round_game_id := gameId; round_number := i;
       duration_minutes := Some (Js.or_default (roundDurations st !! i) 10);
       round_status := Pending;
       actual_start_time := NoTime; actual_end_time := NoTime |})
    (upto (totalRounds st)).

Definition pricesForRound (st : State) (roundNum : Z) : list (string * Q) :=
  List.map (fun stock => (symbol stock, getPriceForRound st (symbol stock) roundNum))
           (stocks st).

(** [game?.id] when it is truthy: the identifier of the stored game
    that the form was opened on. *)
Definition storedId (st : State) : option Z :=
  match game st with
  | Some g => if id g =? 0 then None else Some (id g)
  | None => None
  end.

(** [handleSave], for the user [userId]: the three validations, the
    game row (updated when the form was opened on a stored game, created
    otherwise), the stocks of a new game, the rounds, and the prices of
    every round.  An update that throws ends the save before anything
    is written. *)
Definition handleSave (st : State) (userId : Z) (db : Db) : SaveResult :=
  if negb (Js.str_truthy (Js.trim (title st))) then Failed "Please enter a game title"
  else if (List.length (stocks st) =? 0)%nat then Failed "Please add at least one stock"
  else if totalRounds st <? 1 then Failed "Game must have at least one round"
  else
    let written :=
      match storedId st with
      | Some gameId =>
          (fun db => (gameId, db)) <$>
          gameApi.updateGame db gameId (fun g0 =>
            {| id := id g0; Store.title := title st;
               Store.description := description st; status := status g0;
               initial_cash := initialCash st; total_rounds := totalRounds st;
               allow_short := allowShort st;
               current_round_number := current_round_number g0;
               created_by := created_by g0 |})
      | None =>
          let '(newGame, db) :=
            gameApi.createGame db (fun i =>
              {| id := i; Store.title := title st;
                 Store.description := description st; status := Draft;
                 initial_cash := initialCash st; total_rounds := totalRounds st;
                 allow_short := allowShort st; current_round_number := 0;
                 created_by := userId |}) in
          Some (id newGame, db)
      end in
    match written with
    | None => StoreError
    | Some (gameId, db) =>
        let db :=
          match storedId st with
          | Some _ => db
          | None =>
              List.fold_left (fun d stock => gameApi.addStockToGame d gameId stock)
                             (stocks st) db
          end in
        let db := gameApi.createRounds db (roundsToCreate st gameId) in
        let db :=
          List.fold_left
            (fun d roundNum =>
               gameApi.setRoundPrices d gameId roundNum (pricesForRound st roundNum))
            (upto (totalRounds st)) db in
        Saved gameId db
    end.

End GameEditor.

(** ** The order and round engine behind [place_order_v2] and
       [advance_to_next_round] *)

Module Engine.

(** Modelled from the spec: the reasons of section 4.2 for rejecting an
    order. *)
Inductive Reason :=
| TradingClosed
| UnknownInstrument
| InvalidQuantity
| InsufficientFunds
| InsufficientPosition.

(** Modelled from the spec: section 3, an order is filled at a price or
    rejected for a reason. *)
Inductive OrderStatus :=
| Filled (filled_price : Q)
| Rejected (reason : Reason).

(** Modelled from the spec: section 3, an entry of the order ledger. *)
Record Order := {
  order_player : Z;
  order_symbol : string;
  order_side : Side;
  order_quantity : Z;
  order_status : OrderStatus
}.

(** Modelled from the spec: section 3, a position: the signed quantity
    held and its cost basis. *)
Record Holding := {
  held : Z;
  cost : Q
}.

(** Modelled from the spec: section 3, the state of one player in the
    game, with the player's positions. *)
Record Account := {
  cash : Q;
  holdings : gmap string Holding;
  equity_value : Q;
  total_value : Q
}.

(** Modelled from the spec: the state of one game as sections 3 and 4
    describe it, for the two remote procedures whose bodies the client
    code only calls.  Every instrument carries its price for every
    round (the RoundPrice invariant of section 3); accounts are keyed
    by player and positions by symbol. *)
Record World := {
  game : Game;
  rounds : list Round;
  instruments : gmap string (Z -> Q);
  accounts : gmap Z Account;
  ledger : list Order
}.

Definition no_holding : Holding := {| held := 0; cost := 0%Q |}.

(** Modelled from the spec: section 3, an account is created on first
    use, with the game's initial cash. *)
Definition account_of (w : World) (player : Z) : Account :=
  default {| cash := initial_cash (game w); holdings := ∅;
             equity_value := 0%Q; total_value := initial_cash (game w) |}
          (accounts w !! player).

Definition holding_of (a : Account) (sym : string) : Holding :=
  default no_holding (holdings a !! sym).

Definition current_round (w : World) : option Round :=
  List.find (fun r => round_number r =? current_round_number (game w)) (rounds w).

(** Modelled from the spec: the game is live and its current round is
    active. *)
Definition trading_open (w : World) : bool :=
  status_eqb (status (game w)) Live &&
  match current_round w with
  | Some r => round_status_eqb (round_status r) Active
  | None => false
  end.

Definition price_at (w : World) (round : Z) (sym : string) : Q :=
  match instruments w !! sym with
  | Some price_of => price_of round
  | None => 0%Q
  end.

(** Modelled from the spec: section 4.3, [ValuatePlayer]: the equity is
    the sum over the positions of quantity times the round's price, and
    the total value is cash plus equity. *)
Definition ValuatePlayer (w : World) (round : Z) (a : Account) : Account :=
  let equity :=
    map_fold (fun sym h acc => (acc + inject_Z (held h) * price_at w round sym)%Q)
             0%Q (holdings a) in
  {| cash := cash a; holdings := holdings a;
     equity_value := equity; total_value := (cash a + equity)%Q |}.

Definition record (w : World) (o : Order) (accts : gmap Z Account) : Order * World :=
  (o, {| game := game w; rounds := rounds w; instruments := instruments w;
         accounts := accts; ledger := ledger w ++ [o] |}).

(** Modelled from the spec: section 4.2, the cost basis after a buy of
    [qty] at [price]: the weighted average over the signed quantity, the
    fill price once the quantity has crossed zero, and zero for an empty
    position. *)
Definition cost_after_buy (h : Holding) (qty : Z) (price : Q) : Q :=
  let new_qty := held h + qty in
  if new_qty =? 0 then 0%Q
  else if (held h <? 0) && (0 <? new_qty) then price
  else ((inject_Z (held h) * cost h + inject_Z qty * price) / inject_Z new_qty)%Q.

(** Modelled from the spec: section 4.2, the cost basis after a sale:
    unchanged while the sign stays, the fill price on a sign flip, zero
    for an empty position. *)
Definition cost_after_sell (h : Holding) (qty : Z) (price : Q) : Q :=
  let new_qty := held h - qty in
  if new_qty =? 0 then 0%Q
  else if (0 <? held h) && (new_qty <? 0) then price
  else cost h.

(** Modelled from the spec: section 4.2, [PlaceOrder].  The checks run
    in the order given there and the first failure wins; every attempt
    appends an order to the ledger; cash and position change only for a
    filled order, together with the valuation at the current round's
    prices. *)
Definition PlaceOrder (w : World) (player : Z) (sym : string) (side : Side)
    (qty : Z) : Order * World :=
  let order st :=
    {| order_player := player; order_symbol := sym; order_side := side;
       order_quantity := qty; order_status := st |} in
  let reject r := record w (order (Rejected r)) (accounts w) in
  if negb (trading_open w) then reject TradingClosed
  else
    match instruments w !! sym with
    | None => reject UnknownInstrument
    | Some price_of =>
        if qty <=? 0 then reject InvalidQuantity
        else
          let round := current_round_number (game w) in
          let price := price_of round in
          let a := account_of w player in
          let h := holding_of a sym in
          let fill new_cash new_h :=
            let a' :=
              ValuatePlayer w round
                {| cash := new_cash; holdings := <[sym := new_h]> (holdings a);
                   equity_value := equity_value a; total_value := total_value a |} in
            record w (order (Filled price)) (<[player := a']> (accounts w)) in
          match side with
          | Buy =>
              let required := (price * inject_Z qty)%Q in
              if negb (Qle_bool required (cash a)) then reject InsufficientFunds
              else fill (cash a - required)%Q
                        {| held := held h + qty; cost := cost_after_buy h qty price |}
          | Sell =>
              if negb (allow_short (game w)) && (held h <? qty)
              then reject InsufficientPosition
              else fill (cash a + price * inject_Z qty)%Q
                        {| held := held h - qty; cost := cost_after_sell h qty price |}
          end
    end.

(** Modelled from the spec: the outcomes of [AdvanceRound]: the round
    number after the advance, the same for a caller that lost the race,
    or [InvalidState]. *)
Inductive AdvanceResult :=
| Advanced (current : Z)
| AlreadyAdvanced (current : Z)
| InvalidState.

Definition round_done (n : Z) (rs : list Round) : bool :=
  match List.find (fun r => round_number r =? n) rs with
  | Some r => round_status_eqb (round_status r) Done
  | None => false
  end.

(** Modelled from the spec: section 4.1, the round [n] becomes
    completed and its end time is set. *)
Definition complete (n now : Z) (r : Round) : Round :=
  if round_number r =? n then
    {| round_game_id := round_game_id r; round_number := round_number r;
       duration_minutes := duration_minutes r; round_status := Done;
       actual_start_time := actual_start_time r; actual_end_time := TimeMs now |}
  else r.

(** Modelled from the spec: section 4.1, the round [n] becomes active
    and its start time is set. *)
Definition activate (n now : Z) (r : Round) : Round :=
  if round_number r =? n then
    {| round_game_id := round_game_id r; round_number := round_number r;
       duration_minutes := duration_minutes r; round_status := Active;
       actual_start_time := TimeMs now; actual_end_time := actual_end_time r |}
  else r.

Definition with_game (g : Game) (st : GameStatus) (n : Z) : Game :=
  {| id := id g; title := title g; description := description g; status := st;
     initial_cash := initial_cash g; total_rounds := total_rounds g;
     allow_short := allow_short g; current_round_number := n;
     created_by := created_by g |}.

(** Modelled from the spec: section 4.1, what a call of
    [AdvanceRound(game)] reads first: the number of the game's current
    round when the game is live and that round is active; otherwise
    the call fails with [InvalidState]. *)
Definition read (w : World) : option Z :=
  if trading_open w then Some (current_round_number (game w)) else None.

(** Modelled from the spec: section 5, the condition of the update that
    claims a round transition: the round is still active and matches
    the expected round number. *)
Definition still_active (expected : Z) (w : World) : bool :=
  trading_open w && (current_round_number (game w) =? expected).

(** Modelled from the spec: sections 4.1 and 5, the atomic claim of the
    transition out of the round [expected], the round the call has
    read.  If that round is still the game's active round, the
    transition completes it at [now], values every account at the
    completed round's prices, and either completes the game (last round)
    or activates the next round at [now].  Otherwise another call has
    advanced the game in between: nothing changes and the call reports
    the current round number. *)
Definition claim (now expected : Z) (w : World) : AdvanceResult * World :=
  let g := game w in
  if negb (still_active expected w) then (AlreadyAdvanced (current_round_number g), w)
  else
    let rounds1 := List.map (complete expected now) (rounds w) in
    let accounts1 := ValuatePlayer w expected <$> accounts w in
    if expected =? total_rounds g then
      (Advanced expected,
       {| game := with_game g Completed expected; rounds := rounds1;
          instruments := instruments w; accounts := accounts1;
          ledger := ledger w |})
    else
      (Advanced (expected + 1),
       {| game := with_game g Live (expected + 1);
          rounds := List.map (activate (expected + 1) now) rounds1;
          instruments := instruments w; accounts := accounts1;
          ledger := ledger w |}).

(** Modelled from the spec: [AdvanceRound(game)] with nothing happening
    between its reading and its claim. *)
Definition AdvanceRound (now : Z) (w : World) : AdvanceResult * World :=
  match read w with
  | Some expected => claim now expected w
  | None => (InvalidState, w)
  end.

(** Modelled from the spec: section 5, a call of [AdvanceRound(game)] in
    progress.  The call takes the game only.  It has not read the game
    yet; or it has read that the round [expected] is active and is about
    to claim the transition out of it; or it has failed on reading with
    [InvalidState]; or it has returned, and [expected] is the round it
    had read. *)
Inductive Call :=
| Started
| Claiming (expected : Z)
| Refused
| Returned (expected : Z) (result : AdvanceResult).

Definition outcome (c : Call) : option AdvanceResult :=
  match c with
  | Refused => Some InvalidState
  | Returned _ result => Some result
  | Started | Claiming _ => None
  end.

(** Modelled from the spec: section 5, one atomic step of a call on the
    store, at the time [now]. *)
Definition step_call (now : Z) (c : Call) (w : World) : Call * World :=
  match c with
  | Started =>
      (match read w with
       | Some expected => Claiming expected
       | None => Refused
       end, w)
  | Claiming expected =>
      let result := claim now expected w in
      (Returned expected (fst result), snd result)
  | Refused | Returned _ _ => (c, w)
  end.

Inductive Caller := First | Second.

(** Two calls for one game, and the game. *)
Record Calls := {
  first : Call;
  second : Call;
  world : World
}.

Definition two_calls (w : World) : Calls :=
  {| first := Started; second := Started; world := w |}.

(** One turn: the caller named takes its next step, at the time
    given. *)
Definition calls_step (s : Calls) (turn : Caller * Z) : Calls :=
  match fst turn with
  | First =>
      let r := step_call (snd turn) (first s) (world s) in
      {| first := fst r; second := second s; world := snd r |}
  | Second =>
      let r := step_call (snd turn) (second s) (world s) in
      {| first := first s; second := fst r; world := snd r |}
  end.

(** The two calls run in the order of [schedule]. *)
Definition run_calls (schedule : list (Caller * Z)) (s : Calls) : Calls :=
  List.fold_left calls_step schedule s.

End Engine.

(** * Further parts of the client *)

(** ** Numbers as text *)

Module JsText.

Definition digit_char (d : Z) : ascii := ascii_of_nat (48 + Z.to_nat d).

(** The decimal digits of a natural number, the last digit first;
    [fuel] bounds the number of digits. *)
Fixpoint digits_le (fuel : nat) (n : Z) : list Z :=
  match fuel with
  | O => []
  | S fuel' => (n mod 10) :: (if n / 10 =? 0 then [] else digits_le fuel' (n / 10))
  end.

Definition digit_string (ds : list Z) : string :=
  List.fold_right (fun d s => String (digit_char d) s) EmptyString ds.

Definition natural_string (n : Z) : string :=
  digit_string (List.rev (digits_le (S (Z.to_nat (Z.log2 n))) n)).

(** [String(n)], [n.toString()] and [`${n}`] for an integer [n] below
    10^21 in absolute value, which JS writes with all its digits: the
    decimal digits, after a minus sign for a negative number. *)
Definition toString (n : Z) : string :=
  if n <? 0 then String "-" (natural_string (- n)) else natural_string n.

(** The text of a number that may not be finite; [NaN] stands for the
    three texts [NaN], [Infinity] and [-Infinity], none of which
    [parseInt] reads. *)
Definition number_text (x : option Z) : string :=
  match x with
  | Some n => toString n
  | None => "NaN"
  end.

End JsText.

(** ** The script that imports the users *)

Module ImportUsers.

Definition BATCH_SIZE : nat := 10.

(** The user names the summary lists as created and as failed, and the
    number of pauses made. *)
Record Summary := {
  success : list string;
  failed : list string;
  waits : nat
}.

(** [batch.map((user, index) => createUser(user, i + index))], awaited:
    each user of the batch with whether it was created.  [createUser]
    tells whether the creation succeeds for a user name at a position of
    the list. *)
Fixpoint batchResults (createUser : string -> nat -> bool) (i : nat)
    (batch : list string) : list (string * bool) :=
  match batch with
  | [] => []
  | user :: rest => (user, createUser user i) :: batchResults createUser (S i) rest
  end.

(** The loop [for (let i = 0; i < users.length; i += BATCH_SIZE)] of
    [importAllUsers], from index [i] on: the batch
    [users.slice(i, i + BATCH_SIZE)] is created at once, its results are
    sorted into [success] and [failed] in the order of the batch, and
    the script waits if another batch follows.  [fuel] bounds the number
    of batches. *)
Fixpoint importFrom (fuel : nat) (createUser : string -> nat -> bool) (i : nat)
    (users : list string) (results : Summary) : Summary :=
  match fuel with
  | O => results
  | S fuel' =>
      if (i <? List.length users)%nat then
        let batch := List.firstn BATCH_SIZE (List.skipn i users) in
        let batchResults := batchResults createUser i batch in
        let results :=
          {| success :=
               (success results ++ List.map fst (List.filter snd batchResults))%list;
             failed :=
               (failed results
                ++ List.map fst (List.filter (fun r => negb (snd r)) batchResults))%list;
             waits :=
               if (i + BATCH_SIZE <? List.length users)%nat
               then S (waits results) else waits results |} in
        importFrom fuel' createUser (i + BATCH_SIZE) users results
      else results
  end.

Definition importAllUsers (createUser : string -> nat -> bool) (users : list string)
    : Summary :=
  importFrom (List.length users) createUser 0 users
    {| success := []; failed := []; waits := 0 |}.

End ImportUsers.

(** ** [gameApi], continued *)

Module gameApi2.

(** [getGame]: the game with its stocks and its rounds; the order of
    the rows plays no part in what follows. *)
Definition getGame (db : Db) (gameId : Z) : option (Game * list Stock * list Round) :=
  match gameApi.getGameById db gameId with
  | Some game => Some (game, gameApi.getStocks db gameId, gameApi.getRounds db gameId)
  | None => None
  end.

End gameApi2.

(** ** [RoundManager]: what is shown *)

Module RoundManagerView.

(** The props and state a render of the component reads, once the game
    is loaded. *)
Record View := {
  game : Game;
  rounds : list Round;
  isAdmin : bool;
  advancing : bool;
  autoAdvancing : bool;
  timeRemaining : Z
}.

Definition currentRound (v : View) : option Round :=
  List.find (fun r => round_number r =? current_round_number (game v)) (rounds v).

Definition isRoundActive (v : View) : bool :=
  match currentRound v with
  | Some r => round_status_eqb (round_status r) Active
  | None => false
  end.

Definition canAdvance (v : View) : bool :=
  isAdmin v && status_eqb (status (game v)) Live
  && (current_round_number (game v) <? total_rounds (game v)).

(** The button "Advance to Next Round": absent, or present with its
    [disabled] attribute. *)
Definition advanceButton (v : View) : option bool :=
  if isAdmin v && canAdvance v then Some (advancing v || isRoundActive v) else None.

(** A click on that button: whether [handleAdvanceRound] calls
    [gameApi.advanceToNextRound]. *)
Definition clickAdvance (v : View) : bool :=
  match advanceButton v with
  | Some false => isAdmin v
  | _ => false
  end.

(** The four status panels under the header. *)
Record Panels := {
  liveTimer : bool;
  autoAdvancingMessage : bool;
  waitingForAdmin : bool;
  roundNotActive : bool
}.

Definition panels (v : View) : Panels :=
  let live := status_eqb (status (game v)) Live in
  {| liveTimer := isRoundActive v && negb (autoAdvancing v);
     autoAdvancingMessage := autoAdvancing v;
     waitingForAdmin :=
       negb (isRoundActive v) && negb (autoAdvancing v) && live
       && (timeRemaining v =? 0) && negb (isAdmin v);
     roundNotActive :=
       negb (isRoundActive v) && negb (autoAdvancing v) && live
       && (negb (timeRemaining v =? 0) || isAdmin v) |}.

End RoundManagerView.

(** ** [TradingInterface]: the summary, the positions and the Max button *)

Module TradingView.

Import TradingInterface.

(** [x || 0] on a price that may be absent. *)
Definition price_or_zero (p : option Q) : Q :=
  match p with
  | Some q => if Js.q_truthy q then q else 0%Q
  | None => 0%Q
  end.

(** The total of the order summary:
    [(selectedStock.current_price || 0) * (parseInt(quantity) || 0)]. *)
Definition summary_total (st : State) : option Q :=
  match selectedStock st with
  | Some stock =>
      Some (price_or_zero (current_price stock)
            * inject_Z (Js.or_default (Js.parseInt (quantity st)) 0))%Q
  | None => None
  end.

(** A click on the Max button of the quantity field. *)
Definition clickMax (st : State) : State :=
  match max_disabled (render st) with
  | Some false =>
      {| stocks := stocks st; positions := positions st;
         playerState := playerState st; currentRound := currentRound st;
         selectedStock := selectedStock st; orderType := orderType st;
         quantity := JsText.number_text (calculateMaxQuantity st (selectedStock st));
         submitting := submitting st |}
  | _ => st
  end.

(** The [onChange] of the quantity field. *)
Definition typeQuantity (value : string) (st : State) : State :=
  match quantity_disabled (render st) with
  | Some false =>
      {| stocks := stocks st; positions := positions st;
         playerState := playerState st; currentRound := currentRound st;
         selectedStock := selectedStock st; orderType := orderType st;
         quantity := value; submitting := submitting st |}
  | _ => st
  end.



End TradingView.

(** ** [GameEditor]: durations, and opening a stored game *)

Module GameEditorForm.

Import GameEditor.

Definition set_durations (m : gmap Z Z) (st : State) : State :=
  {| game := game st; title := title st; description := description st;
     initialCash := initialCash st; totalRounds := totalRounds st;
     allowShort := allowShort st; stocks := stocks st;
     roundDurations := m; priceMatrix := priceMatrix st |}.

(** The effect on [totalRounds]: every round from 1 to [totalRounds]
    without a duration gets 10 minutes, and the durations of rounds
    above [totalRounds] are removed. *)
Definition syncRoundDurations (st : State) : State :=
  let durations :=
    List.fold_left
      (fun m i => if Js.or_default (m !! i) 0 =? 0 then <[ i := 10 ]> m else m)
      (upto (totalRounds st)) (roundDurations st) in
  set_durations (filter (fun kv => ~ (totalRounds st < fst kv)) durations) st.

(** The [onChange] of the duration of a round:
    [Math.max(1, parseInt(value) || 10)]. *)
Definition onDurationChange (roundNum : Z) (value : string) (st : State) : State :=
  set_durations
    (<[ roundNum := Z.max 1 (Js.or_default (Js.parseInt value) 10) ]> (roundDurations st))
    st.

(** The [onChange] of the title, the description, the initial cash
    ([parseFloat(value) || 0], with [parsed] for [parseFloat(value)]) and
    the short-selling box. *)
Definition onTitleChange (value : string) (st : State) : State :=
  {| game := game st; title := value; description := description st;
     initialCash := initialCash st; totalRounds := totalRounds st;
     allowShort := allowShort st; stocks := stocks st;
     roundDurations := roundDurations st; priceMatrix := priceMatrix st |}.

Definition onDescriptionChange (value : string) (st : State) : State :=
  {| game := game st; title := title st; description := value;
     initialCash := initialCash st; totalRounds := totalRounds st;
     allowShort := allowShort st; stocks := stocks st;
     roundDurations := roundDurations st; priceMatrix := priceMatrix st |}.

Definition onInitialCashChange (parsed : option Q) (st : State) : State :=
  {| game := game st; title := title st; description := description st;
     initialCash :=
       match parsed with
       | Some q => if Js.q_truthy q then q else 0%Q
       | None => 0%Q
       end;
     totalRounds := totalRounds st;
     allowShort := allowShort st; stocks := stocks st;
     roundDurations := roundDurations st; priceMatrix := priceMatrix st |}.

Definition onAllowShortChange (checked : bool) (st : State) : State :=
  {| game := game st; title := title st; description := description st;
     initialCash := initialCash st; totalRounds := totalRounds st;
     allowShort := checked; stocks := stocks st;
     roundDurations := roundDurations st; priceMatrix := priceMatrix st |}.

(** The form opened on a stored game [g], once its effects and
    [loadGameData] have run.  The effect on [game] copies the fields of
    the game with their defaults, and the effect on the number of rounds
    has given every round 10 minutes by then.  [loadGameData] stops for
    a game without identifier and when the game cannot be read;
    otherwise it puts in the stocks of the game, the durations of its
    rounds and an empty list of prices for each of its rounds.  A
    duration that is [null] is left out, which every reader of the
    durations treats like a missing one. *)
Definition openGame (db : Db) (g : Game) : State :=
  let st :=
    syncRoundDurations
      {| game := Some g; title := Store.title g; description := Store.description g;
         initialCash := if Js.q_truthy (initial_cash g) then initial_cash g else 10000%Q;
         totalRounds := Js.or_default (Some (total_rounds g)) 5;
         allowShort := allow_short g;
         stocks := []; roundDurations := ∅; priceMatrix := ∅ |} in
  if id g =? 0 then st
  else
    match gameApi2.getGame db (id g) with
    | Some (_, stocks, rounds) =>
        set_stocks_prices stocks
          (List.fold_left (fun m r => <[ round_number r := [] ]> m) rounds ∅)
          (set_durations
             (List.fold_left
                (fun m r => match duration_minutes r with
                            | Some d => <[ round_number r := d ]> m
                            | None => delete (round_number r) m
                            end)
                rounds ∅)
             st)
    | None => st
    end.

End GameEditorForm.

(** ** [GameDetails]: moving between the tabs *)

Module GameDetailsTabs.

Import GameDetails.

Inductive Tab := Overview | Trading | Leaderboard | Manage.

(** The page once the game is loaded: the profile, the game as it was
    loaded, and the active tab. *)
Record Page := {
  role : option Role;
  game : Game;
  activeTab : Tab
}.

Definition opened (r : option Role) (g : Game) : Page :=
  {| role := r; game := g; activeTab := Overview |}.

(** Whether the button of a tab is shown. *)
Definition offered (p : Page) (t : Tab) : bool :=
  match t with
  | Overview => true
  | Trading => tradingTabOffered (role p) (Some (game p))
  | Leaderboard => true
  | Manage => isAdmin (role p)
  end.

(** A click on the button of a tab, which only a shown button takes. *)
Definition click (p : Page) (t : Tab) : Page :=
  if offered p t then {| role := role p; game := game p; activeTab := t |} else p.

(** The components the active tab shows: the round manager, as an
    administrator or not, the trading interface, the leaderboard. *)
Inductive Content :=
| ShowRoundManager (asAdmin : bool)
| ShowTradingInterface
| ShowLeaderboard
| ShowNothing.

Definition content (p : Page) : Content :=
  match activeTab p with
  | Overview => ShowRoundManager (isAdmin (role p))
  | Trading => if negb (isAdmin (role p)) then ShowTradingInterface else ShowNothing
  | Leaderboard => ShowLeaderboard
  | Manage => if isAdmin (role p) then ShowRoundManager true else ShowNothing
  end.

End GameDetailsTabs.

(** * The vocabulary of the statements, and sample data *)

Section TimerVocabulary.

Import RoundManager.

(** A state in which a firing of the interval schedules nothing: a
    call is pending, or no interval runs, or the interval belongs to a
    client that is not an administrator. *)
Definition quiet (st : State) : Prop :=
  is_Some (autoAdvanceTimeoutRef st) \/
  match countdownIntervalRef st with
  | Some iv => interval_admin iv = false
  | None => True
  end.

(** The timeout the interval schedules, if any: at the first firing
    that finds no time remaining, on an administrator's client. *)
Definition scheduled (r : Round) (isAdmin : bool) (i : nat) (nows : list Z)
    : list Timeout :=
  match List.find (fun t => calculateTimeRemaining r t =? 0) nows with
  | Some t => if isAdmin then [ {| timeout_id := i; set_at := t; delay := 3000 |} ] else []
  | None => []
  end.

(** A client on which nothing was ever scheduled. *)
Definition idle (st : State) : Prop :=
  timers st = [] /\ advance_calls st = 0%nat /\ in_flight st = 0%nat /\
  autoAdvanceTimeoutRef st = None /\
  match countdownIntervalRef st with
  | Some iv => interval_admin iv = false
  | None => True
  end.

End TimerVocabulary.

(** The stored price of [sym] for round [n] of the game, if any. *)
Definition round_price (db : Db) (gameId n : Z) (sym : string) : option Q :=
  price <$>
    List.find (fun p => gameApi.is_price_of gameId n p && String.eqb (price_symbol p) sym)
              (round_prices db).

(** The price the list shows for a stock of a game in round [n]. *)
Definition listed_price (db : Db) (gameId n : Z) (stock : Stock) : Q :=
  match round_price db gameId n (symbol stock) with
  | Some p => if Js.q_truthy p then p else initial_price stock
  | None => initial_price stock
  end.

Section SavingVocabulary.

Import GameEditor.

(** No two stocks of the form have the same symbol, in any case of the
    letters. *)
Definition symbols_distinct (st : State) : Prop :=
  List.NoDup (List.map (fun s => Js.toUpperCase (symbol s)) (stocks st)).

Definition row (st : State) (gameId n : Z) (stock : Stock) : RoundPrice :=
  {| price_game_id := gameId; price_round_number := n;
     price_symbol := symbol stock;
     price := getPriceForRound st (symbol stock) n |}.

Definition writePrices (st : State) (gameId : Z) (ns : list Z) (db : Db) : Db :=
  List.fold_left
    (fun d roundNum => gameApi.setRoundPrices d gameId roundNum (pricesForRound st roundNum))
    ns db.

End SavingVocabulary.

Section AdvancingVocabulary.

Import Engine.



(** What one transition does to a round: the round [n] is completed
    and, unless it was the last, the round [n + 1] is activated. *)
Definition transition (last : bool) (n now : Z) (r : Round) : Round :=
  if last then complete n now r else activate (n + 1) now (complete n now r).





(** How far a call has come, and the turns a schedule gives a caller. *)
Definition progress (c : Call) : nat :=
  match c with
  | Started => 0
  | Claiming _ => 1
  | Refused | Returned _ _ => 2
  end.

Definition is_turn_of (who : Caller) (turn : Caller * Z) : bool :=
  match who, fst turn with
  | First, First | Second, Second => true
  | _, _ => false
  end.

Definition turns (who : Caller) (schedule : list (Caller * Z)) : nat :=
  length (List.filter (is_turn_of who) schedule).

End AdvancingVocabulary.

(** Sample data: one stock at 100, an active first round, a player with
    10000 in cash. *)
Module Sample.

Definition X : Stock :=
  {| stock_game_id := 1; symbol := "X"; display_name := "X Corp";
     initial_price := 100; current_price := Some 100%Q |}.

Definition round1 : Round :=
  {| round_game_id := 1; round_number := 1; duration_minutes := Some 1;
     round_status := Active; actual_start_time := TimeMs 1000000;
     actual_end_time := NoTime |}.

Definition player : PlayerState :=
  {| cash := 10000; equity_value := 0; total_value := 10000 |}.

(** The order form with [X] selected and [text] typed as quantity. *)
Definition form (side : Side) (text : string) : TradingInterface.State :=
  {| TradingInterface.stocks := [X];
     TradingInterface.positions :=
       [ {| position_symbol := "X"; quantity := 50; average_price := 100 |} ];
     TradingInterface.playerState := Some player;
     TradingInterface.currentRound := Some round1;
     TradingInterface.selectedStock := Some X;
     TradingInterface.orderType := side;
     TradingInterface.quantity := text;
     TradingInterface.submitting := false |}.

End Sample.

Module Scenario.

Definition game : Game :=
  {| id := 1; title := "Demo"; description := ""; status := Live;
     initial_cash := 10000; total_rounds := 5; allow_short := false;
     current_round_number := 2; created_by := 7 |}.

Definition round (n : Z) (st : RoundStatus) : Round :=
  {| round_game_id := 1; round_number := n; duration_minutes := Some 1;
     round_status := st; actual_start_time := NoTime; actual_end_time := NoTime |}.

(** Round 2 of 5 is active; [X] costs 100 in every round. *)
Definition world : Engine.World :=
  {| Engine.game := game;
     Engine.rounds :=
       [round 1 Done; round 2 Active; round 3 Pending; round 4 Pending; round 5 Pending];
     Engine.instruments := {[ "X" := fun _ : Z => 100%Q ]};
     Engine.accounts := ∅;
     Engine.ledger := [] |}.

(** The same game in its last round. *)
Definition last_round : Engine.World :=
  {| Engine.game := Engine.with_game game Live 5;
     Engine.rounds :=
       [round 1 Done; round 2 Done; round 3 Done; round 4 Done; round 5 Active];
     Engine.instruments := {[ "X" := fun _ : Z => 100%Q ]};
     Engine.accounts := ∅;
     Engine.ledger := [] |}.

End Scenario.

Module Clock.

(** A live game in its first round, [Sample.round1], which started at
    1000000 ms and lasts one minute: its deadline is 1060000 ms. *)
Definition game : Game :=
  {| id := 1; title := "Demo"; description := ""; status := Live;
     initial_cash := 10000; total_rounds := 5; allow_short := false;
     current_round_number := 1; created_by := 7 |}.

End Clock.

Module Race.

(** Round 1 has completed and round 2 has just started, for a minute. *)
Definition game2 : Game :=
  {| id := 1; title := "Demo"; description := ""; status := Live;
     initial_cash := 10000; total_rounds := 5; allow_short := false;
     current_round_number := 2; created_by := 7 |}.

Definition rounds2 : list Round :=
  [ {| round_game_id := 1; round_number := 1; duration_minutes := Some 1;
       round_status := Done; actual_start_time := TimeMs 1000000;
       actual_end_time := TimeMs 1064200 |};
    {| round_game_id := 1; round_number := 2; duration_minutes := Some 1;
       round_status := Active; actual_start_time := TimeMs 1064200;
       actual_end_time := NoTime |} ].

(** On an administrator's client, with round 1 overdue: the timer is
    set up and schedules the call; the timeout comes due and the call
    is in flight; the effect runs again with the same data (a
    notification arrived) and schedules a new call; the first call
    settles. *)
Definition stalled : RoundManager.State :=
  RoundManager.run
    [ RoundManager.Render (Some Clock.game) [Sample.round1] true 1061000;
      RoundManager.TimeoutFires 0;
      RoundManager.Render (Some Clock.game) [Sample.round1] true 1064100;
      RoundManager.AdvanceSettles true ]
    RoundManager.initial.

End Race.

Module Missing.

(** A game in its second round whose only stock has a price for round
    1 and none for round 2. *)
Definition game : Game :=
  {| id := 1; title := "Demo"; description := ""; status := Live;
     initial_cash := 10000; total_rounds := 2; allow_short := false;
     current_round_number := 2; created_by := 7 |}.

Definition stored_X : Stock :=
  {| stock_game_id := 1; symbol := "X"; display_name := "X Corp";
     initial_price := 100; current_price := None |}.

Definition db : Db :=
  {| games := [game]; game_stocks := [stored_X]; game_rounds := [];
     round_prices :=
       [ {| price_game_id := 1; price_round_number := 1; price_symbol := "X";
            price := 100 |} ];
     next_id := 2 |}.

Definition form : TradingInterface.State :=
  {| TradingInterface.stocks := []; TradingInterface.positions := [];
     TradingInterface.playerState := None; TradingInterface.currentRound := None;
     TradingInterface.selectedStock := None; TradingInterface.orderType := Buy;
     TradingInterface.quantity := ""; TradingInterface.submitting := false |}.

End Missing.

Module Stale.

Definition priced (n : Z) (p : Q) : RoundPrice :=
  {| price_game_id := 1; price_round_number := n; price_symbol := "X"; price := p |}.

(** The game of [Missing] with a price for both rounds, in round [n]. *)
Definition db (n : Z) : Db :=
  {| games :=
       [ {| id := 1; title := "Demo"; description := ""; status := Live;
            initial_cash := 10000; total_rounds := 2; allow_short := false;
            current_round_number := n; created_by := 7 |} ];
     game_stocks := [Missing.stored_X]; game_rounds := [];
     round_prices := [priced 1 100; priced 2 120];
     next_id := 2 |}.

End Stale.

Module Draft.

Definition X : Stock :=
  {| stock_game_id := 0; symbol := "X"; display_name := "X Corp";
     initial_price := 100; current_price := None |}.

(** A new game with one stock and two rounds; a price of 120 was
    entered for round 2 only. *)
Definition editor : GameEditor.State :=
  {| GameEditor.game := None; GameEditor.title := "Demo";
     GameEditor.description := ""; GameEditor.initialCash := 10000;
     GameEditor.totalRounds := 2; GameEditor.allowShort := false;
     GameEditor.stocks := [X];
     GameEditor.roundDurations := ∅;
     GameEditor.priceMatrix := {[ 2 := [("X", 120%Q)] ]} |}.

Definition empty : Db :=
  {| games := []; game_stocks := []; game_rounds := []; round_prices := [];
     next_id := 1 |}.

End Draft.

Module Reopened.

(** A stored draft with the stock [X], priced in both of its rounds,
    opened in the editor; there the stock [Y] is added and the stock
    [X] removed. *)
Definition game : Game :=
  {| id := 1; title := "Demo"; description := ""; status := Store.Draft;
     initial_cash := 10000; total_rounds := 2; allow_short := false;
     current_round_number := 0; created_by := 7 |}.

Definition db : Db :=
  {| games := [game]; game_stocks := [Missing.stored_X];
     game_rounds := [];
     round_prices := [Stale.priced 1 100; Stale.priced 2 120];
     next_id := 2 |}.

Definition opened : GameEditor.State := GameEditorForm.openGame db game.

Definition form : GameEditor.State :=
  GameEditor.handleRemoveStock "X"
    (default opened
       (GameEditor.handleAddStock "y" "Y Corp" "5" (Some 5%Q) opened)).

(** The store after the row of the game was deleted. *)
Definition deleted : Db :=
  {| games := []; game_stocks := [Missing.stored_X]; game_rounds := [];
     round_prices := [Stale.priced 1 100; Stale.priced 2 120];
     next_id := 2 |}.

End Reopened.

Module Cents.

(** A player whose cash is the double nearest to 0.03 and a stock
    priced at the double nearest to 0.01, with the stock selected for a
    buy. *)
Definition cash : Q := 1080863910568919 # 36028797018963968.

Definition price : Q := 5764607523034235 # 576460752303423488.

Definition player : PlayerState :=
  {| Store.cash := cash; equity_value := 0; total_value := cash |}.

Definition stock : Stock :=
  {| stock_game_id := 1; symbol := "X"; display_name := "X Corp";
     initial_price := price; current_price := Some price |}.

Definition form : TradingInterface.State :=
  {| TradingInterface.stocks := [stock]; TradingInterface.positions := [];
     TradingInterface.playerState := Some player;
     TradingInterface.currentRound := Some Sample.round1;
     TradingInterface.selectedStock := Some stock;
     TradingInterface.orderType := Buy;
     TradingInterface.quantity := ""; TradingInterface.submitting := false |}.

End Cents.

Module Unloaded.

(** The order form of [Sample.form] for a sale, with the positions
    loaded and the player's state not. *)
Definition form : TradingInterface.State :=
  {| TradingInterface.stocks := [Sample.X];
     TradingInterface.positions :=
       [ {| position_symbol := "X"; quantity := 50; average_price := 100 |} ];
     TradingInterface.playerState := None;
     TradingInterface.currentRound := Some Sample.round1;
     TradingInterface.selectedStock := Some Sample.X;
     TradingInterface.orderType := Sell;
     TradingInterface.quantity := ""; TradingInterface.submitting := false |}.

End Unloaded.

Section TextVocabulary.

Definition is_digit (d : Z) : Prop := 0 <= d < 10.

(** The number a list of decimal digits stands for, the first digit
    being the most significant. *)
Definition digits_value (ds : list Z) : Z :=
  List.fold_left (fun a d => a * 10 + d) ds 0.

(** A text at which [parseInt] stops reading a decimal number: the end
    of the text, or a character that is neither a digit nor the [x] of a
    hexadecimal prefix. *)
Definition stops_number (rest : string) : bool :=
  match rest with
  | EmptyString => true
  | String c _ =>
      match Js.digit_val 10 c with
      | Some _ => false
      | None => negb (Ascii.eqb c "x") && negb (Ascii.eqb c "X")
      end
  end.

End TextVocabulary.

Section TimerInvariants.

Import RoundManager.

(** What every run of the timer keeps: the time shown is not negative;
    every pending timeout has the delay of 3000 ms and an identifier
    handed out earlier, no two the same; the calls issued and the
    timeouts pending together do not exceed the timeouts scheduled; and
    no more calls are in flight than were issued. *)
Definition timer_inv (st : State) : Prop :=
  0 <= timeRemaining st /\
  List.Forall (fun t => delay t = 3000 /\ (timeout_id t < next_timer st)%nat) (timers st) /\
  List.NoDup (List.map timeout_id (timers st)) /\
  (advance_calls st + List.length (timers st) <= next_timer st)%nat /\
  (in_flight st <= advance_calls st)%nat.

(** At most one timeout is pending, and the ref holds it. *)
Definition tracked (st : State) : Prop :=
  timers st = [] \/
  exists t, timers st = [t] /\ autoAdvanceTimeoutRef st = Some (timeout_id t).

Definition settles (e : Event) : bool :=
  match e with
  | AdvanceSettles _ => true
  | _ => false
  end.

(** The round the timer counts down: the current round of a live game,
    if it is active. *)
Definition counted_round (game : option Game) (rounds : list Round) : option Round :=
  match game with
  | Some g =>
      if status_eqb (status g) Live then
        match List.find (fun r => round_number r =? current_round_number g) rounds with
        | Some r => if round_status_eqb (round_status r) Active then Some r else None
        | None => None
        end
      else None
  | None => None
  end.

End TimerInvariants.

Section TimerTraces.

Import RoundManager.

(** Time passing, and nothing else: the interval fires, a timeout comes
    due. *)
Definition passive (e : Event) : bool :=
  match e with
  | Tick _ | TimeoutFires _ => true
  | _ => false
  end.

(** The timer is off: nothing pending, nothing tracked, no interval. *)
Definition stopped (st : State) : Prop :=
  timers st = [] /\ autoAdvanceTimeoutRef st = None /\ countdownIntervalRef st = None.

End TimerTraces.

Section EditorVocabulary.

Import GameEditor GameEditorForm.

(** The states of the form for a new game: what its fields, its
    handlers and the effect on the number of rounds lead to. *)
Inductive filled : State -> Prop :=
| filled_new : filled newGame
| filled_edit st st' : filled st -> edited st st' -> filled st'
| filled_title st value : filled st -> filled (onTitleChange value st)
| filled_description st value : filled st -> filled (onDescriptionChange value st)
| filled_cash st parsed : filled st -> filled (onInitialCashChange parsed st)
| filled_short st checked : filled st -> filled (onAllowShortChange checked st)
| filled_duration st roundNum value :
    filled st -> filled (onDurationChange roundNum value st)
| filled_sync st : filled st -> filled (syncRoundDurations st).

(** Nothing of the game [gameId] is stored yet. *)
Definition unused (db : Db) (gameId : Z) : Prop :=
  (forall g, In g (games db) -> id g <> gameId) /\
  (forall s, In s (game_stocks db) -> stock_game_id s <> gameId) /\
  (forall r, In r (game_rounds db) -> round_game_id r <> gameId).

(** The row [addStockToGame] inserts for a stock of the form. *)
Definition stored_stock (gameId : Z) (stock : Stock) : Stock :=
  {| stock_game_id := gameId; symbol := symbol stock;
     display_name := display_name stock; initial_price := initial_price stock;
     current_price := current_price stock |}.

(** The row [createGame] inserts for the form. *)
Definition stored_game (st : State) (userId gameId : Z) : Game :=
  {| id := gameId; Store.title := title st; Store.description := description st;
     status := Draft; initial_cash := initialCash st; total_rounds := totalRounds st;
     allow_short := allowShort st; current_round_number := 0; created_by := userId |}.

(** A stock as [handleAddStock] makes it: a positive initial price and
    a symbol in capitals. *)
Definition listed_properly (s : Stock) : Prop :=
  (0 < initial_price s)%Q /\ Js.toUpperCase (symbol s) = symbol s.

(** What the form for a new game keeps, however it is filled in. *)
Definition well_formed (st : State) : Prop :=
  game st = None /\
  1 <= totalRounds st <= 20 /\
  (forall r d, roundDurations st !! r = Some d -> 1 <= d) /\
  symbols_distinct st /\
  List.Forall listed_properly (stocks st).

End EditorVocabulary.

Module NewForm.

(** The form for a new game after the title was typed and a stock
    added, and the state the handler returns for another stock with the
    same symbol in small letters. *)
Definition titled : GameEditor.State :=
  GameEditorForm.onTitleChange "Demo" GameEditor.newGame.

Definition form : GameEditor.State :=
  default titled
    (GameEditor.handleAddStock "abc" "ABC Corp" "12.5" (Some (25 # 2)%Q) titled).

End NewForm.

Section TabsVocabulary.

Import GameDetailsTabs.

(** A sequence of clicks on the buttons of the tabs. *)
Definition clicks (ts : list Tab) (p : Page) : Page := List.fold_left click ts p.

End TabsVocabulary.

Section StoreVocabulary.

(** The row [setRoundPrices] inserts for a price. *)
Definition price_row (gameId roundNumber : Z) (sp : string * Q) : RoundPrice :=
  {| price_game_id := gameId; price_round_number := roundNumber;
     price_symbol := fst sp; price := snd sp |}.

End StoreVocabulary.

(** * Properties *)

(** ** Reading numbers *)

Example parseInt_fraction : Js.parseInt "3.9" = Some 3.
Proof. reflexivity. Qed.

Example parseInt_leading_dot : Js.parseInt ".5" = None.
Proof. reflexivity. Qed.

Example parseInt_exponent : Js.parseInt "1e5" = Some 1.
Proof. reflexivity. Qed.

Example parseInt_negative : Js.parseInt "  -42abc" = Some (-42).
Proof. reflexivity. Qed.

Example parseInt_hex : Js.parseInt "0x1F" = Some 31.
Proof. reflexivity. Qed.

Example parseInt_empty : Js.parseInt "" = None.
Proof. reflexivity. Qed.

Lemma status_eqb_eq a b : status_eqb a b = true <-> a = b.
Proof. destruct a, b; simpl; split; congruence. Qed.

Lemma round_status_eqb_eq a b : round_status_eqb a b = true <-> a = b.
Proof. destruct a, b; simpl; split; congruence. Qed.

(** ** The total-rounds field of the editor *)


Example total_rounds_too_many st :
  GameEditor.totalRounds (GameEditor.onTotalRoundsChange "25" st) = 20.
Proof. reflexivity. Qed.

Example total_rounds_negative st :
  GameEditor.totalRounds (GameEditor.onTotalRoundsChange "-3" st) = 1.
Proof. reflexivity. Qed.

Example total_rounds_text st :
  GameEditor.totalRounds (GameEditor.onTotalRoundsChange "abc" st) = 1.
Proof. reflexivity. Qed.

Example total_rounds_kept st :
  GameEditor.totalRounds (GameEditor.onTotalRoundsChange "7" st) = 7.
Proof. reflexivity. Qed.

(** ** Order entry *)

Section OrderEntry.

Import TradingInterface.

Lemma canTrade_active st :
  canTrade st = true <->
  exists r, currentRound st = Some r /\ round_status r = Active.
Proof.
  unfold canTrade. destruct (currentRound st) as [r|].
  - rewrite round_status_eqb_eq. split; [eauto|]. intros (r' & [= <-] & H). exact H.
  - split; [discriminate|]. intros (r & H & _). discriminate.
Qed.

(** What the handler passes on is [parseInt] of the text. *)
Lemma handlePlaceOrder_quantity st call :
  handlePlaceOrder st = Some call ->
  call_quantity call = Js.parseInt (quantity st) /\
  call_side call = orderType st /\
  exists stock, selectedStock st = Some stock /\ call_symbol call = symbol stock.
Proof.
  unfold handlePlaceOrder. destruct (selectedStock st) as [stock|]; [|discriminate].
  destruct (_ || _); [discriminate|]. intros [= <-]. simpl. eauto.
Qed.

(** The handler stops exactly when no stock is selected, the text is
    empty, or the text reads as a number that is not positive. *)
Lemma handlePlaceOrder_blocked st :
  handlePlaceOrder st = None <->
  selectedStock st = None \/ quantity st = "" \/
  exists n, Js.parseInt (quantity st) = Some n /\ n <= 0.
Proof.
  unfold handlePlaceOrder, Js.le_zero.
  destruct (selectedStock st) as [stock|]; [|tauto].
  destruct (quantity st) as [|c s] eqn:Hq; simpl; [tauto|].
  destruct (Js.parseInt (String c s)) as [n|]; simpl.
  - destruct (Z.leb_spec n 0); split; try discriminate; eauto.
    intros [H'|[H'|(m & [= <-] & H')]]; try discriminate. lia.
  - split; [discriminate|]. intros [H|[H|(m & H & _)]]; discriminate.
Qed.

Lemma clickSubmit_handler st call :
  clickSubmit st = Some call ->
  canTrade st = true /\ submitting st = false /\ handlePlaceOrder st = Some call.
Proof.
  unfold clickSubmit, render; simpl.
  destruct (selectedStock st) as [stock|] eqn:Hs; [|discriminate].
  destruct (canTrade st); simpl; [|discriminate].
  destruct (submitting st); simpl; [discriminate|].
  destruct (negb _ || _); [discriminate|]. auto.
Qed.

End OrderEntry.

(** C2: an order leaves the trading interface only while the round it
    holds as current is active.  When that round is not active (or there
    is none) the buy and sell buttons and the stock selector are
    disabled, the quantity input, its Max button and the submit button
    are disabled whenever they are shown, and a click on submit calls
    nothing; and the trading tab is offered only for a game whose status
    is live. *)
Theorem orders_only_while_round_active
    (st : TradingInterface.State) (role : option GameDetails.Role) (game : option Game) :
  (forall call, TradingInterface.clickSubmit st = Some call ->
     exists r, TradingInterface.currentRound st = Some r /\ round_status r = Active) /\
  ((forall r, TradingInterface.currentRound st = Some r -> round_status r <> Active) ->
     let form := TradingInterface.render st in
     TradingInterface.buy_disabled form = true /\
     TradingInterface.sell_disabled form = true /\
     TradingInterface.select_disabled form = true /\
     (forall b, TradingInterface.max_disabled form = Some b -> b = true) /\
     (forall b, TradingInterface.quantity_disabled form = Some b -> b = true) /\
     (forall b, TradingInterface.submit_disabled form = Some b -> b = true) /\
     TradingInterface.clickSubmit st = None) /\
  (GameDetails.tradingTabOffered role game = true ->
     exists g, game = Some g /\ status g = Live).
Proof.
  split; [|split].
  - intros call H. apply clickSubmit_handler in H as (H & _). now apply canTrade_active.
  - intros Hna.
    assert (Hc : TradingInterface.canTrade st = false).
    { destruct (TradingInterface.canTrade st) eqn:E; [|reflexivity].
      apply canTrade_active in E as (r & Hr & Ha). now destruct (Hna r Hr). }
    unfold TradingInterface.clickSubmit, TradingInterface.render; simpl. rewrite Hc; simpl.
    repeat split; try (destruct (TradingInterface.selectedStock st); congruence).
  - unfold GameDetails.tradingTabOffered. intros H.
    apply andb_true_iff in H as (_ & H). destruct game as [g|]; [|discriminate].
    exists g. split; [reflexivity|]. now apply status_eqb_eq.
Qed.

Example order_for_fraction :
  TradingInterface.clickSubmit (Sample.form Buy "3.9") =
  Some {| TradingInterface.call_symbol := "X"; TradingInterface.call_side := Buy;
          TradingInterface.call_quantity := Some 3 |}.
Proof. reflexivity. Qed.

Example order_for_zero_blocked :
  TradingInterface.clickSubmit (Sample.form Buy "0.5") = None.
Proof. reflexivity. Qed.

(** C10, at the input where the code departs from it: with a stock
    selected and the text [.5] typed as quantity, [parseInt] gives [NaN],
    which is not greater than zero, yet the submit button is enabled and
    a click calls [placeOrder] with that [NaN] as the quantity.  (For the
    text [3.9] the quantity passed is 3, as the claim says.) *)
Theorem order_with_unreadable_quantity_not_blocked :
  let st := Sample.form Buy ".5" in
  Js.parseInt (TradingInterface.quantity st) = None /\
  TradingInterface.submit_disabled (TradingInterface.render st) = Some false /\
  TradingInterface.handlePlaceOrder st =
    Some {| TradingInterface.call_symbol := "X"; TradingInterface.call_side := Buy;
            TradingInterface.call_quantity := None |} /\
  TradingInterface.clickSubmit st = TradingInterface.handlePlaceOrder st /\
  TradingInterface.call_quantity
    <$> TradingInterface.clickSubmit (Sample.form Buy "3.9") = Some (Some 3).
Proof. repeat split. Qed.

(** ** The largest quantity the form proposes *)

Lemma q_truthy_pos (p : Q) : (0 < p)%Q -> Js.q_truthy p = true.
Proof.
  unfold Js.q_truthy, Qlt. simpl. intros H.
  destruct (Z.eqb_spec (Qnum p) 0); [lia|reflexivity].
Qed.

Lemma q_falsy_zero (p : Q) : Js.q_truthy p = false -> (p == 0)%Q.
Proof.
  unfold Js.q_truthy, Qeq. simpl. intros H.
  destruct (Z.eqb_spec (Qnum p) 0); [lia|discriminate].
Qed.

(** *** Rounding to a double *)

Section Doubles.












End Doubles.

Example double_of_three_tenths :
  Js.to_double (3 # 10) = Some (5404319552844595 * 2 ^ (-54))%Q /\
  Js.to_double (1 # 10) = Some (7205759403792794 * 2 ^ (-56))%Q.
Proof. split; vm_compute; reflexivity. Qed.

(** In doubles 0.3 / 0.1 is a little less than 3. *)
Example three_tenths_by_a_tenth :
  Js.floor (Js.divide (5404319552844595 # 2 ^ 54) (7205759403792794 # 2 ^ 56)) = Some 2.
Proof. vm_compute. reflexivity. Qed.

Example double_ties_to_even :
  Js.floor (Js.to_double (inject_Z (2 ^ 53 + 1))) = Some (2 ^ 53) /\
  Js.floor (Js.to_double (inject_Z (2 ^ 53 + 3))) = Some (2 ^ 53 + 4) /\
  Js.to_double (inject_Z (2 ^ 1024)) = None.
Proof. repeat split; vm_compute; reflexivity. Qed.

Example max_buy_quantity_value :
  TradingInterface.calculateMaxQuantity (Sample.form Buy "") (Some Sample.X) = Some 100.
Proof. vm_compute. reflexivity. Qed.

(** ** Selling no more than is held *)

Section Selling.

Import Engine.

Lemma PlaceOrder_sell_cases (w : World) (player : Z) (sym : string) (qty : Z) :
  let h := held (holding_of (account_of w player) sym) in
  let result := PlaceOrder w player sym Sell qty in
  match order_status (fst result) with
  | Filled _ =>
      trading_open w = true /\ is_Some (instruments w !! sym) /\ 0 < qty /\
      (allow_short (game w) = false -> qty <= h)
  | Rejected InsufficientPosition =>
      allow_short (game w) = false /\ h < qty /\ accounts (snd result) = accounts w
  | Rejected _ => accounts (snd result) = accounts w
  end.
Proof.
  unfold PlaceOrder. simpl.
  destruct (trading_open w); simpl; [|reflexivity].
  destruct (instruments w !! sym) as [price_of|] eqn:Hi; simpl; [|reflexivity].
  destruct (Z.leb_spec qty 0); simpl; [reflexivity|].
  destruct (allow_short (game w)); simpl.
  - repeat split; eauto; discriminate.
  - destruct (Z.ltb_spec (held (holding_of (account_of w player) sym)) qty); simpl.
    + repeat split; assumption.
    + repeat split; eauto.
Qed.

(** What a filled sale leaves of the position. *)
Lemma PlaceOrder_sell_filled_holding (w : World) (player : Z) (sym : string)
    (qty : Z) (price : Q) :
  let h := held (holding_of (account_of w player) sym) in
  let result := PlaceOrder w player sym Sell qty in
  order_status (fst result) = Filled price ->
  held (holding_of (account_of (snd result) player) sym) = h - qty.
Proof.
  cbv zeta. unfold PlaceOrder.
  destruct (trading_open w); simpl; [|discriminate].
  destruct (instruments w !! sym) as [price_of|] eqn:Hi; simpl; [|discriminate].
  destruct (Z.leb_spec qty 0); simpl; [discriminate|].
  destruct (negb (allow_short (game w)) &&
            (held (holding_of (account_of w player) sym) <? qty)); simpl;
    [discriminate|].
  intros _. unfold account_of at 1. simpl. rewrite lookup_insert_eq. simpl.
  unfold holding_of at 1. simpl. now rewrite lookup_insert_eq.
Qed.

End Selling.

Section SellingForm.

Import TradingInterface.

(** The first position of a symbol in the list of positions. *)
Lemma find_first_position (l before after : list Position) (position : Position)
    (sym : string) :
  l = (before ++ position :: after)%list ->
  position_symbol position = sym ->
  (forall q, In q before -> position_symbol q <> sym) ->
  List.find (fun p => String.eqb (position_symbol p) sym) l = Some position.
Proof.
  intros -> Hs Hb. induction before as [|q before IH]; simpl.
  - now rewrite Hs, String.eqb_refl.
  - destruct (String.eqb_spec (position_symbol q) sym) as [E|_].
    + exfalso. apply (Hb q); [now left|exact E].
    + apply IH. intros q' Hq'. apply Hb. now right.
Qed.

Lemma find_no_position (l : list Position) (sym : string) :
  (forall q, In q l -> position_symbol q <> sym) ->
  List.find (fun p => String.eqb (position_symbol p) sym) l = None.
Proof.
  intros H. induction l as [|q l IH]; [reflexivity|]. simpl.
  destruct (String.eqb_spec (position_symbol q) sym) as [E|_].
  - exfalso. apply (H q); [now left|exact E].
  - apply IH. intros q' Hq'. apply H. now right.
Qed.

End SellingForm.

(** C6, as amended.  When short selling is not allowed, a sell order is
    filled only if its quantity does not exceed the quantity the player
    holds of the symbol, and the fill leaves the quantity held less the
    quantity sold; a sell order for more (the game being open for
    trading, the symbol known and the quantity positive) is rejected
    with [InsufficientPosition], recorded in the ledger, and leaves
    every account as it was.  In the order form the largest quantity
    proposed for a sale is, once the player's state is loaded, the
    quantity of the first position listed for the stock's symbol, and
    zero when no position is listed for it; while the player's state is
    not loaded it is zero, whatever is held. *)
Theorem sell_quantity_and_position
    (w : Engine.World) (player : Z) (sym : string) (qty : Z)
    (st : TradingInterface.State) (stock : Stock) :
  let h := Engine.held (Engine.holding_of (Engine.account_of w player) sym) in
  let result := Engine.PlaceOrder w player sym Sell qty in
  (allow_short (Engine.game w) = false ->
   forall price, Engine.order_status (fst result) = Engine.Filled price ->
   qty <= h /\
   Engine.held (Engine.holding_of (Engine.account_of (snd result) player) sym)
     = h - qty) /\
  (allow_short (Engine.game w) = false ->
   Engine.trading_open w = true -> is_Some (Engine.instruments w !! sym) ->
   0 < qty -> h < qty ->
   Engine.order_status (fst result) = Engine.Rejected Engine.InsufficientPosition /\
   Engine.accounts (snd result) = Engine.accounts w /\
   Engine.ledger (snd result) = (Engine.ledger w ++ [fst result])%list) /\
  (TradingInterface.orderType st = Sell ->
   (TradingInterface.playerState st = None ->
    TradingInterface.calculateMaxQuantity st (Some stock) = Some 0) /\
   (forall ps, TradingInterface.playerState st = Some ps ->
      (forall before position after,
         TradingInterface.positions st = (before ++ position :: after)%list ->
         position_symbol position = symbol stock ->
         (forall q, In q before -> position_symbol q <> symbol stock) ->
         TradingInterface.calculateMaxQuantity st (Some stock)
           = Some (quantity position)) /\
      ((forall q, In q (TradingInterface.positions st) ->
          position_symbol q <> symbol stock) ->
       TradingInterface.calculateMaxQuantity st (Some stock) = Some 0))).
Proof.
  cbv zeta. split; [|split].
  - intros Hshort price Hf.
    pose proof (PlaceOrder_sell_cases w player sym qty) as H. cbv zeta in H.
    rewrite Hf in H. split; [now apply H|].
    exact (PlaceOrder_sell_filled_holding w player sym qty price Hf).
  - intros Hshort Hopen [price_of Hi] Hq Hlt.
    unfold Engine.PlaceOrder. rewrite Hopen, Hi, Hshort. simpl.
    destruct (Z.leb_spec qty 0); [lia|].
    destruct (Z.ltb_spec (Engine.held (Engine.holding_of (Engine.account_of w player) sym)) qty);
      [|lia].
    simpl. auto.
  - intros Hsell. split.
    + intros Hps. unfold TradingInterface.calculateMaxQuantity. now rewrite Hps.
    + intros ps Hps. split.
      * intros before position after Hl Hs Hb.
        unfold TradingInterface.calculateMaxQuantity, TradingInterface.getPosition.
        rewrite Hps, Hsell, (find_first_position _ before after position _ Hl Hs Hb).
        unfold Js.or_default.
        destruct (Z.eqb_spec (quantity position) 0) as [->|]; reflexivity.
      * intros Hno.
        unfold TradingInterface.calculateMaxQuantity, TradingInterface.getPosition.
        now rewrite Hps, Hsell, (find_no_position _ _ Hno).
Qed.

(** C6, where the claim fails: 50 shares of [X] are held and listed, the
    player's state is not loaded, and the form proposes 0 for a sale. *)
Lemma max_sell_quantity_without_player_state :
  TradingInterface.positions Unloaded.form =
    [ {| position_symbol := "X"; quantity := 50; average_price := 100 |} ] /\
  TradingInterface.orderType Unloaded.form = Sell /\
  TradingInterface.calculateMaxQuantity Unloaded.form (Some Sample.X) = Some 0.
Proof. repeat split. Qed.

(** Scenario B: no short selling, a player without shares of [X] sells
    10: the order is rejected and no account changes. *)
Example sell_without_position_rejected :
  let result := Engine.PlaceOrder Scenario.world 42 "X" Sell 10 in
  Engine.order_status (fst result) = Engine.Rejected Engine.InsufficientPosition /\
  Engine.accounts (snd result) = Engine.accounts Scenario.world.
Proof.
  cbv zeta. split; vm_compute; reflexivity.
Qed.

(** Scenario A, the purchase: with 10000 in cash and [X] at 100, buying
    50 leaves 5000 in cash and a position of 50 at a cost of 100. *)
Example buy_fifty :
  let result := Engine.PlaceOrder Scenario.world 42 "X" Buy 50 in
  let account := Engine.account_of (snd result) 42 in
  Engine.order_status (fst result) = Engine.Filled 100 /\
  Engine.cash account = 5000%Q /\
  Engine.held (Engine.holding_of account "X") = 50 /\
  Engine.cost (Engine.holding_of account "X") = (5000 # 50)%Q.
Proof. repeat split. Qed.

Example max_sell_quantity_value :
  TradingInterface.calculateMaxQuantity (Sample.form Sell "") (Some Sample.X) = Some 50.
Proof. reflexivity. Qed.

(** ** The countdown and the automatic advance *)

Section Timer.

Import RoundManager.

Lemma calculateTimeRemaining_nonneg r now : 0 <= calculateTimeRemaining r now.
Proof.
  unfold calculateTimeRemaining.
  destruct (actual_start_time r); try lia.
  destruct (_ <=? 0); [lia|]. apply Z.div_pos; lia.
Qed.

Lemma calculateTimeRemaining_formula r now :
  calculateTimeRemaining r now =
  match actual_start_time r, duration_minutes r with
  | TimeMs s, Some d =>
      if 0 <? d then Z.max 0 (s + d * 60000 - now) / 1000 else 0
  | _, _ => 0
  end.
Proof.
  unfold calculateTimeRemaining, Js.or_default.
  destruct (actual_start_time r) as [| |s]; try reflexivity.
  destruct (duration_minutes r) as [d|]; [|reflexivity].
  destruct (Z.eqb_spec d 0) as [->|Hd]; [reflexivity|].
  destruct (Z.leb_spec (d * 60 * 1000) 0), (Z.ltb_spec 0 d); try lia.
  replace (d * 60 * 1000) with (d * 60000) by lia. reflexivity.
Qed.

Lemma remaining_le_zero r now :
  (calculateTimeRemaining r now <=? 0) = (calculateTimeRemaining r now =? 0).
Proof.
  pose proof (calculateTimeRemaining_nonneg r now).
  destruct (Z.leb_spec (calculateTimeRemaining r now) 0),
           (Z.eqb_spec (calculateTimeRemaining r now) 0); lia || reflexivity.
Qed.

Lemma trigger_not_admin now st : triggerAutoAdvance false now st = st.
Proof. reflexivity. Qed.

Lemma trigger_pending isAdmin now st :
  is_Some (autoAdvanceTimeoutRef st) -> triggerAutoAdvance isAdmin now st = st.
Proof.
  intros [i Hi]. unfold triggerAutoAdvance. rewrite Hi. now destruct isAdmin.
Qed.

Lemma trigger_schedules now st :
  autoAdvanceTimeoutRef st = None ->
  let st' := triggerAutoAdvance true now st in
  timers st' =
    (timers st ++ [ {| timeout_id := next_timer st; set_at := now; delay := 3000 |} ])%list /\
  autoAdvanceTimeoutRef st' = Some (next_timer st) /\
  autoAdvancing st' = true /\
  countdownIntervalRef st' = countdownIntervalRef st /\
  advance_calls st' = advance_calls st.
Proof. intros H. unfold triggerAutoAdvance. rewrite H. simpl. auto. Qed.

Lemma tick_quiet now st :
  quiet st ->
  quiet (tick now st) /\ timers (tick now st) = timers st /\
  advance_calls (tick now st) = advance_calls st.
Proof.
  unfold quiet, tick. intros Hq.
  destruct (countdownIntervalRef st) as [iv|] eqn:Hiv; [|rewrite Hiv; auto].
  destruct (_ <=? 0).
  - destruct Hq as [Hp|Hna].
    + rewrite trigger_pending; unfold clearCountdown; simpl; rewrite Hiv; simpl; auto.
    + rewrite Hna, trigger_not_admin. unfold clearCountdown; simpl; rewrite Hiv; simpl; auto.
  - simpl. rewrite Hiv. auto.
Qed.

Lemma ticks_quiet nows st :
  quiet st ->
  timers (run (List.map Tick nows) st) = timers st /\
  advance_calls (run (List.map Tick nows) st) = advance_calls st.
Proof.
  revert st. induction nows as [|t nows IH]; intros st Hq; [auto|].
  simpl. destruct (tick_quiet t st Hq) as (Hq' & Ht & Hc).
  destruct (IH _ Hq') as (Ht' & Hc'). rewrite Ht', Hc'. auto.
Qed.

Lemma ticks_schedule r isAdmin nows st :
  countdownIntervalRef st =
    Some {| interval_round := r; interval_admin := isAdmin |} ->
  autoAdvanceTimeoutRef st = None ->
  timers (run (List.map Tick nows) st) =
    (timers st ++ scheduled r isAdmin (next_timer st) nows)%list /\
  advance_calls (run (List.map Tick nows) st) = advance_calls st.
Proof.
  revert st. induction nows as [|t nows IH]; intros st Hiv Href.
  - simpl. unfold scheduled. simpl. now rewrite app_nil_r.
  - simpl. unfold scheduled. simpl.
    replace (tick t st) with
      (if calculateTimeRemaining r t =? 0
       then triggerAutoAdvance isAdmin t
              (clearCountdown (setTimeRemaining (calculateTimeRemaining r t) st))
       else setTimeRemaining (calculateTimeRemaining r t) st)
      by (unfold tick; rewrite Hiv; simpl; now rewrite remaining_le_zero).
    destruct (calculateTimeRemaining r t =? 0) eqn:Hz.
    + set (st1 := clearCountdown (setTimeRemaining (calculateTimeRemaining r t) st)).
      assert (H1 : autoAdvanceTimeoutRef st1 = None /\ timers st1 = timers st /\
                   next_timer st1 = next_timer st /\ countdownIntervalRef st1 = None /\
                   advance_calls st1 = advance_calls st).
      { unfold st1, clearCountdown. simpl. rewrite Hiv. simpl. auto. }
      destruct H1 as (Hr1 & Ht1 & Hn1 & Hi1 & Hc1).
      destruct isAdmin.
      * destruct (trigger_schedules t st1 Hr1) as (Ht & Hr & _ & _ & Hc).
        destruct (ticks_quiet nows (triggerAutoAdvance true t st1)) as (Ht' & Hc').
        { left. rewrite Hr. eauto. }
        rewrite Ht', Hc', Ht, Hc, Ht1, Hn1, Hc1. auto.
      * rewrite trigger_not_admin.
        destruct (ticks_quiet nows st1) as (Ht' & Hc').
        { right. now rewrite Hi1. }
        rewrite Ht', Hc', Ht1, Hc1, app_nil_r. auto.
    + destruct (IH (setTimeRemaining (calculateTimeRemaining r t) st)) as (Ht & Hc);
        [assumption|assumption|].
      simpl in Ht, Hc. rewrite Ht, Hc. auto.
Qed.

End Timer.

Section TimerRuns.

Import RoundManager.

(** The effect on a live game whose current round is active. *)
Lemma timerEffect_active g rounds r isAdmin now st :
  status g = Live ->
  List.find (fun r => round_number r =? current_round_number g) rounds = Some r ->
  round_status r = Active ->
  timerEffect (Some g) rounds isAdmin now st =
  let remaining := calculateTimeRemaining r now in
  let st1 := clearCountdown st in
  let st2 := if 0 <? remaining then setAutoAdvancing false st1 else st1 in
  let st3 := setTimeRemaining remaining st2 in
  set_interval (Some {| interval_round := r; interval_admin := isAdmin |})
    (if remaining =? 0 then triggerAutoAdvance isAdmin now st3 else st3).
Proof.
  intros Hg Hr Ha. unfold timerEffect. rewrite Hg, Hr, Ha. simpl.
  now rewrite remaining_le_zero.
Qed.

Lemma cleanup_clears st :
  countdownIntervalRef (cleanup st) = None /\
  autoAdvanceTimeoutRef (cleanup st) = None /\
  next_timer (cleanup st) = next_timer st /\
  advance_calls (cleanup st) = advance_calls st.
Proof.
  unfold cleanup, clearAutoAdvanceTimeout, clearCountdown.
  destruct (countdownIntervalRef st) eqn:Hi; simpl;
    destruct (autoAdvanceTimeoutRef st) eqn:Hr; simpl; rewrite ?Hi, ?Hr; auto.
Qed.

Lemma step_idle st e : by_admin e = false -> idle st -> idle (step st e).
Proof.
  intros He (Ht & Hc & Hf & Hr & Hi). destruct st as [tr aa iv ref ts nt fl ac].
  simpl in *. subst ts ac fl ref.
  destruct e as [game rounds adm now|now|i|ok|]; simpl in He; subst; simpl.
  - unfold cleanup, timerEffect, no_active_round, clearAutoAdvanceTimeout,
      clearCountdown, idle; simpl.
    destruct iv; simpl;
      (destruct game as [g|]; simpl; [|auto 6]);
      (destruct (status_eqb (status g) Live); simpl; [|auto 6]);
      (destruct (List.find _ rounds) as [r|]; simpl; [|auto 6]);
      (destruct (round_status_eqb (round_status r) Active); simpl; [|auto 6]);
      destruct (0 <? _), (_ <=? 0); simpl; auto 6.
  - unfold tick, idle; simpl. destruct iv as [iv|]; simpl; [|auto 6].
    rewrite Hi, trigger_not_admin. destruct (_ <=? 0); simpl; auto 6.
  - unfold idle; simpl. auto 6.
  - unfold idle; simpl. auto 6.
  - unfold cleanup, clearAutoAdvanceTimeout, clearCountdown, idle; simpl.
    destruct iv; simpl; auto 6.
Qed.

Lemma run_idle evs st :
  forallb (fun e => negb (by_admin e)) evs = true -> idle st -> idle (run evs st).
Proof.
  revert st. induction evs as [|e evs IH]; intros st Hall Hst; [exact Hst|].
  simpl in Hall. apply andb_true_iff in Hall as (He & Hall).
  simpl. apply IH; [exact Hall|]. apply step_idle; [|exact Hst].
  now destruct (by_admin e).
Qed.

(** The first run of the effect on a live game with an active round,
    followed by firings of the interval at the times [nows]. *)
Lemma first_run_schedules g rounds r isAdmin now0 nows :
  status g = Live ->
  List.find (fun r => round_number r =? current_round_number g) rounds = Some r ->
  round_status r = Active ->
  let st := run (Render (Some g) rounds isAdmin now0 :: List.map Tick nows) initial in
  timers st = scheduled r isAdmin 0 (now0 :: nows) /\ advance_calls st = 0%nat.
Proof.
  intros Hg Hr Ha. cbv zeta. cbn [run List.fold_left step List.map].
  change (List.fold_left step (List.map Tick nows)) with (run (List.map Tick nows)).
  rewrite (timerEffect_active g rounds r isAdmin now0 _ Hg Hr Ha). cbv zeta.
  unfold scheduled. cbn [List.find].
  destruct (calculateTimeRemaining r now0 =? 0) eqn:Hz.
  - apply Z.eqb_eq in Hz. rewrite Hz. simpl Z.ltb. cbv iota.
    destruct isAdmin.
    + apply ticks_quiet. left. simpl. eauto.
    + apply ticks_quiet. right. reflexivity.
  - match goal with |- context [run _ ?s] =>
      destruct (ticks_schedule r isAdmin nows s) as (Ht & Hc) end.
    + reflexivity.
    + simpl. now destruct (0 <? _).
    + rewrite Ht, Hc. unfold scheduled. simpl. now destruct (0 <? _).
Qed.

End TimerRuns.

(** One run of the timer.  For a live game whose current round is
    active, the remaining time is [max 0 (start + duration - now)] in
    whole seconds, rounded down: never negative, and zero when the start
    time is missing or the duration is not positive.  From the first run
    of the effect on, and until the scheduled call settles, an
    administrator's client schedules the call of [advanceToNextRound]
    exactly when the remaining time is first seen at zero, once, with a
    delay of 3000 ms, and the call is issued when that timeout comes due;
    a trigger while the ref holds a timeout schedules nothing; and a
    client that is not an administrator never schedules or issues the
    call. *)
Theorem auto_advance_scheduled_once
    (g : Game) (rounds : list Round) (r : Round) (isAdmin : bool)
    (now0 : Z) (nows : list Z) :
  status g = Live ->
  List.find (fun r => round_number r =? current_round_number g) rounds = Some r ->
  round_status r = Active ->
  let remaining := RoundManager.calculateTimeRemaining r in
  (forall now,
     0 <= remaining now /\
     remaining now =
       match actual_start_time r, duration_minutes r with
       | TimeMs start, Some minutes =>
           if 0 <? minutes then Z.max 0 (start + minutes * 60000 - now) / 1000 else 0
       | _, _ => 0
       end) /\
  (let st :=
     RoundManager.run
       (RoundManager.Render (Some g) rounds isAdmin now0
          :: List.map RoundManager.Tick nows)
       RoundManager.initial in
   RoundManager.timers st =
     match List.find (fun now => remaining now =? 0) (now0 :: nows) with
     | Some now =>
         if isAdmin
         then [ {| RoundManager.timeout_id := 0%nat; RoundManager.set_at := now;
                   RoundManager.delay := 3000 |} ]
         else []
     | None => []
     end /\
   RoundManager.advance_calls st = 0%nat /\
   RoundManager.advance_calls (RoundManager.step st (RoundManager.TimeoutFires 0)) =
     List.length (RoundManager.timers st)) /\
  (forall st now,
     is_Some (RoundManager.autoAdvanceTimeoutRef st) ->
     RoundManager.triggerAutoAdvance isAdmin now st = st) /\
  (forall evs,
     forallb (fun e => negb (RoundManager.by_admin e)) evs = true ->
     RoundManager.timers (RoundManager.run evs RoundManager.initial) = [] /\
     RoundManager.advance_calls (RoundManager.run evs RoundManager.initial) = 0%nat).
Proof.
  intros Hg Hr Ha. cbv zeta. split; [|split; [|split]].
  - intros now. split;
      [apply calculateTimeRemaining_nonneg|apply calculateTimeRemaining_formula].
  - destruct (first_run_schedules g rounds r isAdmin now0 nows Hg Hr Ha) as (Ht & Hc).
    cbv zeta in Ht, Hc. unfold scheduled in Ht.
    set (st := RoundManager.run _ RoundManager.initial) in *.
    split; [exact Ht|split; [exact Hc|]].
    change (RoundManager.step st (RoundManager.TimeoutFires 0))
      with (RoundManager.timeoutFires 0 st).
    unfold RoundManager.timeoutFires.
    rewrite Ht. destruct (List.find _ (now0 :: nows)); [destruct isAdmin|];
      simpl; rewrite ?Hc; reflexivity.
  - intros st now. apply trigger_pending.
  - intros evs Hall.
    destruct (run_idle evs RoundManager.initial Hall) as (Ht & Hc & _).
    + unfold idle. simpl. auto.
    + auto.
Qed.

Lemma auto_advance_scheduled_once_example :
  status Clock.game = Live /\
  round_status Sample.round1 = Active /\
  RoundManager.timers
    (RoundManager.run
       (RoundManager.Render (Some Clock.game) [Sample.round1] true 1058000
          :: List.map RoundManager.Tick [1059000; 1060000; 1061000])
       RoundManager.initial) =
  [ {| RoundManager.timeout_id := 0%nat; RoundManager.set_at := 1060000;
       RoundManager.delay := 3000 |} ].
Proof.
  split; [reflexivity|split; [reflexivity|]].
  destruct (auto_advance_scheduled_once Clock.game [Sample.round1] Sample.round1 true
              1058000 [1059000; 1060000; 1061000] eq_refl eq_refl eq_refl)
    as (_ & (H & _) & _).
  exact H.
Defined.

(** C1, at the input where the code departs from it: after the events
    of [Race.stalled] the second timeout is pending but the ref that
    guards the trigger is empty again, cleared by the [finally] branch of
    the first call.  The next firing of the interval then schedules a
    further call while that one is pending; and when instead the effect
    runs again for the next round, with 59 seconds remaining, the
    pending timeout is not cleared and issues the call a second time. *)
Theorem second_call_scheduled_while_one_pending :
  let pending :=
    {| RoundManager.timeout_id := 1%nat; RoundManager.set_at := 1064100;
       RoundManager.delay := 3000 |} in
  let further :=
    {| RoundManager.timeout_id := 2%nat; RoundManager.set_at := 1065100;
       RoundManager.delay := 3000 |} in
  let next :=
    RoundManager.run
      [ RoundManager.Render (Some Race.game2) Race.rounds2 true 1064300;
        RoundManager.TimeoutFires 1 ]
      Race.stalled in
  RoundManager.timers Race.stalled = (pending :: nil) /\
  RoundManager.autoAdvanceTimeoutRef Race.stalled = None /\
  RoundManager.advance_calls Race.stalled = 1%nat /\
  RoundManager.timers (RoundManager.step Race.stalled (RoundManager.Tick 1065100)) =
    (pending :: further :: nil) /\
  RoundManager.timeRemaining next = 59 /\
  RoundManager.advance_calls next = 2%nat.
Proof. repeat split. Qed.

(** C7: whenever the timer is set up, for the first time or again and
    whatever the timer state held before, for a live game whose active
    round has a start time and a positive duration whose sum is not
    after the current time, the remaining time is zero and the trigger
    of the automatic advance runs at once, as it does when the interval
    fires: on an administrator's client the earlier timeout is dropped
    and the call is scheduled at the current time with the 3000 ms
    delay. *)
Theorem overdue_round_advances_on_init
    (st : RoundManager.State) (g : Game) (rounds : list Round) (r : Round)
    (isAdmin : bool) (now start minutes : Z) :
  status g = Live ->
  List.find (fun r => round_number r =? current_round_number g) rounds = Some r ->
  round_status r = Active ->
  actual_start_time r = TimeMs start ->
  duration_minutes r = Some minutes ->
  0 < minutes ->
  start + minutes * 60000 <= now ->
  let st' := RoundManager.step st (RoundManager.Render (Some g) rounds isAdmin now) in
  let armed :=
    RoundManager.set_interval
      (Some {| RoundManager.interval_round := r;
               RoundManager.interval_admin := isAdmin |})
      (RoundManager.cleanup st) in
  RoundManager.calculateTimeRemaining r now = 0 /\
  RoundManager.timeRemaining st' = 0 /\
  RoundManager.timers st' = RoundManager.timers (RoundManager.tick now armed) /\
  RoundManager.autoAdvanceTimeoutRef st' =
    RoundManager.autoAdvanceTimeoutRef (RoundManager.tick now armed) /\
  (if isAdmin
   then RoundManager.timers st' =
          (RoundManager.timers (RoundManager.cleanup st) ++
           [ {| RoundManager.timeout_id := RoundManager.next_timer st;
                RoundManager.set_at := now; RoundManager.delay := 3000 |} ])%list /\
        RoundManager.autoAdvanceTimeoutRef st' = Some (RoundManager.next_timer st) /\
        RoundManager.autoAdvancing st' = true
   else RoundManager.timers st' = RoundManager.timers (RoundManager.cleanup st)).
Proof.
  intros Hg Hr Ha Hs Hd Hpos Hover.
  assert (Hz : RoundManager.calculateTimeRemaining r now = 0).
  { rewrite calculateTimeRemaining_formula, Hs, Hd.
    destruct (Z.ltb_spec 0 minutes); [|lia].
    rewrite Z.max_l by lia. reflexivity. }
  cbv zeta. unfold RoundManager.step.
  rewrite (timerEffect_active g rounds r isAdmin now _ Hg Hr Ha). cbv zeta.
  unfold RoundManager.tick. simpl RoundManager.countdownIntervalRef.
  cbv iota. simpl RoundManager.interval_round. simpl RoundManager.interval_admin.
  rewrite Hz. simpl Z.ltb. simpl Z.eqb. simpl Z.leb. cbv iota.
  destruct (cleanup_clears st) as (Hi & Href & Hn & Hc).
  split; [reflexivity|].
  unfold RoundManager.clearCountdown. simpl RoundManager.countdownIntervalRef.
  rewrite Hi. cbv iota.
  destruct isAdmin.
  - unfold RoundManager.triggerAutoAdvance. simpl. rewrite Href, Hn. simpl. auto 6.
  - simpl. auto.
Qed.

Lemma overdue_round_advances_on_init_example :
  1000000 + 1 * 60000 <= 1061000 /\
  RoundManager.timers
    (RoundManager.step RoundManager.initial
       (RoundManager.Render (Some Clock.game) [Sample.round1] true 1061000)) =
  [ {| RoundManager.timeout_id := 0%nat; RoundManager.set_at := 1061000;
       RoundManager.delay := 3000 |} ].
Proof.
  split; [lia|].
  destruct (overdue_round_advances_on_init RoundManager.initial Clock.game
              [Sample.round1] Sample.round1 true 1061000 1000000 1
              eq_refl eq_refl eq_refl eq_refl eq_refl eq_refl ltac:(lia))
    as (_ & _ & _ & _ & H & _).
  exact H.
Defined.

(** ** The price shown for a stock *)

Lemma find_filter {A} (f g : A -> bool) (l : list A) :
  List.find f (List.filter g l) = List.find (fun x => g x && f x) l.
Proof.
  induction l as [|x l IH]; [reflexivity|]. simpl.
  destruct (g x); simpl; [now rewrite IH|exact IH].
Qed.

Lemma with_current_price_listed db gameId n stock :
  TradingInterface.with_current_price (gameApi.getRoundPrices db gameId n) stock =
  {| stock_game_id := stock_game_id stock; symbol := symbol stock;
     display_name := display_name stock; initial_price := initial_price stock;
     current_price := Some (listed_price db gameId n stock) |}.
Proof.
  unfold TradingInterface.with_current_price, gameApi.getRoundPrices,
    TradingInterface.price_or_initial, listed_price, round_price.
  rewrite find_filter. now destruct (List.find _ (round_prices db)).
Qed.

Lemma loadStocks_stocks db gameId game st :
  gameApi.getGameById db gameId = Some game ->
  current_round_number game <> 0 ->
  TradingInterface.stocks (TradingInterface.loadStocks db gameId st) =
  List.map (fun stock =>
         {| stock_game_id := stock_game_id stock; symbol := symbol stock;
            display_name := display_name stock; initial_price := initial_price stock;
            current_price :=
              Some (listed_price db gameId (current_round_number game) stock) |})
      (gameApi.getStocks db gameId).
Proof.
  intros Hg Hn. unfold TradingInterface.loadStocks. rewrite Hg.
  destruct (Z.eqb_spec (current_round_number game) 0); [contradiction|]. simpl.
  apply List.map_ext. intros stock. apply with_current_price_listed.
Qed.

(** C3 as stated fails, in two ways.  For a game in round 2 whose stock
    [X] has no price stored for round 2, the list shows 100 for [X]: the
    stock's initial price (and its round 1 price), not a price of the
    current round.  And with a price stored for both rounds, a stock
    selected in round 1 keeps in the order summary the price 100 of
    round 1 after the list has been loaded again in round 2, where it
    shows 120. *)
Lemma shown_price_not_current_round_price :
  let listed :=
    TradingInterface.stocks (TradingInterface.loadStocks Missing.db 1 Missing.form) in
  let selected :=
    TradingInterface.selectStock "X"
      (TradingInterface.loadStocks (Stale.db 1) 1 Missing.form) in
  let reloaded := TradingInterface.loadStocks (Stale.db 2) 1 selected in
  List.map current_price listed = [Some 100%Q] /\
  round_price Missing.db 1 (current_round_number Missing.game) "X" = None /\
  round_price Missing.db 1 1 "X" = Some 100%Q /\
  List.map current_price (TradingInterface.stocks reloaded) = [Some 120%Q] /\
  round_price (Stale.db 2) 1 2 "X" = Some 120%Q /\
  TradingInterface.summary_price reloaded = Some 100%Q.
Proof. repeat split. Qed.

(** C3, amended: after the stocks are loaded for a game that has a
    current round, every stock listed carries as its per-share price the
    price stored for its symbol in the game's current round when there is
    one and it is not zero, and the stock's initial price otherwise; the
    prices stored for other rounds play no part; and the order summary
    of a stock selected from this list, until the list is loaded again,
    shows the same price. *)
Theorem listed_price_from_current_round
    (db : Db) (gameId : Z) (game : Game) (st : TradingInterface.State) :
  gameApi.getGameById db gameId = Some game ->
  current_round_number game <> 0 ->
  let n := current_round_number game in
  let st' := TradingInterface.loadStocks db gameId st in
  (forall stock, In stock (TradingInterface.stocks st') ->
     current_price stock = Some (listed_price db gameId n stock)) /\
  List.map symbol (TradingInterface.stocks st') =
    List.map symbol (gameApi.getStocks db gameId) /\
  (forall db2,
     games db2 = games db -> game_stocks db2 = game_stocks db ->
     (forall sym, round_price db2 gameId n sym = round_price db gameId n sym) ->
     TradingInterface.stocks (TradingInterface.loadStocks db2 gameId st) =
     TradingInterface.stocks st') /\
  (forall value stock,
     TradingInterface.selectedStock (TradingInterface.selectStock value st') = Some stock ->
     TradingInterface.summary_price (TradingInterface.selectStock value st') =
       Some (listed_price db gameId n stock)).
Proof.
  intros Hg Hn. cbv zeta.
  pose proof (loadStocks_stocks db gameId game st Hg Hn) as Hl.
  assert (Hin : forall stock,
            In stock (TradingInterface.stocks (TradingInterface.loadStocks db gameId st)) ->
            current_price stock =
              Some (listed_price db gameId (current_round_number game) stock)).
  { intros stock. rewrite Hl, List.in_map_iff. intros (s & <- & _). reflexivity. }
  split; [exact Hin|split; [|split]].
  - rewrite Hl, List.map_map. reflexivity.
  - intros db2 Hgames Hstocks Hprices.
    rewrite Hl.
    rewrite (loadStocks_stocks db2 gameId game st); [| |exact Hn].
    + unfold gameApi.getStocks. rewrite Hstocks.
      apply List.map_ext. intros stock. unfold listed_price. now rewrite Hprices.
    + unfold gameApi.getGameById. now rewrite Hgames.
  - intros value stock Hsel. unfold TradingInterface.summary_price. rewrite Hsel.
    apply Hin. simpl in Hsel. apply List.find_some in Hsel. tauto.
Qed.

Lemma listed_price_from_current_round_example :
  gameApi.getGameById Missing.db 1 = Some Missing.game /\
  forall stock,
    In stock (TradingInterface.stocks (TradingInterface.loadStocks Missing.db 1 Missing.form)) ->
    current_price stock = Some (listed_price Missing.db 1 2 stock).
Proof.
  split; [reflexivity|].
  destruct (listed_price_from_current_round Missing.db 1 Missing.game Missing.form
              eq_refl ltac:(discriminate)) as (H & _).
  exact H.
Defined.

(** ** Saving a game *)

Section Saving.

Import GameEditor.

Lemma upper_ascii_idem c : Js.upper_ascii (Js.upper_ascii c) = Js.upper_ascii c.
Proof. destruct c as [[] [] [] [] [] [] [] []]; reflexivity. Qed.

Lemma toUpperCase_idem s : Js.toUpperCase (Js.toUpperCase s) = Js.toUpperCase s.
Proof.
  induction s as [|c s IH]; [reflexivity|]. simpl. now rewrite upper_ascii_idem, IH.
Qed.

Lemma symbols_distinct_NoDup st :
  symbols_distinct st -> List.NoDup (List.map symbol (stocks st)).
Proof.
  unfold symbols_distinct. intros H.
  apply (List.NoDup_map_inv Js.toUpperCase). now rewrite List.map_map.
Qed.

Lemma NoDup_map_filter {A B} (f : A -> B) (p : A -> bool) (l : list A) :
  List.NoDup (List.map f l) -> List.NoDup (List.map f (List.filter p l)).
Proof.
  induction l as [|x l IH]; intros H; [constructor|].
  simpl in H. apply List.NoDup_cons_iff in H as (Hx & Hl). simpl.
  destruct (p x); [|now apply IH]. simpl. constructor; [|now apply IH].
  intros Hin. apply Hx. apply List.in_map_iff in Hin as (y & Hy & Hin).
  apply List.in_map_iff. exists y. split; [exact Hy|].
  now apply List.filter_In in Hin as (Hin & _).
Qed.

Lemma handleAddStock_distinct sym name text parsed st st' :
  symbols_distinct st -> handleAddStock sym name text parsed st = Some st' ->
  symbols_distinct st'.
Proof.
  unfold handleAddStock, symbols_distinct. intros Hd.
  destruct (_ || _); [discriminate|].
  destruct parsed as [price|]; [|discriminate].
  destruct (Qle_bool price 0); [discriminate|].
  destruct (List.find _ (stocks st)) eqn:Hf; [discriminate|].
  intros [= <-]. simpl. rewrite List.map_app. simpl.
  apply List.NoDup_app; [exact Hd|constructor; [intros []|constructor]|].
  intros u Hu [Hu'|[]]. apply List.in_map_iff in Hu as (s & Hs & Hin).
  apply (List.find_none _ _ Hf) in Hin.
  rewrite toUpperCase_idem in Hu'. rewrite Hs, <- Hu', String.eqb_refl in Hin.
  discriminate.
Qed.

Lemma edited_distinct st0 st :
  symbols_distinct st0 -> edited st0 st -> symbols_distinct st.
Proof.
  intros H0 He. induction He as [|st st' sym name text parsed _ IH Ha| | |].
  - exact H0.
  - exact (handleAddStock_distinct _ _ _ _ _ _ IH Ha).
  - unfold symbols_distinct, handleRemoveStock. simpl. now apply NoDup_map_filter.
  - unfold handlePriceChange. now destruct parsed.
  - assumption.
Qed.

(** On the form for a new game, however it was filled in, the symbols
    are distinct. *)
Lemma new_game_symbols_distinct st :
  edited newGame st -> List.NoDup (List.map symbol (stocks st)).
Proof.
  intros He. apply symbols_distinct_NoDup, (edited_distinct newGame); [constructor|exact He].
Qed.

Lemma set_price_found sym price l :
  existsb (fun p => String.eqb (fst p) sym) l = true ->
  List.find (fun p => String.eqb (fst p) sym) (set_price sym price l) =
  Some (let p := default (sym, price) (List.find (fun p => String.eqb (fst p) sym) l) in
        (fst p, price)).
Proof.
  induction l as [|p l IH]; [discriminate|]. simpl.
  destruct (String.eqb (fst p) sym) eqn:E; simpl; rewrite E; [reflexivity|]. exact IH.
Qed.

(** A price typed into the matrix is the price entered for that round
    and stock. *)
Lemma entered_price_after_change st roundNum sym price :
  entered_price (handlePriceChange roundNum sym (Some price) st) sym roundNum = Some price.
Proof.
  unfold entered_price, handlePriceChange. simpl. rewrite lookup_insert_eq. simpl.
  destruct (existsb _ _) eqn:E.
  - now rewrite set_price_found.
  - assert (Hn : List.find (fun p => String.eqb (fst p) sym)
                           (default [] (priceMatrix st !! roundNum)) = None).
    { destruct (List.find _ _) as [p|] eqn:Hf; [|reflexivity].
      apply List.find_some in Hf as (Hin & Hp).
      assert (existsb (fun p => String.eqb (fst p) sym)
                      (default [] (priceMatrix st !! roundNum)) = true)
        by (apply List.existsb_exists; eauto).
      congruence. }
    clear E. induction (default [] (priceMatrix st !! roundNum)) as [|p l IH]; simpl.
    + now rewrite String.eqb_refl.
    + simpl in Hn. destruct (String.eqb (fst p) sym); [discriminate|]. now apply IH.
Qed.

Lemma filter_andb {A} (f g : A -> bool) (l : list A) :
  List.filter (fun x => g x && f x) l = List.filter f (List.filter g l).
Proof.
  induction l as [|x l IH]; [reflexivity|]. simpl.
  destruct (g x); simpl; [destruct (f x); now rewrite IH|exact IH].
Qed.


Lemma filter_none {A} (f : A -> bool) (l : list A) :
  (forall x, In x l -> f x = false) -> List.filter f l = [].
Proof.
  induction l as [|x l IH]; intros H; [reflexivity|]. simpl.
  rewrite (H x) by (left; reflexivity). apply IH. intros y Hy. apply H. now right.
Qed.

Lemma filter_all {A} (f : A -> bool) (l : list A) :
  (forall x, In x l -> f x = true) -> List.filter f l = l.
Proof.
  induction l as [|x l IH]; intros H; [reflexivity|]. simpl.
  rewrite (H x) by (left; reflexivity). f_equal. apply IH. intros y Hy. apply H. now right.
Qed.

(** A stock is the only one of its symbol in a list without repeated
    symbols. *)
Lemma filter_symbol_unique (l : list Stock) (s : Stock) :
  List.NoDup (List.map symbol l) -> In s l ->
  List.filter (fun x => String.eqb (symbol x) (symbol s)) l = [s] /\
  List.find (fun x => String.eqb (symbol x) (symbol s)) l = Some s.
Proof.
  induction l as [|x l IH]; intros Hnd Hin; [destruct Hin|].
  simpl in Hnd. apply List.NoDup_cons_iff in Hnd as (Hx & Hl).
  simpl. destruct Hin as [->|Hin].
  - rewrite String.eqb_refl. split; [|reflexivity]. f_equal.
    apply filter_none. intros y Hy. apply String.eqb_neq. intros E.
    apply Hx. rewrite <- E. now apply List.in_map.
  - destruct (String.eqb_spec (symbol x) (symbol s)) as [E|_].
    + exfalso. apply Hx. rewrite E. now apply List.in_map.
    + now apply IH.
Qed.

Lemma upto_spec n m : In m (upto n) <-> 1 <= m <= n.
Proof.
  unfold upto. rewrite List.in_map_iff. split.
  - intros (k & <- & Hk). apply List.in_seq in Hk. lia.
  - intros H. exists (Z.to_nat m). split; [lia|]. apply List.in_seq. lia.
Qed.

Lemma upto_NoDup n : List.NoDup (upto n).
Proof.
  unfold upto. generalize 1%nat. induction (Z.to_nat n) as [|k IH]; intros a; simpl.
  - constructor.
  - constructor; [|apply IH].
    rewrite List.in_map_iff. intros (j & Hj & Hin). apply List.in_seq in Hin. lia.
Qed.

Lemma setRoundPrices_rows st db gameId n :
  round_prices (gameApi.setRoundPrices db gameId n (pricesForRound st n)) =
  (List.filter (fun p => negb (gameApi.is_price_of gameId n p)) (round_prices db)
     ++ List.map (row st gameId n) (stocks st))%list.
Proof.
  unfold gameApi.setRoundPrices, pricesForRound. simpl. now rewrite List.map_map.
Qed.

Lemma is_price_of_row st gameId n m stock :
  gameApi.is_price_of gameId m (row st gameId n stock) = (n =? m).
Proof. unfold gameApi.is_price_of, row. simpl. now rewrite Z.eqb_refl. Qed.

Lemma getRoundPrices_set_same st db gameId n :
  gameApi.getRoundPrices (gameApi.setRoundPrices db gameId n (pricesForRound st n)) gameId n =
  List.map (row st gameId n) (stocks st).
Proof.
  unfold gameApi.getRoundPrices. rewrite setRoundPrices_rows, List.filter_app.
  rewrite filter_none, filter_all; [reflexivity| |].
  - intros p Hp. apply List.in_map_iff in Hp as (s & <- & _).
    rewrite is_price_of_row. apply Z.eqb_refl.
  - intros p Hp. apply List.filter_In in Hp as (_ & Hp).
    now destruct (gameApi.is_price_of gameId n p).
Qed.

Lemma getRoundPrices_set_other st db gameId n m :
  n <> m ->
  gameApi.getRoundPrices (gameApi.setRoundPrices db gameId n (pricesForRound st n)) gameId m =
  gameApi.getRoundPrices db gameId m.
Proof.
  intros Hnm. unfold gameApi.getRoundPrices.
  rewrite setRoundPrices_rows, List.filter_app.
  rewrite (filter_none _ (List.map _ _)), app_nil_r.
  - rewrite <- filter_andb. apply List.filter_ext. intros p.
    unfold gameApi.is_price_of.
    destruct (price_game_id p =? gameId); simpl; [|reflexivity].
    destruct (Z.eqb_spec (price_round_number p) n), (Z.eqb_spec (price_round_number p) m);
      simpl; lia || reflexivity.
  - intros p Hp. apply List.in_map_iff in Hp as (s & <- & _).
    rewrite is_price_of_row. now apply Z.eqb_neq.
Qed.

Lemma writePrices_other st gameId ns m : forall db,
  ~ In m ns ->
  gameApi.getRoundPrices (writePrices st gameId ns db) gameId m =
  gameApi.getRoundPrices db gameId m.
Proof.
  induction ns as [|n ns IH]; intros db Hm; [reflexivity|].
  simpl. rewrite IH by (intros H; apply Hm; now right).
  apply getRoundPrices_set_other. intros ->. apply Hm. now left.
Qed.

Lemma writePrices_rows st gameId ns m : forall db,
  List.NoDup ns -> In m ns ->
  gameApi.getRoundPrices (writePrices st gameId ns db) gameId m =
  List.map (row st gameId m) (stocks st).
Proof.
  induction ns as [|n ns IH]; intros db Hnd Hm; [destruct Hm|].
  apply List.NoDup_cons_iff in Hnd as (Hn & Hns).
  simpl. destruct Hm as [->|Hm].
  - rewrite writePrices_other by exact Hn.
    apply getRoundPrices_set_same.
  - now apply IH.
Qed.

End Saving.

(** A title of no-break spaces is blank. *)
Example blank_title_not_saved :
  let title := String "194" (String "160" (String " " (String "194" (String "160" ""))))%string in
  Js.trim title = ""%string /\
  GameEditor.handleSave (GameEditorForm.onTitleChange title Draft.editor) 7 Draft.empty =
    GameEditor.Failed "Please enter a game title".
Proof. split; vm_compute; reflexivity. Qed.

Example saved_prices :
  GameEditor.getPriceForRound Draft.editor "X" 1 = 100%Q /\
  GameEditor.getPriceForRound Draft.editor "X" 2 = 120%Q.
Proof. split; reflexivity. Qed.

(** ** Advancing a round once *)

Section Advancing.

Import Engine.


Lemma find_map_number (f : Round -> Round) (n : Z) (l : list Round) :
  (forall r, round_number (f r) = round_number r) ->
  List.find (fun r => round_number r =? n) (List.map f l) =
  f <$> List.find (fun r => round_number r =? n) l.
Proof.
  intros Hf. induction l as [|a l IH]; [reflexivity|]. simpl.
  rewrite Hf. destruct (round_number a =? n); [reflexivity|exact IH].
Qed.


Lemma transition_number last n now r :
  round_number (transition last n now r) = round_number r.
Proof.
  unfold transition, activate, complete.
  destruct last, (round_number r =? n) eqn:E; simpl; try reflexivity;
    destruct (round_number r =? n + 1); reflexivity.
Qed.












(** Each call returns once it has had two turns. *)
Lemma step_call_progress now c w :
  (Nat.min 2 (S (progress c)) <= progress (fst (step_call now c w)))%nat.
Proof.
  destruct c; simpl; try lia. destruct (read w); simpl; lia.
Qed.

Lemma run_calls_progress schedule s :
  (Nat.min 2 (progress (first s) + turns First schedule)
     <= progress (first (run_calls schedule s)))%nat /\
  (Nat.min 2 (progress (second s) + turns Second schedule)
     <= progress (second (run_calls schedule s)))%nat.
Proof.
  revert s. induction schedule as [|(who, now) schedule IH]; intros s.
  - unfold turns, run_calls. cbn [List.fold_left List.filter length].
    rewrite !Nat.add_0_r. split; apply Nat.le_min_r.
  - change (run_calls ((who, now) :: schedule) s)
      with (run_calls schedule (calls_step s (who, now))).
    destruct (IH (calls_step s (who, now))) as (IH1 & IH2).
    pose proof (step_call_progress now (first s) (world s)) as P1.
    pose proof (step_call_progress now (second s) (world s)) as P2.
    unfold turns in *. cbn [List.filter].
    destruct who; unfold calls_step, is_turn_of in *;
      cbn [fst snd first second world length] in *; lia.
Qed.

Lemma two_calls_return w schedule :
  (2 <= turns First schedule)%nat -> (2 <= turns Second schedule)%nat ->
  is_Some (outcome (first (run_calls schedule (two_calls w)))) /\
  is_Some (outcome (second (run_calls schedule (two_calls w)))).
Proof.
  intros H1 H2.
  destruct (run_calls_progress schedule (two_calls w)) as (P1 & P2).
  cbn [two_calls first second progress] in P1, P2.
  rewrite Nat.min_l in P1, P2 by lia.
  split.
  - destruct (first (run_calls schedule (two_calls w)));
      cbn [progress outcome] in *; eauto; lia.
  - destruct (second (run_calls schedule (two_calls w)));
      cbn [progress outcome] in *; eauto; lia.
Qed.

End Advancing.



(** In every order of the steps of the two callers of Scenario D in
    which both have read before either claims, the rounds end the
    same. *)
Example advance_twice_rounds :
  let claims_first :=
    Engine.run_calls [(Engine.First, 1000); (Engine.Second, 1000);
                      (Engine.First, 1000); (Engine.Second, 1000)]
                     (Engine.two_calls Scenario.world) in
  Engine.first claims_first = Engine.Returned 2 (Engine.Advanced 3) /\
  Engine.second claims_first = Engine.Returned 2 (Engine.AlreadyAdvanced 3) /\
  List.map round_status (Engine.rounds (Engine.world claims_first)) =
    [Done; Done; Active; Pending; Pending].
Proof. repeat split; reflexivity. Qed.

(** A call that starts after another has returned reads the next round
    as the active one: it is a call for the next transition, and
    advances out of it. *)
Example advance_alone_twice :
  let first := Engine.AdvanceRound 1000 Scenario.world in
  fst first = Engine.Advanced 3 /\
  fst (Engine.AdvanceRound 1001 (snd first)) = Engine.Advanced 4 /\
  Engine.run_calls [(Engine.First, 1000); (Engine.First, 1000);
                    (Engine.Second, 1001); (Engine.Second, 1001)]
                   (Engine.two_calls Scenario.world) =
    {| Engine.first := Engine.Returned 2 (Engine.Advanced 3);
       Engine.second := Engine.Returned 3 (Engine.Advanced 4);
       Engine.world := snd (Engine.AdvanceRound 1001 (snd first)) |}.
Proof. repeat split; reflexivity. Qed.

(** After the last round the game is completed: a call that starts then
    fails with [InvalidState]. *)
Example advance_after_last_round :
  let w := snd (Engine.AdvanceRound 1000 Scenario.last_round) in
  fst (Engine.AdvanceRound 1000 Scenario.last_round) = Engine.Advanced 5 /\
  status (Engine.game w) = Completed /\
  fst (Engine.AdvanceRound 1001 w) = Engine.InvalidState.
Proof. repeat split; reflexivity. Qed.

(** * Properties of the further parts *)

(** ** Numbers as text and back *)

Section NumberText.

Import JsText.

Lemma digits_le_spec fuel : forall n,
  0 <= n < 2 ^ Z.of_nat fuel ->
  List.fold_right (fun d a => a * 10 + d) 0 (digits_le fuel n) = n /\
  List.Forall is_digit (digits_le fuel n).
Proof.
  induction fuel as [|fuel IH]; intros n Hn.
  - simpl in *. assert (n = 0) by lia. subst. split; [reflexivity|constructor].
  - cbn [digits_le].
    assert (Hd : is_digit (n mod 10)) by (unfold is_digit; apply Z.mod_pos_bound; lia).
    destruct (Z.eqb_spec (n / 10) 0) as [E|E].
    + split; [|constructor; [exact Hd|constructor]]. simpl.
      pose proof (Z.div_mod n 10). lia.
    + assert (Hq : 0 <= n / 10 < 2 ^ Z.of_nat fuel).
      { split; [apply Z.div_pos; lia|].
        rewrite Nat2Z.inj_succ, Z.pow_succ_r in Hn by lia.
        apply Z.div_lt_upper_bound; lia. }
      destruct (IH _ Hq) as (Hv & Hf).
      split; [|constructor; assumption]. simpl. rewrite Hv.
      pose proof (Z.div_mod n 10). lia.
Qed.

Lemma natural_string_digits n :
  0 <= n ->
  exists d ds,
    natural_string n = digit_string (d :: ds) /\
    List.Forall is_digit (d :: ds) /\ digits_value (d :: ds) = n.
Proof.
  intros Hn. unfold natural_string.
  set (fuel := S (Z.to_nat (Z.log2 n))).
  assert (Hb : 0 <= n < 2 ^ Z.of_nat fuel).
  { split; [exact Hn|]. unfold fuel.
    rewrite Nat2Z.inj_succ, Z2Nat.id by apply Z.log2_nonneg.
    destruct (Z.eq_dec n 0) as [->|Hz]; [reflexivity|].
    apply Z.log2_spec. lia. }
  destruct (digits_le_spec fuel n Hb) as (Hv & Hf).
  destruct (List.rev (digits_le fuel n)) as [|d ds] eqn:Hr.
  - exfalso. apply (f_equal (@List.length Z)) in Hr.
    rewrite List.length_rev in Hr. unfold fuel in Hr. simpl in Hr. lia.
  - exists d, ds. split; [reflexivity|]. split.
    + rewrite <- Hr. now apply List.Forall_rev.
    + unfold digits_value. rewrite <- Hr.
      rewrite <- (List.rev_involutive (digits_le fuel n)) in Hv.
      rewrite List.fold_left_rev_right in Hv. exact Hv.
Qed.

Lemma digit_val_char d : is_digit d -> Js.digit_val 10 (digit_char d) = Some d.
Proof.
  unfold is_digit. intros H.
  assert (d = 0 \/ d = 1 \/ d = 2 \/ d = 3 \/ d = 4 \/ d = 5 \/ d = 6 \/ d = 7 \/
          d = 8 \/ d = 9) as Hc by lia.
  repeat (destruct Hc as [->|Hc]; [reflexivity|]). now subst.
Qed.

Lemma parse_digits_digit d s acc :
  is_digit d ->
  Js.parse_digits 10 (String (digit_char d) s) acc =
  Js.parse_digits 10 s (Some (default 0 acc * 10 + d)).
Proof.
  intros Hd. cbn [Js.parse_digits]. rewrite (digit_val_char d Hd).
  destruct acc as [a|]; [reflexivity|]. cbn [default]. f_equal.
Qed.

Lemma parse_digits_string ds : forall rest acc,
  List.Forall is_digit ds -> ds <> [] ->
  Js.parse_digits 10 (digit_string ds ++ rest) acc =
  Js.parse_digits 10 rest
    (Some (List.fold_left (fun a d => a * 10 + d) ds (default 0 acc))).
Proof.
  induction ds as [|d ds IH]; intros rest acc Hf Hne; [congruence|].
  apply List.Forall_cons_iff in Hf as (Hd & Hf).
  change (digit_string (d :: ds) ++ rest)%string
    with (String (digit_char d) (digit_string ds ++ rest)).
  rewrite (parse_digits_digit d _ acc Hd).
  destruct ds as [|d' ds']; [reflexivity|].
  rewrite IH by (exact Hf || discriminate). reflexivity.
Qed.

Lemma parse_digits_stop rest acc :
  stops_number rest = true -> Js.parse_digits 10 rest acc = acc.
Proof.
  destruct rest as [|c r]; [reflexivity|]. simpl.
  now destruct (Js.digit_val 10 c).
Qed.

Lemma digit_char_cases d :
  is_digit d ->
  In (digit_char d) ["0"; "1"; "2"; "3"; "4"; "5"; "6"; "7"; "8"; "9"]%char.
Proof.
  unfold is_digit. intros H.
  assert (d = 0 \/ d = 1 \/ d = 2 \/ d = 3 \/ d = 4 \/ d = 5 \/ d = 6 \/ d = 7 \/
          d = 8 \/ d = 9) as Hc by lia.
  repeat (destruct Hc as [->|Hc]; [cbv; tauto|]). subst. cbv. tauto.
Qed.

(** [parseInt] on a text that begins with a decimal digit, which is not
    the [0] of a hexadecimal prefix: the digits are read in base 10. *)
Lemma parseInt_decimal c s :
  In c ["0"; "1"; "2"; "3"; "4"; "5"; "6"; "7"; "8"; "9"]%char ->
  match s with
  | String x _ => Ascii.eqb x "x" = false /\ Ascii.eqb x "X" = false
  | EmptyString => True
  end ->
  Js.parseInt (String c s) =
    match Js.parse_digits 10 (String c s) None with
    | Some n => Some (1 * n)
    | None => None
    end /\
  Js.parseInt (String "-" (String c s)) =
    match Js.parse_digits 10 (String c s) None with
    | Some n => Some (-1 * n)
    | None => None
    end.
Proof.
  intros Hc Hx. simpl in Hc.
  destruct Hc as [<-|Hc].
  - destruct s as [|x r]; [split; reflexivity|]. destruct Hx as (Hx & HX).
    destruct x as [[] [] [] [] [] [] [] []]; try discriminate; split; reflexivity.
  - repeat (destruct Hc as [<-|Hc]; [split; reflexivity|]). contradiction.
Qed.

Lemma digit_not_x c :
  In c ["0"; "1"; "2"; "3"; "4"; "5"; "6"; "7"; "8"; "9"]%char ->
  Ascii.eqb c "x" = false /\ Ascii.eqb c "X" = false.
Proof.
  intros Hc. simpl in Hc.
  repeat (destruct Hc as [<-|Hc]; [split; reflexivity|]). contradiction.
Qed.

(** [parseInt] on a text that begins with a decimal number. *)
Lemma parseInt_natural d ds rest :
  List.Forall is_digit (d :: ds) -> stops_number rest = true ->
  Js.parseInt (digit_string (d :: ds) ++ rest) = Some (digits_value (d :: ds)) /\
  Js.parseInt (String "-" (digit_string (d :: ds) ++ rest)) =
    Some (- digits_value (d :: ds)).
Proof.
  intros Hf Hs.
  assert (Hp : Js.parse_digits 10 (digit_string (d :: ds) ++ rest) None =
               Some (digits_value (d :: ds))).
  { rewrite parse_digits_string by (exact Hf || discriminate).
    now apply parse_digits_stop. }
  apply List.Forall_cons_iff in Hf as (Hd & Hf).
  change (digit_string (d :: ds) ++ rest)%string
    with (String (digit_char d) (digit_string ds ++ rest)) in *.
  destruct (parseInt_decimal (digit_char d) (digit_string ds ++ rest)
              (digit_char_cases d Hd)) as (Hpos & Hneg).
  { destruct ds as [|d' ds'].
    - change (digit_string [] ++ rest)%string with rest.
      destruct rest as [|x r]; [exact I|]. unfold stops_number in Hs.
      destruct (Js.digit_val 10 x); [discriminate|].
      apply andb_true_iff in Hs as (Hx & HX).
      split; [now destruct (Ascii.eqb x "x")|now destruct (Ascii.eqb x "X")].
    - apply List.Forall_cons_iff in Hf as (Hd' & _).
      change (digit_string (d' :: ds') ++ rest)%string
        with (String (digit_char d') (digit_string ds' ++ rest)).
      apply digit_not_x, digit_char_cases, Hd'. }
  rewrite Hpos, Hneg, Hp. split; f_equal; lia.
Qed.

End NumberText.

Lemma toString_digits n :
  exists d ds,
    List.Forall is_digit (d :: ds) /\ digits_value (d :: ds) = Z.abs n /\
    JsText.toString n =
      if n <? 0 then String "-" (JsText.digit_string (d :: ds))
      else JsText.digit_string (d :: ds).
Proof.
  unfold JsText.toString. destruct (Z.ltb_spec n 0).
  - destruct (natural_string_digits (- n)) as (d & ds & Hs & Hf & Hv); [lia|].
    exists d, ds. rewrite Hs. repeat split; [exact Hf|lia].
  - destruct (natural_string_digits n) as (d & ds & Hs & Hf & Hv); [lia|].
    exists d, ds. rewrite Hs. repeat split; [exact Hf|lia].
Qed.

(** The decimal text of an integer, followed by anything at which a
    number stops, is read by [parseInt] as that integer. *)
Lemma parseInt_toString_prefix n rest :
  stops_number rest = true ->
  Js.parseInt (JsText.toString n ++ rest) = Some n.
Proof.
  intros Hs. destruct (toString_digits n) as (d & ds & Hf & Hv & ->).
  destruct (parseInt_natural d ds rest Hf Hs) as (Hpos & Hneg).
  destruct (Z.ltb_spec n 0).
  - change (String "-" (JsText.digit_string (d :: ds)) ++ rest)%string
      with (String "-" (JsText.digit_string (d :: ds) ++ rest)).
    rewrite Hneg. f_equal. lia.
  - rewrite Hpos. f_equal. lia.
Qed.

Lemma append_empty_r s : (s ++ "")%string = s.
Proof.
  induction s as [|c s IH]; [reflexivity|].
  change (String c s ++ "")%string with (String c (s ++ "")). now f_equal.
Qed.

Lemma parseInt_toString n : Js.parseInt (JsText.toString n) = Some n.
Proof.
  rewrite <- (append_empty_r (JsText.toString n)).
  now apply parseInt_toString_prefix.
Qed.

Lemma toString_truthy n rest : Js.str_truthy (JsText.toString n ++ rest) = true.
Proof.
  destruct (toString_digits n) as (d & ds & _ & _ & ->).
  now destruct (n <? 0).
Qed.

(** ** The order form, continued *)

Section OrderForm.

Import TradingInterface.

(** What a click on submit sends for an open form whose quantity field
    reads as the number [n]. *)
Lemma clickSubmit_number st stock text n :
  canTrade st = true -> submitting st = false ->
  selectedStock st = Some stock ->
  quantity st = text -> Js.str_truthy text = true -> Js.parseInt text = Some n ->
  clickSubmit st =
    if n <=? 0 then None
    else Some {| call_symbol := symbol stock; call_side := orderType st;
                 call_quantity := Some n |}.
Proof.
  intros Hc Hs Hsel Hq Ht Hp.
  unfold clickSubmit, render, handlePlaceOrder. simpl.
  rewrite Hsel, Hc, Hs, Hq, Ht, Hp. simpl. now destruct (n <=? 0).
Qed.

(** The quantity field, when it is shown and enabled, takes what is
    typed. *)
Lemma typeQuantity_open st stock text :
  canTrade st = true -> selectedStock st = Some stock ->
  TradingView.typeQuantity text st =
    {| stocks := stocks st; positions := positions st;
       playerState := playerState st; currentRound := currentRound st;
       selectedStock := selectedStock st; orderType := orderType st;
       quantity := text; submitting := submitting st |}.
Proof.
  intros Hc Hsel. unfold TradingView.typeQuantity, render. simpl.
  now rewrite Hsel, Hc.
Qed.

(** What is sent when a text that reads as the number [n] is typed and
    submit is clicked. *)
Lemma submit_typed st stock text n :
  canTrade st = true -> submitting st = false ->
  selectedStock st = Some stock ->
  Js.str_truthy text = true -> Js.parseInt text = Some n ->
  clickSubmit (TradingView.typeQuantity text st) =
    if n <=? 0 then None
    else Some {| call_symbol := symbol stock; call_side := orderType st;
                 call_quantity := Some n |}.
Proof.
  intros Hc Hs Hsel Ht Hp. rewrite (typeQuantity_open st stock text Hc Hsel).
  match goal with |- clickSubmit ?st' = _ =>
    rewrite (clickSubmit_number st' stock text n)
  end; try assumption; reflexivity.
Qed.

End OrderForm.

(** Max, then submit: on an open form with a stock selected, when the
    largest quantity is the number [m], below 10^21 so that its text is
    written with all its digits, a click on Max followed by a click on
    submit sends an order for exactly [m] if [m] is positive, and sends
    nothing otherwise. *)
Theorem max_then_submit
    (st : TradingInterface.State) (stock : Stock) (m : Z) :
  TradingInterface.canTrade st = true ->
  TradingInterface.submitting st = false ->
  TradingInterface.selectedStock st = Some stock ->
  TradingInterface.calculateMaxQuantity st (Some stock) = Some m ->
  m < 10 ^ 21 ->
  TradingInterface.clickSubmit (TradingView.clickMax st) =
    if m <=? 0 then None
    else Some {| TradingInterface.call_symbol := symbol stock;
                 TradingInterface.call_side := TradingInterface.orderType st;
                 TradingInterface.call_quantity := Some m |}.
Proof.
  intros Hc Hs Hsel Hm _.
  assert (Hst : TradingView.clickMax st =
    {| TradingInterface.stocks := TradingInterface.stocks st;
       TradingInterface.positions := TradingInterface.positions st;
       TradingInterface.playerState := TradingInterface.playerState st;
       TradingInterface.currentRound := TradingInterface.currentRound st;
       TradingInterface.selectedStock := TradingInterface.selectedStock st;
       TradingInterface.orderType := TradingInterface.orderType st;
       TradingInterface.quantity := JsText.toString m;
       TradingInterface.submitting := TradingInterface.submitting st |}).
  { unfold TradingView.clickMax, TradingInterface.render. simpl.
    rewrite Hsel, Hc, Hm. reflexivity. }
  rewrite Hst.
  match goal with |- TradingInterface.clickSubmit ?st' = _ =>
    rewrite (clickSubmit_number st' stock (JsText.toString m) m)
  end; try assumption; try reflexivity.
  - rewrite <- (append_empty_r (JsText.toString m)). apply toString_truthy.
  - apply parseInt_toString.
Qed.

Lemma max_then_submit_example :
  TradingInterface.canTrade (Sample.form Buy "") = true /\
  TradingInterface.clickSubmit (TradingView.clickMax (Sample.form Buy "")) =
    Some {| TradingInterface.call_symbol := "X"; TradingInterface.call_side := Buy;
            TradingInterface.call_quantity := Some 100 |}.
Proof.
  split; [reflexivity|].
  exact (max_then_submit (Sample.form Buy "") Sample.X 100
           eq_refl eq_refl eq_refl eq_refl eq_refl).
Defined.




Example cents_are_doubles :
  (Qeq_bool Cents.cash <$> Js.to_double (3 # 100)) = Some true /\
  (Qeq_bool Cents.price <$> Js.to_double (1 # 100)) = Some true.
Proof. split; vm_compute; reflexivity. Qed.

(** A quantity with a fractional part: on an open form with a stock
    selected, typing the decimal text of an integer [n] up to 2^53
    followed by a point and anything else, then clicking submit, sends an
    order for [n] when [n] is positive and nothing otherwise. *)
Theorem fractional_quantity_truncated
    (st : TradingInterface.State) (stock : Stock) (n : Z) (fraction : string) :
  TradingInterface.canTrade st = true ->
  TradingInterface.submitting st = false ->
  TradingInterface.selectedStock st = Some stock ->
  n <= 2 ^ 53 ->
  TradingInterface.clickSubmit
    (TradingView.typeQuantity (JsText.toString n ++ String "." fraction) st) =
    if n <=? 0 then None
    else Some {| TradingInterface.call_symbol := symbol stock;
                 TradingInterface.call_side := TradingInterface.orderType st;
                 TradingInterface.call_quantity := Some n |}.
Proof.
  intros Hc Hs Hsel _.
  apply (submit_typed st stock); try assumption.
  - apply toString_truthy.
  - now apply parseInt_toString_prefix.
Qed.

Lemma fractional_quantity_truncated_example :
  TradingInterface.canTrade (Sample.form Sell "") = true /\
  TradingInterface.clickSubmit
    (TradingView.typeQuantity "12.75" (Sample.form Sell "")) =
    Some {| TradingInterface.call_symbol := "X"; TradingInterface.call_side := Sell;
            TradingInterface.call_quantity := Some 12 |}.
Proof.
  split; [reflexivity|].
  exact (fractional_quantity_truncated (Sample.form Sell "") Sample.X 12 "75"
           eq_refl eq_refl eq_refl ltac:(lia)).
Defined.

(** Loading the current round: when the game cannot be read or has no
    current round number, the form is left as it is; otherwise trading
    is open afterwards exactly when the first round of the game with
    that number is stored as active. *)
Theorem canTrade_after_loadCurrentRound
    (db : Db) (gameId : Z) (st : TradingInterface.State) :
  match gameApi.getGameById db gameId with
  | None => TradingInterface.loadCurrentRound db gameId st = st
  | Some game =>
      if current_round_number game =? 0
      then TradingInterface.loadCurrentRound db gameId st = st
      else
        TradingInterface.canTrade (TradingInterface.loadCurrentRound db gameId st) =
        match List.find (fun r => (round_game_id r =? gameId)
                                  && (round_number r =? current_round_number game))
                        (game_rounds db) with
        | Some r => round_status_eqb (round_status r) Active
        | None => false
        end
  end.
Proof.
  unfold TradingInterface.loadCurrentRound.
  destruct (gameApi.getGameById db gameId) as [game|]; [|reflexivity].
  destruct (current_round_number game =? 0); [reflexivity|]. simpl.
  unfold TradingInterface.canTrade, gameApi.getRounds. simpl.
  now rewrite find_filter.
Qed.

Lemma find_first_match {A} (f : A -> bool) (before after : list A) (x : A) :
  f x = true -> (forall y, In y before -> f y = false) ->
  List.find f (before ++ x :: after) = Some x.
Proof.
  intros Hx Hb. induction before as [|y before IH]; simpl.
  - now rewrite Hx.
  - rewrite (Hb y) by now left. apply IH. intros z Hz. apply Hb. now right.
Qed.

(** Choosing a stock: the quantity is cleared, so a click on submit
    right after the choice sends nothing; when a stock with the chosen
    symbol is listed, the first one listed with that symbol is the stock
    selected, and no other stock is ever selected; and a value that no
    listed stock has (the placeholder) leaves no stock selected. *)
Theorem selectStock_clears_quantity
    (value : string) (st : TradingInterface.State) :
  let st' := TradingInterface.selectStock value st in
  TradingInterface.quantity st' = "" /\
  TradingInterface.clickSubmit st' = None /\
  (forall before stock after,
     TradingInterface.stocks st = (before ++ stock :: after)%list ->
     symbol stock = value ->
     (forall s, In s before -> symbol s <> value) ->
     TradingInterface.selectedStock st' = Some stock) /\
  (forall stock, TradingInterface.selectedStock st' = Some stock ->
     exists before after,
       TradingInterface.stocks st = (before ++ stock :: after)%list /\
       symbol stock = value /\
       forall s, In s before -> symbol s <> value) /\
  ((forall stock, In stock (TradingInterface.stocks st) -> symbol stock <> value) ->
   TradingInterface.selectedStock st' = None /\
   TradingInterface.submit_disabled (TradingInterface.render st') = None).
Proof.
  cbv zeta. split; [reflexivity|]. split; [|split; [|split]].
  - unfold TradingInterface.clickSubmit, TradingInterface.render. simpl.
    destruct (List.find _ _); [|reflexivity].
    now rewrite !orb_true_r.
  - simpl. intros before stock after -> Hs Hb.
    apply find_first_match; [now apply String.eqb_eq|].
    intros s Hin. apply String.eqb_neq. now apply Hb.
  - simpl. intros stock H.
    induction (TradingInterface.stocks st) as [|s l IH]; [discriminate|].
    simpl in H. destruct (String.eqb_spec (symbol s) value) as [E|E].
    + injection H as <-. exists [], l. split; [reflexivity|].
      split; [exact E|intros ? []].
    + destruct (IH H) as (before & after & -> & Hs & Hb).
      exists (s :: before), after. split; [reflexivity|].
      split; [exact Hs|]. intros s' [<-|Hin]; [exact E|now apply Hb].
  - intros Hno. unfold TradingInterface.render. simpl.
    destruct (List.find _ _) as [stock|] eqn:Hf; [|split; reflexivity].
    apply List.find_some in Hf as (Hin & He). apply String.eqb_eq in He.
    now destruct (Hno stock Hin).
Qed.

(** The total of the order summary and the order sent agree: when a
    click on submit sends an order, the summary shows the price of the
    selected stock (zero if it has none) times the quantity sent, the
    quantity counting as zero when it is not a number. *)
Theorem summary_total_of_order
    (st : TradingInterface.State) (call : TradingInterface.OrderCall) :
  TradingInterface.clickSubmit st = Some call ->
  exists stock,
    TradingInterface.selectedStock st = Some stock /\
    TradingInterface.call_symbol call = symbol stock /\
    TradingView.summary_total st =
      Some (TradingView.price_or_zero (current_price stock)
            * inject_Z (default 0%Z (TradingInterface.call_quantity call)))%Q.
Proof.
  intros H. apply clickSubmit_handler in H as (_ & _ & H).
  apply handlePlaceOrder_quantity in H as (Hq & _ & stock & Hsel & Hsym).
  exists stock. split; [exact Hsel|split; [exact Hsym|]].
  unfold TradingView.summary_total. rewrite Hsel, Hq. do 3 f_equal.
  unfold Js.or_default. destruct (Js.parseInt _) as [n|]; [|reflexivity].
  simpl. now destruct (Z.eqb_spec n 0).
Qed.

Lemma summary_total_of_order_example :
  TradingView.summary_total (Sample.form Buy "3.9") = Some (100 * inject_Z 3)%Q.
Proof.
  destruct (summary_total_of_order (Sample.form Buy "3.9") _ eq_refl)
    as (stock & Hsel & _ & Ht).
  injection Hsel as <-. exact Ht.
Defined.


(** ** The timer, over all its runs *)

Section TimerInvariantProofs.

Import RoundManager.

Lemma drop_timer_shorter i l :
  existsb (fun t => (timeout_id t =? i)%nat) l = true ->
  (S (List.length (drop_timer i l)) <= List.length l)%nat.
Proof.
  unfold drop_timer. induction l as [|t l IH]; [discriminate|]. simpl.
  destruct (timeout_id t =? i)%nat; simpl.
  - intros _. pose proof (List.filter_length_le
                            (fun t => negb (timeout_id t =? i)%nat) l). lia.
  - intros H. specialize (IH H). lia.
Qed.

Lemma drop_timer_le i l : (List.length (drop_timer i l) <= List.length l)%nat.
Proof. apply List.filter_length_le. Qed.

Lemma drop_timer_Forall (P : Timeout -> Prop) i l :
  List.Forall P l -> List.Forall P (drop_timer i l).
Proof.
  intros H. apply List.Forall_forall. intros t Ht.
  apply List.filter_In in Ht as (Ht & _). revert t Ht. now apply List.Forall_forall.
Qed.

Lemma timer_inv_fields st st' :
  timer_inv st ->
  0 <= timeRemaining st' ->
  timers st' = timers st -> next_timer st' = next_timer st ->
  advance_calls st' = advance_calls st -> in_flight st' = in_flight st ->
  timer_inv st'.
Proof.
  unfold timer_inv. intros (H1 & H2 & H3 & H4 & H5) Ht -> -> -> ->. auto.
Qed.

Lemma clearCountdown_inv st : timer_inv st -> timer_inv (clearCountdown st).
Proof.
  intros H. unfold clearCountdown. destruct (countdownIntervalRef st); [|exact H].
  apply (timer_inv_fields st); try reflexivity; [exact H|apply H].
Qed.

Lemma clearAutoAdvanceTimeout_inv st :
  timer_inv st -> timer_inv (clearAutoAdvanceTimeout st).
Proof.
  intros H. unfold clearAutoAdvanceTimeout.
  destruct (autoAdvanceTimeoutRef st) as [i|]; [|exact H].
  destruct H as (H1 & H2 & H3 & H4 & H5). unfold timer_inv. simpl.
  split; [exact H1|]. split; [now apply drop_timer_Forall|].
  split; [now apply NoDup_map_filter|].
  split; [pose proof (drop_timer_le i (timers st)); lia|exact H5].
Qed.

Lemma triggerAutoAdvance_inv isAdmin now st :
  timer_inv st -> timer_inv (triggerAutoAdvance isAdmin now st).
Proof.
  intros H. unfold triggerAutoAdvance.
  destruct isAdmin; [|exact H]. simpl.
  destruct (autoAdvanceTimeoutRef st); [exact H|].
  destruct H as (H1 & H2 & H3 & H4 & H5). unfold timer_inv. simpl.
  split; [exact H1|]. split; [|split; [|split]].
  - apply List.Forall_app. split.
    + eapply List.Forall_impl; [|exact H2]. simpl. intros t (Hd & Hi). split; [exact Hd|lia].
    + constructor; [|constructor]. simpl. split; [reflexivity|lia].
  - rewrite List.map_app. simpl. apply List.NoDup_app; [exact H3|repeat constructor; intros []|].
    intros i Hi [<-|[]]. apply List.in_map_iff in Hi as (t & Ht & Hin).
    apply (proj1 (List.Forall_forall _ _) H2) in Hin. lia.
  - rewrite List.length_app. simpl. lia.
  - exact H5.
Qed.

Lemma setTimeRemaining_inv v st :
  0 <= v -> timer_inv st -> timer_inv (setTimeRemaining v st).
Proof. intros Hv H. now apply (timer_inv_fields st). Qed.

Lemma setAutoAdvancing_inv v st : timer_inv st -> timer_inv (setAutoAdvancing v st).
Proof. intros H. apply (timer_inv_fields st); try reflexivity; [exact H|apply H]. Qed.

Lemma set_interval_inv v st : timer_inv st -> timer_inv (set_interval v st).
Proof. intros H. apply (timer_inv_fields st); try reflexivity; [exact H|apply H]. Qed.

Lemma step_inv st e : timer_inv st -> timer_inv (step st e).
Proof.
  intros H. destruct e as [game rounds isAdmin now|now|i|ok|]; simpl.
  - assert (Hc : timer_inv (clearCountdown (cleanup st))).
    { apply clearCountdown_inv, clearAutoAdvanceTimeout_inv, clearCountdown_inv, H. }
    assert (Hn : timer_inv (no_active_round (clearCountdown (cleanup st)))).
    { apply clearAutoAdvanceTimeout_inv, setTimeRemaining_inv; [lia|].
      now apply setAutoAdvancing_inv. }
    unfold timerEffect.
    destruct game as [g|]; [|exact Hn].
    destruct (negb (status_eqb (status g) Live)); [exact Hn|].
    destruct (List.find _ rounds) as [r|]; [|exact Hn].
    destruct (negb (round_status_eqb (round_status r) Active)); [exact Hn|].
    apply set_interval_inv.
    assert (Hs : timer_inv
              (setTimeRemaining (calculateTimeRemaining r now)
                 (if 0 <? calculateTimeRemaining r now
                  then setAutoAdvancing false (clearCountdown (cleanup st))
                  else clearCountdown (cleanup st)))).
    { apply setTimeRemaining_inv; [apply calculateTimeRemaining_nonneg|].
      destruct (0 <? _); [now apply setAutoAdvancing_inv|exact Hc]. }
    destruct (_ <=? 0); [now apply triggerAutoAdvance_inv|exact Hs].
  - unfold tick. destruct (countdownIntervalRef st) as [iv|]; [|exact H].
    assert (Hs : timer_inv
              (setTimeRemaining (calculateTimeRemaining (interval_round iv) now) st))
      by (apply setTimeRemaining_inv; [apply calculateTimeRemaining_nonneg|exact H]).
    destruct (_ <=? 0); [|exact Hs].
    now apply triggerAutoAdvance_inv, clearCountdown_inv.
  - unfold timeoutFires. destruct (existsb _ (timers st)) eqn:He; [|exact H].
    destruct H as (H1 & H2 & H3 & H4 & H5). unfold timer_inv. simpl.
    split; [exact H1|]. split; [now apply drop_timer_Forall|].
    split; [now apply NoDup_map_filter|].
    split; [pose proof (drop_timer_shorter i (timers st) He); lia|lia].
  - unfold advanceSettles. destruct (in_flight st) as [|n] eqn:Hf; [exact H|].
    destruct H as (H1 & H2 & H3 & H4 & H5). unfold timer_inv. simpl.
    repeat split; try assumption; lia.
  - apply clearAutoAdvanceTimeout_inv, clearCountdown_inv, H.
Qed.

Lemma run_inv evs : forall st, timer_inv st -> timer_inv (run evs st).
Proof.
  induction evs as [|e evs IH]; intros st H; [exact H|].
  simpl. apply IH. now apply step_inv.
Qed.

Lemma run_app evs e st : run (evs ++ [e]) st = step (run evs st) e.
Proof. unfold run. now rewrite List.fold_left_app. Qed.

Lemma tracked_fields st st' :
  tracked st -> timers st' = timers st ->
  autoAdvanceTimeoutRef st' = autoAdvanceTimeoutRef st -> tracked st'.
Proof. unfold tracked. intros H -> ->. exact H. Qed.

Lemma clearCountdown_tracked st : tracked st -> tracked (clearCountdown st).
Proof.
  intros H. unfold clearCountdown. destruct (countdownIntervalRef st); [|exact H].
  now apply (tracked_fields st).
Qed.

Lemma drop_own_timer t : drop_timer (timeout_id t) [t] = [].
Proof. unfold drop_timer. simpl. now rewrite Nat.eqb_refl. Qed.

(** Clearing the timeout of a tracked state leaves none pending. *)
Lemma clearAutoAdvanceTimeout_tracked st :
  tracked st ->
  timers (clearAutoAdvanceTimeout st) = [] /\
  autoAdvanceTimeoutRef (clearAutoAdvanceTimeout st) = None /\
  countdownIntervalRef (clearAutoAdvanceTimeout st) = countdownIntervalRef st /\
  timeRemaining (clearAutoAdvanceTimeout st) = timeRemaining st /\
  autoAdvancing (clearAutoAdvanceTimeout st) = autoAdvancing st /\
  advance_calls (clearAutoAdvanceTimeout st) = advance_calls st.
Proof.
  unfold clearAutoAdvanceTimeout. intros [H|(t & Ht & Hr)].
  - destruct (autoAdvanceTimeoutRef st) eqn:E; simpl; rewrite ?H, ?E;
      repeat split; reflexivity.
  - rewrite Hr. simpl. rewrite Ht, drop_own_timer. repeat split; reflexivity.
Qed.

Lemma triggerAutoAdvance_tracked isAdmin now st :
  tracked st -> tracked (triggerAutoAdvance isAdmin now st).
Proof.
  intros H. unfold triggerAutoAdvance. destruct isAdmin; [|exact H]. simpl.
  destruct (autoAdvanceTimeoutRef st) eqn:Hr; [exact H|].
  destruct H as [H|(t & _ & Ht)]; [|congruence].
  right. simpl. rewrite H. eexists. split; reflexivity.
Qed.

Lemma step_tracked st e : settles e = false -> tracked st -> tracked (step st e).
Proof.
  intros He H. destruct e as [game rounds isAdmin now|now|i|ok|]; simpl; try discriminate.
  - assert (Hc : tracked (clearCountdown (cleanup st))).
    { apply clearCountdown_tracked. left.
      apply clearAutoAdvanceTimeout_tracked, clearCountdown_tracked, H. }
    assert (Hn : tracked (no_active_round (clearCountdown (cleanup st)))).
    { left. apply clearAutoAdvanceTimeout_tracked.
      now apply (tracked_fields (clearCountdown (cleanup st))). }
    unfold timerEffect.
    destruct game as [g|]; [|exact Hn].
    destruct (negb (status_eqb (status g) Live)); [exact Hn|].
    destruct (List.find _ rounds) as [r|]; [|exact Hn].
    destruct (negb (round_status_eqb (round_status r) Active)); [exact Hn|].
    match goal with |- tracked (set_interval ?v ?s) =>
      apply (tracked_fields s); [|reflexivity|reflexivity] end.
    assert (Hs : tracked
              (setTimeRemaining (calculateTimeRemaining r now)
                 (if 0 <? calculateTimeRemaining r now
                  then setAutoAdvancing false (clearCountdown (cleanup st))
                  else clearCountdown (cleanup st)))).
    { destruct (0 <? _); [|now apply (tracked_fields (clearCountdown (cleanup st)))].
      now apply (tracked_fields (clearCountdown (cleanup st))). }
    destruct (_ <=? 0); [now apply triggerAutoAdvance_tracked|exact Hs].
  - unfold tick. destruct (countdownIntervalRef st) as [iv|]; [|exact H].
    destruct (_ <=? 0); [|now apply (tracked_fields st)].
    apply triggerAutoAdvance_tracked, clearCountdown_tracked.
    now apply (tracked_fields st).
  - unfold timeoutFires. destruct (existsb _ (timers st)) eqn:Hex; [|exact H].
    left. simpl. destruct H as [H|(t & Ht & _)]; [now rewrite H|].
    rewrite Ht in Hex |- *. simpl in Hex. rewrite orb_false_r in Hex.
    apply Nat.eqb_eq in Hex. subst i. apply drop_own_timer.
  - left. apply clearAutoAdvanceTimeout_tracked, clearCountdown_tracked, H.
Qed.

Lemma run_tracked evs : forall st,
  forallb (fun e => negb (settles e)) evs = true -> tracked st -> tracked (run evs st).
Proof.
  induction evs as [|e evs IH]; intros st Hall H; [exact H|].
  simpl in Hall. apply andb_true_iff in Hall as (He & Hall).
  simpl. apply IH; [exact Hall|]. apply step_tracked; [|exact H].
  now destruct (settles e).
Qed.

Lemma initial_inv : timer_inv initial /\ tracked initial.
Proof.
  split; [|now left]. unfold timer_inv. simpl.
  repeat split; try constructor; lia.
Qed.

End TimerInvariantProofs.

Section TimerTraceProofs.

Import RoundManager.

Lemma timerEffect_not_counted game rounds isAdmin now st :
  counted_round game rounds = None ->
  timerEffect game rounds isAdmin now st = no_active_round (clearCountdown st).
Proof.
  unfold counted_round, timerEffect. intros H.
  destruct game as [g|]; [|reflexivity].
  destruct (status_eqb (status g) Live); [|reflexivity]. simpl.
  destruct (List.find _ rounds) as [r|]; [|reflexivity].
  destruct (round_status_eqb (round_status r) Active); [discriminate|reflexivity].
Qed.

Lemma cleanup_stopped st :
  tracked st ->
  stopped (cleanup st) /\
  timeRemaining (cleanup st) = timeRemaining st /\
  autoAdvancing (cleanup st) = autoAdvancing st /\
  advance_calls (cleanup st) = advance_calls st.
Proof.
  intros H. unfold cleanup.
  assert (Hc : tracked (clearCountdown st)) by now apply clearCountdown_tracked.
  destruct (clearAutoAdvanceTimeout_tracked _ Hc) as (H1 & H2 & H3 & H4 & H5 & H6).
  unfold stopped. rewrite H1, H2, H3, H4, H5, H6.
  unfold clearCountdown.
  destruct (countdownIntervalRef st) eqn:E; simpl; rewrite ?E; repeat split; reflexivity.
Qed.

Lemma stopped_passive st e : stopped st -> passive e = true -> step st e = st.
Proof.
  intros (Ht & _ & Hi) He. destruct e; try discriminate; simpl.
  - unfold tick. now rewrite Hi.
  - unfold timeoutFires. now rewrite Ht.
Qed.

Lemma stopped_run later : forall st,
  stopped st -> forallb passive later = true -> run later st = st.
Proof.
  induction later as [|e later IH]; intros st Hs Hall; [reflexivity|].
  simpl in Hall. apply andb_true_iff in Hall as (He & Hall).
  simpl. rewrite (stopped_passive st e Hs He). now apply IH.
Qed.

End TimerTraceProofs.

(** In every run of the timer, whatever the renders, the firings and
    the calls that settle: the time shown is never negative; every
    pending timeout has the delay of 3000 ms and no two are the same
    timer; the calls of [advanceToNextRound] issued and the timeouts
    still pending never exceed the timeouts scheduled, so that no call
    is issued without a timeout scheduled for it; and no more calls are
    in flight than were issued. *)
Theorem timer_invariant (evs : list RoundManager.Event) :
  let st := RoundManager.run evs RoundManager.initial in
  0 <= RoundManager.timeRemaining st /\
  List.Forall (fun t => RoundManager.delay t = 3000 /\
                        (RoundManager.timeout_id t < RoundManager.next_timer st)%nat)
    (RoundManager.timers st) /\
  List.NoDup (List.map RoundManager.timeout_id (RoundManager.timers st)) /\
  (RoundManager.advance_calls st + List.length (RoundManager.timers st)
   <= RoundManager.next_timer st)%nat /\
  (RoundManager.in_flight st <= RoundManager.advance_calls st)%nat.
Proof. apply (run_inv evs), initial_inv. Qed.

(** As long as no call of [advanceToNextRound] has settled, at most one
    timeout is pending, and it is the one the ref holds: the cleanup of
    the effect can cancel it. *)
Theorem one_timeout_pending_until_settled (evs : list RoundManager.Event) :
  forallb (fun e => negb (settles e)) evs = true ->
  let st := RoundManager.run evs RoundManager.initial in
  (List.length (RoundManager.timers st) <= 1)%nat /\
  (forall t, In t (RoundManager.timers st) ->
     RoundManager.autoAdvanceTimeoutRef st = Some (RoundManager.timeout_id t)) /\
  RoundManager.timers (RoundManager.cleanup st) = [].
Proof.
  intros Hall st.
  assert (H : tracked st) by (apply run_tracked; [exact Hall|apply initial_inv]).
  split; [|split].
  - destruct H as [->|(t & -> & _)]; simpl; lia.
  - intros t Hin. destruct H as [H|(t' & H & Hr)]; rewrite H in Hin;
      [contradiction|]. destruct Hin as [<-|[]]. exact Hr.
  - apply (cleanup_stopped st H).
Qed.

Lemma one_timeout_pending_until_settled_example :
  (List.length
     (RoundManager.timers
        (RoundManager.run
           [ RoundManager.Render (Some Clock.game) [Sample.round1] true 1061000;
             RoundManager.Tick 1062000;
             RoundManager.Render (Some Clock.game) [Sample.round1] true 1062500 ]
           RoundManager.initial)) <= 1)%nat.
Proof.
  apply (one_timeout_pending_until_settled
           [ RoundManager.Render (Some Clock.game) [Sample.round1] true 1061000;
             RoundManager.Tick 1062000;
             RoundManager.Render (Some Clock.game) [Sample.round1] true 1062500 ]).
  reflexivity.
Defined.

(** When the component goes away before any call has settled, the
    pending timeout is cancelled with the interval, and however much
    time passes afterwards no call of [advanceToNextRound] is issued:
    the calls issued are those issued before. *)
Theorem unmount_cancels_pending_advance
    (evs later : list RoundManager.Event) :
  forallb (fun e => negb (settles e)) evs = true ->
  forallb passive later = true ->
  let before := RoundManager.run evs RoundManager.initial in
  let st := RoundManager.run (evs ++ RoundManager.Unmount :: later) RoundManager.initial in
  RoundManager.timers st = [] /\
  RoundManager.autoAdvanceTimeoutRef st = None /\
  RoundManager.countdownIntervalRef st = None /\
  RoundManager.advance_calls st = RoundManager.advance_calls before.
Proof.
  intros Hall Hlater before st.
  assert (H : tracked before) by (apply run_tracked; [exact Hall|apply initial_inv]).
  destruct (cleanup_stopped before H) as (Hs & _ & _ & Hc).
  assert (E : st = RoundManager.cleanup before).
  { unfold st, RoundManager.run. rewrite List.fold_left_app. simpl.
    now apply stopped_run. }
  rewrite E. destruct Hs as (H1 & H2 & H3). auto.
Qed.

Lemma unmount_cancels_pending_advance_example :
  RoundManager.advance_calls
    (RoundManager.run
       [ RoundManager.Render (Some Clock.game) [Sample.round1] true 1061000;
         RoundManager.Tick 1062000; RoundManager.TimeoutFires 0;
         RoundManager.Tick 1065000 ]
       RoundManager.initial) = 1%nat /\
  RoundManager.advance_calls
    (RoundManager.run
       [ RoundManager.Render (Some Clock.game) [Sample.round1] true 1061000;
         RoundManager.Unmount;
         RoundManager.Tick 1062000; RoundManager.TimeoutFires 0;
         RoundManager.Tick 1065000 ]
       RoundManager.initial) = 0%nat.
Proof.
  split; [reflexivity|].
  destruct (unmount_cancels_pending_advance
              [ RoundManager.Render (Some Clock.game) [Sample.round1] true 1061000 ]
              [ RoundManager.Tick 1062000; RoundManager.TimeoutFires 0;
                RoundManager.Tick 1065000 ] eq_refl eq_refl) as (_ & _ & _ & H).
  exact H.
Defined.

(** When the effect runs, before any call has settled, with no game, a
    game that is not live, no current round or a current round that is
    not active, the timer is switched off: the pending timeout and the
    interval are cancelled, the time shown is 0 and the message of the
    automatic advance is hidden; time passing afterwards issues no
    call. *)
Theorem render_without_active_round_stops_timer
    (evs later : list RoundManager.Event)
    (game : option Game) (rounds : list Round) (isAdmin : bool) (now : Z) :
  forallb (fun e => negb (settles e)) evs = true ->
  forallb passive later = true ->
  counted_round game rounds = None ->
  let before := RoundManager.run evs RoundManager.initial in
  let st := RoundManager.run
              (evs ++ RoundManager.Render game rounds isAdmin now :: later)
              RoundManager.initial in
  RoundManager.timers st = [] /\
  RoundManager.autoAdvanceTimeoutRef st = None /\
  RoundManager.countdownIntervalRef st = None /\
  RoundManager.timeRemaining st = 0 /\
  RoundManager.autoAdvancing st = false /\
  RoundManager.advance_calls st = RoundManager.advance_calls before.
Proof.
  intros Hall Hlater Hnone before st.
  assert (H : tracked before) by (apply run_tracked; [exact Hall|apply initial_inv]).
  destruct (cleanup_stopped before H) as ((H1 & H2 & H3) & _ & _ & Hc).
  set (off := RoundManager.step before (RoundManager.Render game rounds isAdmin now)).
  assert (Hoff : off =
            RoundManager.setTimeRemaining 0
              (RoundManager.setAutoAdvancing false (RoundManager.cleanup before))).
  { unfold off, RoundManager.step. rewrite timerEffect_not_counted by exact Hnone.
    unfold RoundManager.no_active_round, RoundManager.clearCountdown.
    rewrite H3. unfold RoundManager.clearAutoAdvanceTimeout. simpl. now rewrite H2. }
  assert (Hs : stopped off) by (rewrite Hoff; unfold stopped; simpl; auto).
  assert (E : st = off).
  { unfold st, RoundManager.run. rewrite List.fold_left_app. simpl.
    now apply stopped_run. }
  rewrite E. destruct Hs as (S1 & S2 & S3). rewrite Hoff in *. simpl in *. auto 10.
Qed.

Lemma render_without_active_round_stops_timer_example :
  RoundManager.advance_calls
    (RoundManager.run
       [ RoundManager.Render (Some Clock.game) [Sample.round1] true 1061000;
         RoundManager.Render (Some Clock.game) [] true 1062000;
         RoundManager.TimeoutFires 0; RoundManager.Tick 1065000 ]
       RoundManager.initial) = 0%nat.
Proof.
  destruct (render_without_active_round_stops_timer
              [ RoundManager.Render (Some Clock.game) [Sample.round1] true 1061000 ]
              [ RoundManager.TimeoutFires 0; RoundManager.Tick 1065000 ]
              (Some Clock.game) [] true 1062000 eq_refl eq_refl eq_refl)
    as (_ & _ & _ & _ & _ & H).
  exact H.
Defined.

(** The remaining time of a round never grows as the clock moves on;
    once it has reached 0 it stays 0; and from the start of the round on
    it is at most the duration of the round. *)
Theorem remaining_time_never_grows (r : Round) (now now' : Z) :
  now <= now' ->
  RoundManager.calculateTimeRemaining r now' <= RoundManager.calculateTimeRemaining r now /\
  (RoundManager.calculateTimeRemaining r now = 0 ->
   RoundManager.calculateTimeRemaining r now' = 0) /\
  (forall start, actual_start_time r = TimeMs start -> start <= now ->
     RoundManager.calculateTimeRemaining r now
     <= 60 * Z.max 0 (Js.or_default (duration_minutes r) 0)).
Proof.
  intros Hle.
  assert (Hmono : RoundManager.calculateTimeRemaining r now'
                  <= RoundManager.calculateTimeRemaining r now).
  { unfold RoundManager.calculateTimeRemaining.
    destruct (actual_start_time r) as [| |s]; try lia.
    destruct (_ <=? 0); [lia|]. apply Z.div_le_mono; lia. }
  split; [exact Hmono|]. split.
  - pose proof (calculateTimeRemaining_nonneg r now'). lia.
  - intros s Hs Hstart. unfold RoundManager.calculateTimeRemaining. rewrite Hs.
    set (d := Js.or_default (duration_minutes r) 0).
    destruct (Z.leb_spec (d * 60 * 1000) 0); [lia|].
    apply Z.div_le_upper_bound; lia.
Qed.

Lemma remaining_time_never_grows_example :
  RoundManager.calculateTimeRemaining Sample.round1 1030500 = 29 /\
  RoundManager.calculateTimeRemaining Sample.round1 1059001 = 0 /\
  RoundManager.calculateTimeRemaining Sample.round1 1059001
  <= RoundManager.calculateTimeRemaining Sample.round1 1030500.
Proof.
  split; [reflexivity|]. split; [reflexivity|].
  apply (remaining_time_never_grows Sample.round1 1030500 1059001). lia.
Defined.

(** ** The round manager as rendered *)

(** The manual advance: a click on the button "Advance to Next Round"
    calls [advanceToNextRound] exactly when the viewer is an
    administrator, the game is live and not in its last round, no
    advance is under way and the current round is not active.  In
    particular nobody can advance by hand while a round is running, and
    there is no button in the last round. *)
Theorem manual_advance_only_between_rounds (v : RoundManagerView.View) :
  RoundManagerView.clickAdvance v = true <->
  RoundManagerView.isAdmin v = true /\
  status (RoundManagerView.game v) = Live /\
  current_round_number (RoundManagerView.game v) < total_rounds (RoundManagerView.game v) /\
  RoundManagerView.advancing v = false /\
  (forall r, RoundManagerView.currentRound v = Some r -> round_status r <> Active).
Proof.
  unfold RoundManagerView.clickAdvance, RoundManagerView.advanceButton,
    RoundManagerView.canAdvance, RoundManagerView.isRoundActive.
  destruct (RoundManagerView.isAdmin v); simpl;
    [|split; [discriminate|intros (H & _); discriminate]].
  destruct (status_eqb (status (RoundManagerView.game v)) Live) eqn:Hs; simpl.
  - apply status_eqb_eq in Hs.
    destruct (Z.ltb_spec (current_round_number (RoundManagerView.game v))
                         (total_rounds (RoundManagerView.game v))) as [Hlt|Hge]; simpl.
    + destruct (RoundManagerView.advancing v); simpl;
        [split; [discriminate|intros (_ & _ & _ & H & _); discriminate]|].
      destruct (RoundManagerView.currentRound v) as [r|].
      * destruct (round_status_eqb (round_status r) Active) eqn:Hr.
        -- apply round_status_eqb_eq in Hr. split; [discriminate|].
           intros (_ & _ & _ & _ & H). now destruct (H r eq_refl).
        -- split; [|reflexivity]. intros _. repeat split; try assumption.
           intros r' [= <-] Ha. apply round_status_eqb_eq in Ha. congruence.
      * split; [|reflexivity]. intros _. repeat split; try assumption. discriminate.
    + split; [discriminate|]. intros (_ & _ & H' & _). lia.
  - split; [discriminate|]. intros (_ & H & _). apply status_eqb_eq in H. congruence.
Qed.

(** The four status panels under the header (the countdown, the message
    of the automatic advance, "waiting for admin" and "round not
    active") are never shown two at a time; for a live game exactly one
    of them is shown; and for a game that is not live none is shown
    unless its current round is active or the automatic advance is
    announced. *)
Theorem status_panels_exclusive (v : RoundManagerView.View) :
  let p := RoundManagerView.panels v in
  let shown :=
    (Nat.b2n (RoundManagerView.liveTimer p)
     + Nat.b2n (RoundManagerView.autoAdvancingMessage p)
     + Nat.b2n (RoundManagerView.waitingForAdmin p)
     + Nat.b2n (RoundManagerView.roundNotActive p))%nat in
  (shown <= 1)%nat /\
  (status (RoundManagerView.game v) = Live -> shown = 1%nat) /\
  (status (RoundManagerView.game v) <> Live ->
   RoundManagerView.isRoundActive v = false ->
   RoundManagerView.autoAdvancing v = false -> shown = 0%nat).
Proof.
  cbv zeta. unfold RoundManagerView.panels. simpl.
  destruct (status_eqb (status (RoundManagerView.game v)) Live) eqn:Hs.
  - destruct (RoundManagerView.isRoundActive v), (RoundManagerView.autoAdvancing v),
      (RoundManagerView.timeRemaining v =? 0), (RoundManagerView.isAdmin v); simpl;
      (split; [lia|split; [reflexivity|]]);
      intros H; apply status_eqb_eq in Hs; congruence.
  - assert (Hn : status (RoundManagerView.game v) <> Live).
    { intros H. apply status_eqb_eq in H. congruence. }
    destruct (RoundManagerView.isRoundActive v), (RoundManagerView.autoAdvancing v),
      (RoundManagerView.timeRemaining v =? 0), (RoundManagerView.isAdmin v); simpl;
      (split; [lia|split; [intros H; contradiction|]]);
      intros _ Ha Hb; try discriminate; reflexivity.
Qed.

(** ** The editor of a game, continued *)

Section EditorProofs.

Import GameEditor.

Lemma find_ext_in {A} (f g : A -> bool) (l : list A) :
  (forall x, In x l -> f x = g x) -> List.find f l = List.find g l.
Proof.
  induction l as [|x l IH]; intros H; [reflexivity|]. simpl.
  rewrite (H x) by (left; reflexivity).
  destruct (g x); [reflexivity|]. apply IH. intros y Hy. apply H. now right.
Qed.

Lemma find_app_none {A} (f : A -> bool) (l l' : list A) :
  List.find f l' = None -> List.find f (l ++ l') = List.find f l.
Proof.
  intros H. induction l as [|x l IH]; [exact H|]. simpl. now destruct (f x).
Qed.

Lemma find_app_some {A} (f : A -> bool) (l l' : list A) (x : A) :
  List.find f l = Some x -> List.find f (l ++ l') = Some x.
Proof.
  intros H. induction l as [|y l IH]; [discriminate|]. simpl in *.
  destruct (f y); [exact H|now apply IH].
Qed.

Lemma find_app_new {A} (f : A -> bool) (l : list A) (x : A) :
  List.find f l = None -> f x = true -> List.find f (l ++ [x]) = Some x.
Proof.
  intros Hn Hx. induction l as [|y l IH]; simpl; [now rewrite Hx|].
  simpl in Hn. destruct (f y); [discriminate|]. now apply IH.
Qed.

Lemma find_set_price_other sym sym' price l :
  sym' <> sym ->
  List.find (fun p => String.eqb (fst p) sym') (set_price sym price l) =
  List.find (fun p => String.eqb (fst p) sym') l.
Proof.
  intros Hne. induction l as [|p l IH]; [reflexivity|]. simpl.
  destruct (String.eqb_spec (fst p) sym) as [E|E]; simpl.
  - destruct (String.eqb_spec (fst p) sym'); [congruence|reflexivity].
  - now rewrite IH.
Qed.

Lemma entered_price_change_other st n sym price sym' n' :
  sym' <> sym \/ n' <> n ->
  entered_price (handlePriceChange n sym (Some price) st) sym' n' =
  entered_price st sym' n'.
Proof.
  intros H. unfold entered_price, handlePriceChange. simpl.
  destruct (Z.eq_dec n' n) as [->|Hn]; [|now rewrite lookup_insert_ne].
  destruct H as [Hs|Hn]; [|congruence].
  rewrite lookup_insert_eq. simpl. f_equal.
  destruct (existsb _ _).
  - now apply find_set_price_other.
  - apply find_app_none. simpl.
    destruct (String.eqb_spec sym sym'); [congruence|reflexivity].
Qed.

(** The price matrix after [handleAddStock]. *)
Lemma add_prices_lookup (entry : string * Q) ns :
  forall (m : gmap Z (list (string * Q))) n,
  List.NoDup ns ->
  List.fold_left
    (fun m i => <[ i := (default [] (m !! i) ++ [entry])%list ]> m) ns m !! n =
  if existsb (Z.eqb n) ns then Some (default [] (m !! n) ++ [entry])%list else m !! n.
Proof.
  induction ns as [|i ns IH]; intros m n Hnd; [reflexivity|].
  apply List.NoDup_cons_iff in Hnd as (Hi & Hnd). simpl. rewrite IH by exact Hnd.
  destruct (Z.eqb_spec n i) as [->|Hne]; simpl.
  - rewrite lookup_insert_eq.
    destruct (existsb (Z.eqb i) ns) eqn:E; [|reflexivity].
    apply List.existsb_exists in E as (j & Hj & E). apply Z.eqb_eq in E. now subst.
  - now rewrite lookup_insert_ne by congruence.
Qed.

Lemma initial_or_zero_stocks st st' sym :
  stocks st' = stocks st -> initial_or_zero st' sym = initial_or_zero st sym.
Proof. unfold initial_or_zero. now intros ->. Qed.

Lemma getPriceForRound_ext st st' sym n :
  entered_price st' sym n = entered_price st sym n ->
  initial_or_zero st' sym = initial_or_zero st sym ->
  getPriceForRound st' sym n = getPriceForRound st sym n.
Proof. unfold getPriceForRound. now intros -> ->. Qed.

End EditorProofs.

(** A price typed into the matrix: a price that is not zero, negative
    ones included, becomes the price of that stock in that round; a zero
    leaves the stock at its initial price; the price of every other
    stock or round is unchanged, and so is the list of stocks; and a
    text that is not a number changes nothing. *)
Theorem typed_price_read_back
    (st : GameEditor.State) (roundNum : Z) (sym : string) (price : Q) :
  let st' := GameEditor.handlePriceChange roundNum sym (Some price) st in
  (~ (price == 0)%Q -> GameEditor.getPriceForRound st' sym roundNum = price) /\
  ((price == 0)%Q ->
   GameEditor.getPriceForRound st' sym roundNum = GameEditor.initial_or_zero st sym) /\
  (forall sym' n, sym' <> sym \/ n <> roundNum ->
     GameEditor.getPriceForRound st' sym' n = GameEditor.getPriceForRound st sym' n) /\
  GameEditor.stocks st' = GameEditor.stocks st /\
  GameEditor.handlePriceChange roundNum sym None st = st.
Proof.
  cbv zeta.
  assert (Hp : GameEditor.getPriceForRound
                 (GameEditor.handlePriceChange roundNum sym (Some price) st) sym roundNum =
               if Js.q_truthy price then price else GameEditor.initial_or_zero st sym).
  { unfold GameEditor.getPriceForRound. now rewrite entered_price_after_change. }
  split; [|split; [|split; [|split; reflexivity]]].
  - intros Hnz. rewrite Hp. destruct (Js.q_truthy price) eqn:E; [reflexivity|].
    now apply q_falsy_zero in E.
  - intros Hz. rewrite Hp. destruct (Js.q_truthy price) eqn:E; [|reflexivity].
    unfold Js.q_truthy in E. unfold Qeq in Hz. simpl in Hz.
    destruct (Z.eqb_spec (Qnum price) 0); [discriminate|lia].
  - intros sym' n H. apply getPriceForRound_ext; [|reflexivity].
    now apply entered_price_change_other.
Qed.

(** A stock added to the form: the handler accepts it only with a
    positive price, appends it under its symbol in capitals, and, when
    no price was entered for that symbol before, the stock is priced at
    the given price in every round; the prices of the other symbols are
    unchanged. *)
Theorem added_stock_priced_in_every_round
    (newStockSymbol newStockName newStockPrice : string) (price : Q)
    (st st' : GameEditor.State) :
  GameEditor.handleAddStock newStockSymbol newStockName newStockPrice (Some price) st
    = Some st' ->
  (forall n, GameEditor.entered_price st (Js.toUpperCase newStockSymbol) n = None) ->
  (0 < price)%Q /\
  GameEditor.stocks st' =
    (GameEditor.stocks st ++
     [ {| stock_game_id := 0; symbol := Js.toUpperCase newStockSymbol;
          display_name := newStockName; initial_price := price;
          current_price := None |} ])%list /\
  (forall n, GameEditor.getPriceForRound st' (Js.toUpperCase newStockSymbol) n = price) /\
  (forall sym' n, sym' <> Js.toUpperCase newStockSymbol ->
     GameEditor.getPriceForRound st' sym' n = GameEditor.getPriceForRound st sym' n).
Proof.
  unfold GameEditor.handleAddStock. intros H Hnone.
  destruct (_ || _); [discriminate|].
  destruct (Qle_bool price 0) eqn:Hle; [discriminate|].
  destruct (List.find _ (GameEditor.stocks st)) eqn:Hf; [discriminate|].
  injection H as <-.
  assert (Hpos : (0 < price)%Q).
  { apply Qnot_le_lt. intros Hq. apply Qle_bool_iff in Hq. congruence. }
  set (SYM := Js.toUpperCase newStockSymbol) in *.
  set (newStock := {| stock_game_id := 0; symbol := SYM; display_name := newStockName;
                      initial_price := price; current_price := None |}).
  assert (Hfresh : List.find (fun s => String.eqb (symbol s) SYM) (GameEditor.stocks st)
                   = None).
  { destruct (List.find (fun s => String.eqb (symbol s) SYM) _) as [s|] eqn:E;
      [|reflexivity].
    apply List.find_some in E as (Hin & E). apply String.eqb_eq in E.
    apply (List.find_none _ _ Hf) in Hin. unfold SYM in E.
    rewrite E, toUpperCase_idem, String.eqb_refl in Hin. discriminate. }
  assert (Hentered : forall sym n,
    GameEditor.entered_price
      (GameEditor.set_stocks_prices (GameEditor.stocks st ++ [newStock])
         (List.fold_left
            (fun m i => <[ i := (default [] (m !! i) ++ [(symbol newStock, price)])%list ]> m)
            (GameEditor.upto (GameEditor.totalRounds st)) (GameEditor.priceMatrix st)) st)
      sym n =
    if existsb (Z.eqb n) (GameEditor.upto (GameEditor.totalRounds st))
       && String.eqb SYM sym
    then match GameEditor.entered_price st sym n with
         | Some p => Some p
         | None => Some price
         end
    else GameEditor.entered_price st sym n).
  { intros sym n. unfold GameEditor.entered_price. simpl.
    rewrite add_prices_lookup by apply upto_NoDup.
    destruct (existsb (Z.eqb n) _); simpl; [|reflexivity].
    destruct (String.eqb_spec SYM sym) as [<-|Hne].
    - destruct (List.find _ (default [] (GameEditor.priceMatrix st !! n))) as [p|] eqn:E.
      + now rewrite (find_app_some _ _ _ p E).
      + rewrite find_app_new; [reflexivity|exact E|apply String.eqb_refl].
    - f_equal. apply find_app_none. simpl.
      destruct (String.eqb_spec SYM sym); [congruence|reflexivity]. }
  split; [exact Hpos|]. split; [reflexivity|]. split.
  - intros n. unfold GameEditor.getPriceForRound. rewrite Hentered, (Hnone n).
    rewrite String.eqb_refl, andb_true_r.
    assert (Hi : GameEditor.initial_or_zero
                   (GameEditor.set_stocks_prices (GameEditor.stocks st ++ [newStock])
                      (List.fold_left
                         (fun m i =>
                            <[ i := (default [] (m !! i) ++ [(symbol newStock, price)])%list ]> m)
                         (GameEditor.upto (GameEditor.totalRounds st))
                         (GameEditor.priceMatrix st)) st) SYM = price).
    { unfold GameEditor.initial_or_zero. simpl.
      rewrite find_app_new by (exact Hfresh || apply String.eqb_refl).
      simpl. now rewrite q_truthy_pos. }
    destruct (existsb _ _); [now rewrite q_truthy_pos|exact Hi].
  - intros sym' n Hne. apply getPriceForRound_ext.
    + rewrite Hentered.
      destruct (String.eqb_spec SYM sym'); [congruence|]. now rewrite andb_false_r.
    + unfold GameEditor.initial_or_zero. simpl. rewrite find_app_none; [reflexivity|].
      simpl. destruct (String.eqb_spec SYM sym'); [congruence|reflexivity].
Qed.

Lemma added_stock_priced_in_every_round_example :
  match GameEditor.handleAddStock "abc" "ABC Corp" "12.5" (Some (25 # 2)%Q)
          GameEditor.newGame with
  | Some st' => GameEditor.getPriceForRound st' "ABC" 3 = (25 # 2)%Q
  | None => False
  end.
Proof.
  destruct (GameEditor.handleAddStock "abc" "ABC Corp" "12.5" (Some (25 # 2)%Q)
              GameEditor.newGame) as [st'|] eqn:E; [|discriminate E].
  refine (proj1 (proj2 (proj2
    (added_stock_priced_in_every_round "abc" "ABC Corp" "12.5" (25 # 2)%Q
       GameEditor.newGame st' E _))) 3).
  intros n. unfold GameEditor.entered_price. simpl. now rewrite lookup_empty.
Defined.

(** A stock removed from the form: no stock with that symbol is left,
    the symbol has no price any more in any round (it reads as 0), and
    the other stocks and their prices are unchanged. *)
Theorem removed_stock_gone (sym : string) (st : GameEditor.State) :
  let st' := GameEditor.handleRemoveStock sym st in
  (forall s, In s (GameEditor.stocks st') <->
             In s (GameEditor.stocks st) /\ symbol s <> sym) /\
  (forall n, GameEditor.entered_price st' sym n = None /\
             GameEditor.getPriceForRound st' sym n = 0%Q) /\
  (forall sym' n, sym' <> sym ->
     GameEditor.getPriceForRound st' sym' n = GameEditor.getPriceForRound st sym' n).
Proof.
  cbv zeta.
  assert (Hentered : forall sym' n,
    GameEditor.entered_price (GameEditor.handleRemoveStock sym st) sym' n =
    if String.eqb sym' sym then None else GameEditor.entered_price st sym' n).
  { intros sym' n. unfold GameEditor.entered_price, GameEditor.handleRemoveStock. simpl.
    rewrite lookup_fmap.
    destruct (GameEditor.priceMatrix st !! n) as [l|]; simpl;
      [|now destruct (String.eqb sym' sym)].
    rewrite find_filter.
    destruct (String.eqb_spec sym' sym) as [->|Hne].
    - replace (List.find _ l) with (@None (string * Q)); [reflexivity|].
      symmetry. induction l as [|p l IH]; [reflexivity|]. simpl.
      now destruct (String.eqb (fst p) sym).
    - f_equal. apply find_ext_in. intros p _.
      destruct (String.eqb_spec (fst p) sym'); [|apply andb_false_r].
      destruct (String.eqb_spec (fst p) sym); [congruence|reflexivity]. }
  assert (Hinitial : forall sym',
    GameEditor.initial_or_zero (GameEditor.handleRemoveStock sym st) sym' =
    if String.eqb sym' sym then 0%Q else GameEditor.initial_or_zero st sym').
  { intros sym'. unfold GameEditor.initial_or_zero, GameEditor.handleRemoveStock. simpl.
    rewrite find_filter.
    destruct (String.eqb_spec sym' sym) as [->|Hne].
    - replace (List.find _ (GameEditor.stocks st)) with (@None Stock); [reflexivity|].
      symmetry. induction (GameEditor.stocks st) as [|s l IH]; [reflexivity|]. simpl.
      now destruct (String.eqb (symbol s) sym).
    - replace (List.find (fun x => negb (String.eqb (symbol x) sym)
                                   && String.eqb (symbol x) sym') (GameEditor.stocks st))
        with (List.find (fun s => String.eqb (symbol s) sym') (GameEditor.stocks st));
        [reflexivity|].
      apply find_ext_in. intros s _.
      destruct (String.eqb_spec (symbol s) sym'); [|now rewrite andb_false_r].
      destruct (String.eqb_spec (symbol s) sym); [congruence|reflexivity]. }
  split; [|split].
  - intros s. unfold GameEditor.handleRemoveStock. simpl. rewrite List.filter_In.
    destruct (String.eqb_spec (symbol s) sym); simpl; intuition congruence.
  - intros n. unfold GameEditor.getPriceForRound.
    rewrite Hentered, Hinitial, String.eqb_refl. split; reflexivity.
  - intros sym' n Hne. unfold GameEditor.getPriceForRound.
    rewrite Hentered, Hinitial.
    now destruct (String.eqb_spec sym' sym); [congruence|].
Qed.

Section DurationProofs.

Import GameEditor GameEditorForm.

Lemma default_durations_lookup ns : forall (m : gmap Z Z) n,
  List.fold_left
    (fun m i => if Js.or_default (m !! i) 0 =? 0 then <[ i := 10 ]> m else m) ns m !! n =
  if existsb (Z.eqb n) ns && (Js.or_default (m !! n) 0 =? 0) then Some 10 else m !! n.
Proof.
  induction ns as [|i ns IH]; intros m n; [reflexivity|].
  simpl. rewrite IH.
  destruct (Z.eqb_spec n i) as [->|Hne]; simpl.
  - destruct (Js.or_default (m !! i) 0 =? 0) eqn:E.
    + rewrite lookup_insert_eq. now destruct (existsb _ ns).
    + rewrite E. now rewrite andb_false_r.
  - destruct (Js.or_default (m !! i) 0 =? 0); [|reflexivity].
    now rewrite lookup_insert_ne by congruence.
Qed.

Lemma existsb_upto n total : existsb (Z.eqb n) (upto total) = (1 <=? n) && (n <=? total).
Proof.
  destruct (existsb (Z.eqb n) (upto total)) eqn:E.
  - apply List.existsb_exists in E as (j & Hj & E). apply Z.eqb_eq in E. subst j.
    apply upto_spec in Hj. symmetry. apply andb_true_iff. split; apply Z.leb_le; lia.
  - symmetry. apply andb_false_iff.
    destruct (Z.leb_spec 1 n); [|now left]. destruct (Z.leb_spec n total); [|now right].
    assert (Hin : In n (upto total)) by (apply upto_spec; lia).
    assert (existsb (Z.eqb n) (upto total) = true)
      by (apply List.existsb_exists; exists n; split; [exact Hin|apply Z.eqb_refl]).
    congruence.
Qed.

Lemma syncRoundDurations_lookup st n :
  roundDurations (syncRoundDurations st) !! n =
  if totalRounds st <? n then None
  else if (1 <=? n) && (Js.or_default (roundDurations st !! n) 0 =? 0) then Some 10
  else roundDurations st !! n.
Proof.
  unfold syncRoundDurations. simpl.
  set (durations := List.fold_left _ _ _).
  assert (Hd : durations !! n =
               if (1 <=? n) && (n <=? totalRounds st)
                  && (Js.or_default (roundDurations st !! n) 0 =? 0)
               then Some 10 else roundDurations st !! n).
  { unfold durations. now rewrite default_durations_lookup, existsb_upto. }
  destruct (Z.ltb_spec (totalRounds st) n) as [Hgt|Hle].
  - apply map_lookup_filter_None. right. intros d _. simpl. lia.
  - assert (Hn : (n <=? totalRounds st) = true) by (apply Z.leb_le; lia).
    rewrite Hn, andb_true_r in Hd. rewrite <- Hd.
    destruct (durations !! n) as [d|] eqn:E.
    + apply map_lookup_filter_Some. split; [exact E|]. simpl. lia.
    + apply map_lookup_filter_None. now left.
Qed.

End DurationProofs.

(** The effect on the number of rounds: afterwards every round from 1
    to the number of rounds has a duration that is not zero, the one it
    had or else 10 minutes; no round above the number of rounds has one;
    and the rounds that would be saved are the same as before the effect,
    because saving applies the same default. *)
Theorem durations_follow_total_rounds (st : GameEditor.State) (gameId : Z) :
  let st' := GameEditorForm.syncRoundDurations st in
  (forall n, 1 <= n <= GameEditor.totalRounds st ->
     exists d, GameEditor.roundDurations st' !! n = Some d /\ d <> 0 /\
               d = Js.or_default (GameEditor.roundDurations st !! n) 10) /\
  (forall n, GameEditor.totalRounds st < n -> GameEditor.roundDurations st' !! n = None) /\
  GameEditor.roundsToCreate st' gameId = GameEditor.roundsToCreate st gameId.
Proof.
  cbv zeta.
  assert (Hin : forall n, 1 <= n <= GameEditor.totalRounds st ->
            exists d, GameEditor.roundDurations (GameEditorForm.syncRoundDurations st) !! n
                      = Some d /\ d <> 0 /\
                      d = Js.or_default (GameEditor.roundDurations st !! n) 10).
  { intros n Hn. rewrite syncRoundDurations_lookup.
    destruct (Z.ltb_spec (GameEditor.totalRounds st) n); [lia|].
    destruct (Z.leb_spec 1 n); [|lia]. simpl. unfold Js.or_default.
    destruct (GameEditor.roundDurations st !! n) as [d|]; simpl.
    - destruct (Z.eqb_spec d 0) as [->|Hd]; simpl.
      + exists 10. repeat split; lia.
      + destruct (Z.eqb_spec d 0); [lia|]. exists d. repeat split; lia.
    - exists 10. repeat split; lia. }
  split; [exact Hin|]. split.
  - intros n Hn. rewrite syncRoundDurations_lookup.
    destruct (Z.ltb_spec (GameEditor.totalRounds st) n); [reflexivity|lia].
  - unfold GameEditor.roundsToCreate.
    change (GameEditor.totalRounds (GameEditorForm.syncRoundDurations st))
      with (GameEditor.totalRounds st).
    apply List.map_ext_in. intros n Hn. apply upto_spec in Hn.
    destruct (Hin n Hn) as (d & -> & Hd & ->). f_equal. f_equal.
    unfold Js.or_default. simpl.
    destruct (GameEditor.roundDurations st !! n) as [d|]; simpl; [|reflexivity].
    destruct (Z.eqb_spec d 0); simpl; [reflexivity|].
    now destruct (Z.eqb_spec d 0).
Qed.

(** The duration typed for a round is stored as a number that is at
    least 1: the number read, if it is at least 1; 10 when the text is
    not a number or reads as 0; and 1 when it reads as a negative number.
    There is no upper limit, and the other rounds keep their
    durations. *)
Theorem typed_duration_at_least_one
    (roundNum : Z) (value : string) (st : GameEditor.State) :
  let st' := GameEditorForm.onDurationChange roundNum value st in
  exists d,
    GameEditor.roundDurations st' !! roundNum = Some d /\
    1 <= d /\
    (forall n, Js.parseInt value = Some n -> 1 <= n -> d = n) /\
    (Js.parseInt value = None \/ Js.parseInt value = Some 0 -> d = 10) /\
    (forall n, Js.parseInt value = Some n -> n < 0 -> d = 1) /\
    (forall r, r <> roundNum ->
       GameEditor.roundDurations st' !! r = GameEditor.roundDurations st !! r).
Proof.
  cbv zeta. unfold GameEditorForm.onDurationChange. simpl.
  eexists. split; [apply lookup_insert_eq|]. unfold Js.or_default.
  split; [lia|]. split; [|split; [|split]].
  - intros n -> Hn. destruct (Z.eqb_spec n 0); lia.
  - intros [->| ->]; reflexivity.
  - intros n -> Hn. destruct (Z.eqb_spec n 0); lia.
  - intros r Hr. now rewrite lookup_insert_ne by congruence.
Qed.

(** ** Saving a new game *)

Section SavingNewGame.

Import GameEditor GameEditorForm.

Lemma writePrices_tables st gameId ns : forall db,
  games (writePrices st gameId ns db) = games db /\
  game_stocks (writePrices st gameId ns db) = game_stocks db /\
  game_rounds (writePrices st gameId ns db) = game_rounds db /\
  next_id (writePrices st gameId ns db) = next_id db.
Proof.
  induction ns as [|n ns IH]; intros db; [repeat split|].
  simpl. destruct (IH (gameApi.setRoundPrices db gameId n (pricesForRound st n)))
    as (H1 & H2 & H3 & H4).
  unfold writePrices in *. rewrite H1, H2, H3, H4. repeat split.
Qed.

Lemma getRoundPrices_set_other_game db gameId n prices other m :
  other <> gameId ->
  gameApi.getRoundPrices (gameApi.setRoundPrices db gameId n prices) other m =
  gameApi.getRoundPrices db other m.
Proof.
  intros Hne. unfold gameApi.getRoundPrices, gameApi.setRoundPrices. simpl.
  rewrite List.filter_app, (filter_none _ (List.map _ _)), app_nil_r.
  - rewrite <- filter_andb. apply List.filter_ext. intros p.
    unfold gameApi.is_price_of.
    destruct (Z.eqb_spec (price_game_id p) other), (Z.eqb_spec (price_game_id p) gameId);
      simpl; rewrite ?andb_false_r; try reflexivity; congruence.
  - intros p Hp. apply List.in_map_iff in Hp as (sp & <- & _).
    unfold gameApi.is_price_of. simpl.
    destruct (Z.eqb_spec gameId other); [congruence|reflexivity].
Qed.

Lemma writePrices_other_game st gameId ns other m : forall db,
  other <> gameId ->
  gameApi.getRoundPrices (writePrices st gameId ns db) other m =
  gameApi.getRoundPrices db other m.
Proof.
  induction ns as [|n ns IH]; intros db Hne; [reflexivity|].
  simpl. rewrite IH by exact Hne.
  now apply getRoundPrices_set_other_game.
Qed.

Lemma addStocks_tables gameId l : forall db,
  let db' := List.fold_left (fun d stock => gameApi.addStockToGame d gameId stock) l db in
  games db' = games db /\
  game_stocks db' = (game_stocks db ++ List.map (stored_stock gameId) l)%list /\
  game_rounds db' = game_rounds db /\
  round_prices db' = round_prices db /\
  next_id db' = next_id db.
Proof.
  induction l as [|s l IH]; intros db; simpl.
  - rewrite app_nil_r. repeat split.
  - destruct (IH (gameApi.addStockToGame db gameId s)) as (H1 & H2 & H3 & H4 & H5).
    rewrite H1, H2, H3, H4, H5. simpl. rewrite <- List.app_assoc. repeat split.
Qed.

Lemma storedId_new st : game st = None -> storedId st = None.
Proof. intros H. unfold storedId. now rewrite H. Qed.

Lemma storedId_opened st g : game st = Some g -> id g <> 0 -> storedId st = Some (id g).
Proof.
  intros H Hid. unfold storedId. rewrite H.
  destruct (Z.eqb_spec (id g) 0); [contradiction|reflexivity].
Qed.



Lemma handleSave_existing st userId db i gameId db' :
  storedId st = Some i ->
  handleSave st userId db = Saved gameId db' ->
  gameId = i /\
  (exists g, List.filter (fun g => id g =? i) (games db) = [g]) /\
  game_stocks db' = game_stocks db /\
  exists db0, db' = writePrices st i (upto (totalRounds st)) db0.
Proof.
  intros Hg. unfold handleSave. rewrite Hg.
  destruct (negb _); [discriminate|].
  destruct (_ =? _)%nat; [discriminate|].
  destruct (_ <? _); [discriminate|].
  cbv beta iota zeta. unfold gameApi.updateGame.
  destruct (List.filter (fun g => id g =? i) (games db)) as [|g [|g' l]];
    [discriminate| |discriminate].
  cbn [fmap option_fmap option_map].
  match goal with
  | |- Saved _ (List.fold_left _ ?ns ?d0) = _ -> _ =>
      pose proof (writePrices_tables st i ns d0) as (_ & W2 & _)
  end.
  unfold writePrices in W2.
  intros [= <- <-]. split; [reflexivity|]. split; [eauto|].
  split; [rewrite W2; reflexivity|]. eexists. reflexivity.
Qed.

Lemma handleSave_new st userId db gameId db' :
  storedId st = None ->
  handleSave st userId db = Saved gameId db' ->
  gameId = next_id db /\
  Js.trim (title st) <> "" /\ stocks st <> [] /\ 1 <= totalRounds st /\
  games db' = (games db ++ [stored_game st userId gameId])%list /\
  game_stocks db' = (game_stocks db ++ List.map (stored_stock gameId) (stocks st))%list /\
  game_rounds db' = (game_rounds db ++ roundsToCreate st gameId)%list /\
  (forall other m, other <> gameId ->
     gameApi.getRoundPrices db' other m = gameApi.getRoundPrices db other m).
Proof.
  intros Hg. unfold handleSave. rewrite Hg.
  destruct (Js.trim (title st)) as [|c t] eqn:Ht; [discriminate|]. simpl.
  destruct (List.length (stocks st) =? 0)%nat eqn:Hlen; [discriminate|].
  assert (Hs : stocks st <> []) by (intros E; rewrite E in Hlen; discriminate).
  destruct (Z.ltb_spec (totalRounds st) 1) as [|Hn]; [discriminate|].
  unfold gameApi.createGame. cbv beta iota zeta.
  match goal with
  | |- Saved _ (List.fold_left _ ?ns (gameApi.createRounds (List.fold_left _ ?sl ?d0) ?rs))
       = _ -> _ =>
      pose proof (writePrices_tables st (next_id db) ns
                    (gameApi.createRounds
                       (List.fold_left
                          (fun d stock => gameApi.addStockToGame d (next_id db) stock)
                          sl d0) rs)) as (W1 & W2 & W3 & _);
      pose proof (fun other m =>
                    writePrices_other_game st (next_id db) ns other m
                      (gameApi.createRounds
                         (List.fold_left
                            (fun d stock => gameApi.addStockToGame d (next_id db) stock)
                            sl d0) rs)) as WO;
      pose proof (addStocks_tables (next_id db) sl d0) as (A1 & A2 & A3 & A4 & _)
  end.
  unfold writePrices in W1, W2, W3, WO. cbv zeta in A1, A2, A3, A4.
  intros [= <- <-].
  split; [reflexivity|]. split; [discriminate|]. split; [exact Hs|].
  split; [exact Hn|].
  split; [|split; [|split]].
  - rewrite W1. unfold gameApi.createRounds. cbn [games]. now rewrite A1.
  - rewrite W2. unfold gameApi.createRounds. cbn [game_stocks]. now rewrite A2.
  - rewrite W3. unfold gameApi.createRounds. cbn [game_rounds]. now rewrite A3.
  - intros other m Hne. rewrite WO by exact Hne.
    unfold gameApi.getRoundPrices, gameApi.createRounds. cbn [round_prices].
    now rewrite A4.
Qed.

Lemma find_app_fresh {A} (f : A -> bool) (l : list A) (x : A) :
  (forall y, In y l -> f y = false) -> f x = true -> List.find f (l ++ [x]) = Some x.
Proof.
  intros Hn Hx. apply find_app_new; [|exact Hx].
  destruct (List.find f l) as [y|] eqn:E; [|reflexivity].
  apply List.find_some in E as (Hin & Hy). rewrite (Hn y Hin) in Hy. discriminate.
Qed.

Lemma handleSave_new_reads st userId db gameId db' :
  storedId st = None ->
  unused db (next_id db) ->
  handleSave st userId db = Saved gameId db' ->
  gameId = next_id db /\
  gameApi.getGameById db' gameId = Some (stored_game st userId gameId) /\
  gameApi.getStocks db' gameId = List.map (stored_stock gameId) (stocks st) /\
  gameApi.getRounds db' gameId = roundsToCreate st gameId /\
  (forall other, other <> gameId ->
     gameApi.getGameById db' other = gameApi.getGameById db other /\
     gameApi.getStocks db' other = gameApi.getStocks db other /\
     gameApi.getRounds db' other = gameApi.getRounds db other /\
     forall n, gameApi.getRoundPrices db' other n = gameApi.getRoundPrices db other n).
Proof.
  intros Hg (Ug & Us & Ur) Hsave.
  destruct (handleSave_new st userId db gameId db' Hg Hsave)
    as (-> & _ & _ & _ & Hgames & Hstocks & Hrounds & Hprices).
  split; [reflexivity|]. split; [|split; [|split]].
  - unfold gameApi.getGameById. rewrite Hgames.
    apply find_app_fresh; [|apply Z.eqb_refl].
    intros g Hin. apply Z.eqb_neq. now apply Ug.
  - unfold gameApi.getStocks. rewrite Hstocks, List.filter_app.
    rewrite filter_none, filter_all; [reflexivity| |].
    + intros s Hs. apply List.in_map_iff in Hs as (s0 & <- & _). apply Z.eqb_refl.
    + intros s Hs. apply Z.eqb_neq. now apply Us.
  - unfold gameApi.getRounds. rewrite Hrounds, List.filter_app.
    rewrite filter_none, filter_all; [reflexivity| |].
    + intros r Hr. unfold roundsToCreate in Hr.
      apply List.in_map_iff in Hr as (n & <- & _). apply Z.eqb_refl.
    + intros r Hr. apply Z.eqb_neq. now apply Ur.
  - intros other Hne. split; [|split; [|split]].
    + unfold gameApi.getGameById. rewrite Hgames. apply find_app_none. simpl.
      destruct (Z.eqb_spec (next_id db) other); [congruence|reflexivity].
    + unfold gameApi.getStocks. rewrite Hstocks, List.filter_app.
      rewrite (filter_none _ (List.map _ _)); [apply app_nil_r|].
      intros s Hs. apply List.in_map_iff in Hs as (s0 & <- & _). simpl.
      apply Z.eqb_neq. congruence.
    + unfold gameApi.getRounds. rewrite Hrounds, List.filter_app.
      rewrite (filter_none _ (roundsToCreate _ _)); [apply app_nil_r|].
      intros r Hr. unfold roundsToCreate in Hr.
      apply List.in_map_iff in Hr as (n & <- & _). simpl.
      apply Z.eqb_neq. congruence.
    + intros n. now apply Hprices.
Qed.

Lemma edited_frame st0 st :
  edited st0 st ->
  game st = game st0 /\ roundDurations st = roundDurations st0 /\
  (1 <= totalRounds st0 <= 20 -> 1 <= totalRounds st <= 20) /\
  (List.Forall listed_properly (stocks st0) -> List.Forall listed_properly (stocks st)).
Proof.
  intros He. induction He as [|st st' sym name text parsed _ IH Ha
                              |st sym _ IH|st n sym parsed _ IH|st value _ IH].
  - auto.
  - destruct IH as (H1 & H2 & H3 & H4). unfold handleAddStock in Ha.
    destruct (_ || _); [discriminate|].
    destruct parsed as [price|]; [|discriminate].
    destruct (Qle_bool price 0) eqn:Hle; [discriminate|].
    destruct (List.find _ (stocks st)); [discriminate|].
    injection Ha as <-. simpl. repeat split; try tauto.
    intros H0. apply List.Forall_app. split; [now apply H4|].
    constructor; [|constructor]. split; simpl.
    + apply Qnot_le_lt. intros Hq. apply Qle_bool_iff in Hq. congruence.
    + apply toUpperCase_idem.
  - destruct IH as (H1 & H2 & H3 & H4). simpl. repeat split; try tauto.
    intros H0. specialize (H4 H0). apply List.Forall_forall. intros s Hs.
    apply List.filter_In in Hs as (Hs & _). revert s Hs. now apply List.Forall_forall.
  - destruct IH as (H1 & H2 & H3 & H4). unfold handlePriceChange.
    destruct parsed; simpl; repeat split; tauto.
  - destruct IH as (H1 & H2 & H3 & H4). unfold onTotalRoundsChange.
    cbn [game roundDurations totalRounds stocks].
    split; [tauto|]. split; [tauto|]. split; [|tauto].
    intros _. unfold clampTotalRounds. lia.
Qed.

Lemma filled_well_formed st : filled st -> well_formed st.
Proof.
  intros Hf. induction Hf as [|st st' _ IH He|st value _ IH|st value _ IH
                              |st parsed _ IH|st checked _ IH
                              |st roundNum value _ IH|st _ IH].
  - unfold well_formed, newGame. cbn [game totalRounds roundDurations stocks].
    split; [reflexivity|]. split; [lia|].
    split; [|split; constructor].
    intros r d H. apply elem_of_list_to_map_2, list_elem_of_In in H.
    apply List.in_map_iff in H as (i & [= <- <-] & _). lia.
  - destruct IH as (H1 & H2 & H3 & H4 & H5).
    destruct (edited_frame st st' He) as (E1 & E2 & E3 & E4).
    unfold well_formed. rewrite E1, E2.
    split; [exact H1|]. split; [now apply E3|]. split; [exact H3|].
    split; [now apply (edited_distinct st)|now apply E4].
  - exact IH.
  - exact IH.
  - exact IH.
  - exact IH.
  - destruct IH as (H1 & H2 & H3 & H4 & H5). unfold well_formed. simpl.
    split; [exact H1|]. split; [exact H2|]. split; [|split; assumption].
    intros r d. unfold onDurationChange. simpl.
    destruct (Z.eq_dec r roundNum) as [->|Hne].
    + rewrite lookup_insert_eq. intros [= <-]. lia.
    + rewrite lookup_insert_ne by congruence. apply H3.
  - destruct IH as (H1 & H2 & H3 & H4 & H5). unfold well_formed.
    change (game (syncRoundDurations st)) with (game st).
    change (totalRounds (syncRoundDurations st)) with (totalRounds st).
    change (stocks (syncRoundDurations st)) with (stocks st).
    split; [exact H1|]. split; [exact H2|]. split; [|split; assumption].
    intros r d. rewrite syncRoundDurations_lookup.
    destruct (_ <? _); [discriminate|].
    destruct (_ && _); [intros [= <-]; lia|apply H3].
Qed.

End SavingNewGame.




(** A game whose row is gone from the store cannot be saved, and the
    save writes nothing. *)
Example save_of_deleted_game_fails :
  GameEditor.handleSave (GameEditorForm.openGame Reopened.db Reopened.game) 7
    Reopened.deleted = GameEditor.StoreError.
Proof. vm_compute. reflexivity. Qed.

(** Saving a new game for which the store holds nothing yet under the
    next identifier: the game is stored under that identifier as a draft
    in round 0, created by the user, with the fields of the form; the
    stocks stored for it are those of the form, in whatever order they
    are read; its rounds are the ones the form describes, in the order
    of their numbers; and reading any other game, its stocks, rounds and
    round prices gives what it gave before. *)
Theorem new_game_saved_as_draft
    (st : GameEditor.State) (userId : Z) (db : Db) (gameId : Z) (db' : Db) :
  GameEditor.game st = None ->
  unused db (next_id db) ->
  GameEditor.handleSave st userId db = GameEditor.Saved gameId db' ->
  gameId = next_id db /\
  gameApi.getGameById db' gameId =
    Some {| id := gameId; title := GameEditor.title st;
            description := GameEditor.description st; status := Draft;
            initial_cash := GameEditor.initialCash st;
            total_rounds := GameEditor.totalRounds st;
            allow_short := GameEditor.allowShort st;
            current_round_number := 0; created_by := userId |} /\
  Permutation (gameApi.getStocks db' gameId)
              (List.map (stored_stock gameId) (GameEditor.stocks st)) /\
  gameApi.getRounds db' gameId = GameEditor.roundsToCreate st gameId /\
  List.map round_number (gameApi.getRounds db' gameId) =
    GameEditor.upto (GameEditor.totalRounds st) /\
  (forall other, other <> gameId ->
     gameApi.getGameById db' other = gameApi.getGameById db other /\
     gameApi.getStocks db' other = gameApi.getStocks db other /\
     gameApi.getRounds db' other = gameApi.getRounds db other /\
     forall n, gameApi.getRoundPrices db' other n = gameApi.getRoundPrices db other n).
Proof.
  intros Hg Hu Hsave.
  destruct (handleSave_new_reads st userId db gameId db'
              (storedId_new st Hg) Hu Hsave) as (H1 & H2 & H3 & H4 & H5).
  split; [exact H1|]. split; [exact H2|]. split; [now rewrite H3|].
  split; [exact H4|]. split; [|exact H5].
  rewrite H4. unfold GameEditor.roundsToCreate. rewrite List.map_map. simpl.
  apply List.map_id.
Qed.

Lemma new_game_saved_as_draft_example :
  match GameEditor.handleSave Draft.editor 7 Draft.empty with
  | GameEditor.Saved gameId db' =>
      gameId = 1 /\
      Permutation (gameApi.getStocks db' gameId)
                  (List.map (stored_stock gameId) [Draft.X])
  | _ => False
  end.
Proof.
  destruct (GameEditor.handleSave Draft.editor 7 Draft.empty) as [gameId db'| |] eqn:E;
    [|discriminate E|discriminate E].
  assert (U : unused Draft.empty (next_id Draft.empty))
    by (repeat split; intros ? []).
  destruct (new_game_saved_as_draft Draft.editor 7 Draft.empty gameId db' eq_refl U E)
    as (H1 & _ & H2 & _).
  split; [exact H1|exact H2].
Defined.

(** A game saved from the form for a new game, however the form was
    filled in: it is a draft in round 0 with between 1 and 20 rounds;
    its rounds are numbered from 1 to that number, each pending and with
    a duration of at least one minute; and it has at least one stock,
    each with a positive initial price and a symbol in capitals, no two
    with the same symbol. *)
Theorem new_game_saved_well_formed
    (st : GameEditor.State) (userId : Z) (db : Db) (gameId : Z) (db' : Db) :
  filled st ->
  unused db (next_id db) ->
  GameEditor.handleSave st userId db = GameEditor.Saved gameId db' ->
  (exists g,
     gameApi.getGameById db' gameId = Some g /\
     status g = Draft /\ current_round_number g = 0 /\
     1 <= total_rounds g <= 20 /\
     List.map round_number (gameApi.getRounds db' gameId) =
       GameEditor.upto (total_rounds g)) /\
  List.Forall
    (fun r => round_status r = Pending /\
              exists d, duration_minutes r = Some d /\ 1 <= d)
    (gameApi.getRounds db' gameId) /\
  gameApi.getStocks db' gameId <> [] /\
  List.NoDup (List.map symbol (gameApi.getStocks db' gameId)) /\
  List.Forall listed_properly (gameApi.getStocks db' gameId).
Proof.
  intros Hf Hu Hsave.
  destruct (filled_well_formed st Hf) as (Hg & Hn & Hd & Hs & Hl).
  destruct (handleSave_new_reads st userId db gameId db' (storedId_new st Hg) Hu Hsave)
    as (_ & Hgame & Hstocks & Hrounds & _).
  destruct (handleSave_new st userId db gameId db' (storedId_new st Hg) Hsave)
    as (_ & _ & Hne & _).
  rewrite Hgame, Hstocks, Hrounds. split; [|split; [|split; [|split]]].
  - eexists. split; [reflexivity|]. simpl. repeat split; try lia.
    unfold GameEditor.roundsToCreate. rewrite List.map_map. simpl. apply List.map_id.
  - unfold GameEditor.roundsToCreate. apply List.Forall_forall. intros r Hr.
    apply List.in_map_iff in Hr as (n & <- & _). simpl. split; [reflexivity|].
    eexists. split; [reflexivity|]. unfold Js.or_default.
    destruct (GameEditor.roundDurations st !! n) as [d|] eqn:E; [|simpl; lia].
    specialize (Hd n d E). simpl. destruct (Z.eqb_spec d 0); lia.
  - destruct (GameEditor.stocks st); [contradiction|discriminate].
  - rewrite List.map_map. simpl. now apply symbols_distinct_NoDup.
  - apply List.Forall_forall. intros s Hin.
    apply List.in_map_iff in Hin as (s0 & <- & Hin).
    apply (proj1 (List.Forall_forall _ _) Hl s0 Hin).
Qed.

Lemma new_game_saved_well_formed_example :
  match GameEditor.handleSave NewForm.form 7 Draft.empty with
  | GameEditor.Saved gameId db' =>
      List.Forall
        (fun r => round_status r = Pending /\
                  exists d, duration_minutes r = Some d /\ 1 <= d)
        (gameApi.getRounds db' gameId)
  | GameEditor.Failed _ => False
  | GameEditor.StoreError => False
  end.
Proof.
  assert (Hf : filled NewForm.form).
  { apply (filled_edit NewForm.titled).
    - apply filled_title, filled_new.
    - apply (GameEditor.edited_add _ NewForm.titled NewForm.form
               "abc" "ABC Corp" "12.5" (Some (25 # 2)%Q)); [constructor|].
      vm_compute. reflexivity. }
  assert (U : unused Draft.empty (next_id Draft.empty))
    by (repeat split; intros ? []).
  destruct (GameEditor.handleSave NewForm.form 7 Draft.empty) as [gameId db'| |] eqn:E.
  - exact (proj1 (proj2 (new_game_saved_well_formed NewForm.form 7 Draft.empty
                           gameId db' Hf U E))).
  - vm_compute in E. discriminate E.
  - vm_compute in E. discriminate E.
Defined.

(** ** Saving a stored game again *)

Section SavingAgain.

Import GameEditor GameEditorForm.

Lemma empty_prices_lookup (rounds : list Round) :
  forall (m : gmap Z (list (string * Q))) n l,
  (forall l, m !! n = Some l -> l = []) ->
  List.fold_left (fun m r => <[ round_number r := [] ]> m) rounds m !! n = Some l ->
  l = [].
Proof.
  induction rounds as [|r rounds IH]; intros m n l Hm; [apply Hm|].
  simpl. apply IH. intros l'.
  destruct (Z.eq_dec (round_number r) n) as [->|Hne].
  - rewrite lookup_insert_eq. now intros [= <-].
  - rewrite lookup_insert_ne by congruence. apply Hm.
Qed.

End SavingAgain.

(** A stored game opened in the editor and saved as it is: the editor
    does not read the prices of the rounds, so the save replaces the
    prices of every round from 1 to the number of rounds by the initial
    prices of the stocks, whatever prices the store held for them. *)
Theorem reopened_game_saved_at_initial_prices
    (db : Db) (g : Game) (userId gameId : Z) (db' : Db) :
  id g <> 0 ->
  List.NoDup (List.map symbol (gameApi.getStocks db (id g))) ->
  GameEditor.handleSave (GameEditorForm.openGame db g) userId db
    = GameEditor.Saved gameId db' ->
  gameId = id g /\
  forall n, 1 <= n <= Js.or_default (Some (total_rounds g)) 5 ->
    gameApi.getRoundPrices db' gameId n =
    List.map
      (fun stock =>
         {| price_game_id := gameId; price_round_number := n;
            price_symbol := symbol stock;
            price := if Js.q_truthy (initial_price stock)
                     then initial_price stock else 0%Q |})
      (match gameApi.getGameById db (id g) with
       | Some _ => gameApi.getStocks db (id g)
       | None => []
       end).
Proof.
  intros Hid Hnd Hsave.
  set (st := GameEditorForm.openGame db g) in *.
  assert (Hgame : GameEditor.game st = Some g).
  { unfold st, GameEditorForm.openGame.
    destruct (id g =? 0); [reflexivity|].
    now destruct (gameApi2.getGame db (id g)) as [[[? ?] ?]|]. }
  assert (Htotal : GameEditor.totalRounds st = Js.or_default (Some (total_rounds g)) 5).
  { unfold st, GameEditorForm.openGame.
    destruct (id g =? 0); [reflexivity|].
    now destruct (gameApi2.getGame db (id g)) as [[[? ?] ?]|]. }
  assert (Hstocks : GameEditor.stocks st =
                    match gameApi.getGameById db (id g) with
                    | Some _ => gameApi.getStocks db (id g)
                    | None => []
                    end).
  { unfold st, GameEditorForm.openGame, gameApi2.getGame.
    destruct (Z.eqb_spec (id g) 0); [contradiction|].
    now destruct (gameApi.getGameById db (id g)). }
  assert (Hentered : forall sym n, GameEditor.entered_price st sym n = None).
  { intros sym n. unfold GameEditor.entered_price.
    assert (Hl : forall l, GameEditor.priceMatrix st !! n = Some l -> l = []).
    { unfold st, GameEditorForm.openGame.
      destruct (id g =? 0); [simpl; now rewrite lookup_empty|].
      destruct (gameApi2.getGame db (id g)) as [[[g0 listed] rounds]|];
        [|simpl; now rewrite lookup_empty].
      simpl. intros l. apply empty_prices_lookup. now rewrite lookup_empty. }
    destruct (GameEditor.priceMatrix st !! n) as [l|]; [|reflexivity].
    now rewrite (Hl l eq_refl). }
  destruct (handleSave_existing st userId db (id g) gameId db'
              (storedId_opened st g Hgame Hid) Hsave)
    as (-> & _ & _ & db0 & ->).
  split; [reflexivity|]. intros n Hn.
  rewrite writePrices_rows; [|apply upto_NoDup|apply upto_spec; now rewrite Htotal].
  rewrite <- Hstocks. apply List.map_ext_in. intros stock Hin.
  unfold row. f_equal. unfold GameEditor.getPriceForRound. rewrite Hentered.
  unfold GameEditor.initial_or_zero.
  assert (Hnd' : List.NoDup (List.map symbol (GameEditor.stocks st))).
  { rewrite Hstocks. destruct (gameApi.getGameById db (id g)); [exact Hnd|constructor]. }
  now destruct (filter_symbol_unique _ stock Hnd' Hin) as (_ & ->).
Qed.

Lemma reopened_game_saved_at_initial_prices_example :
  match GameEditor.handleSave (GameEditorForm.openGame (Stale.db 2) Missing.game) 7
          (Stale.db 2) with
  | GameEditor.Saved gameId db' =>
      gameApi.getRoundPrices (Stale.db 2) 1 2 = [Stale.priced 2 120] /\
      gameApi.getRoundPrices db' gameId 2 = [Stale.priced 2 100]
  | GameEditor.Failed _ => False
  | GameEditor.StoreError => False
  end.
Proof.
  destruct (GameEditor.handleSave (GameEditorForm.openGame (Stale.db 2) Missing.game) 7
              (Stale.db 2)) as [gameId db'| |] eqn:E;
    [|vm_compute in E; discriminate E|vm_compute in E; discriminate E].
  split; [reflexivity|].
  assert (Hnd : List.NoDup
                  (List.map symbol (gameApi.getStocks (Stale.db 2) (id Missing.game)))).
  { simpl. constructor; [intros []|constructor]. }
  destruct (reopened_game_saved_at_initial_prices (Stale.db 2) Missing.game 7 gameId db'
              ltac:(discriminate) Hnd E) as (-> & H).
  rewrite H by (simpl; lia). reflexivity.
Defined.

(** ** The tabs of the page of a game *)

(** Whatever tabs are clicked on the page of a game: the active tab is
    one whose button is shown and it shows something; the trading
    interface is shown only to a viewer who is not an administrator, for
    a game that was live when the page loaded it; and the round manager
    is shown with the controls of an administrator only to an
    administrator. *)
Theorem tabs_show_by_role
    (r : option GameDetails.Role) (g : Game) (ts : list GameDetailsTabs.Tab) :
  let p := clicks ts (GameDetailsTabs.opened r g) in
  GameDetailsTabs.offered p (GameDetailsTabs.activeTab p) = true /\
  GameDetailsTabs.content p <> GameDetailsTabs.ShowNothing /\
  (GameDetailsTabs.content p = GameDetailsTabs.ShowTradingInterface ->
   GameDetails.isAdmin r = false /\ status g = Live) /\
  (forall asAdmin,
     GameDetailsTabs.content p = GameDetailsTabs.ShowRoundManager asAdmin ->
     asAdmin = GameDetails.isAdmin r).
Proof.
  cbv zeta.
  assert (Hinv : forall p,
            GameDetailsTabs.role p = r -> GameDetailsTabs.game p = g ->
            GameDetailsTabs.offered p (GameDetailsTabs.activeTab p) = true ->
            let q := clicks ts p in
            GameDetailsTabs.role q = r /\ GameDetailsTabs.game q = g /\
            GameDetailsTabs.offered q (GameDetailsTabs.activeTab q) = true).
  { induction ts as [|t ts IH]; intros p Hr Hg Ho; [simpl; auto|].
    simpl. apply IH; unfold GameDetailsTabs.click;
      destruct (GameDetailsTabs.offered p t) eqn:E; try assumption; reflexivity. }
  destruct (Hinv (GameDetailsTabs.opened r g) eq_refl eq_refl eq_refl) as (Hr & Hg & Ho).
  set (p := clicks ts (GameDetailsTabs.opened r g)) in *.
  unfold GameDetailsTabs.content, GameDetailsTabs.offered in *.
  rewrite Hr, Hg in *. unfold GameDetails.tradingTabOffered in Ho.
  split; [exact Ho|].
  destruct (GameDetailsTabs.activeTab p); simpl in *.
  - repeat split; try discriminate. now intros a [= <-].
  - apply andb_true_iff in Ho as (Ha & Hl). rewrite Ha. simpl.
    repeat split; try discriminate.
    + now destruct (GameDetails.isAdmin r).
    + now apply status_eqb_eq.
  - repeat split; discriminate.
  - rewrite Ho. repeat split; try discriminate. now intros a [= <-].
Qed.

(** ** The prices of a round in the store *)

(** [setRoundPrices] replaces the prices of one round of one game:
    afterwards that round holds exactly one row per price given, in
    order; the prices of the other rounds and of the other games are as
    before; and setting the same prices twice is the same as setting
    them once. *)
Theorem set_round_prices_replaces
    (db : Db) (gameId roundNumber : Z) (prices : list (string * Q)) :
  let db' := gameApi.setRoundPrices db gameId roundNumber prices in
  gameApi.getRoundPrices db' gameId roundNumber =
    List.map (price_row gameId roundNumber) prices /\
  (forall other n, other <> gameId \/ n <> roundNumber ->
     gameApi.getRoundPrices db' other n = gameApi.getRoundPrices db other n) /\
  gameApi.setRoundPrices db' gameId roundNumber prices = db'.
Proof.
  cbv zeta.
  assert (Hrows : forall p, In p (List.map (price_row gameId roundNumber) prices) ->
                            gameApi.is_price_of gameId roundNumber p = true).
  { intros p Hp. apply List.in_map_iff in Hp as (sp & <- & _).
    unfold gameApi.is_price_of, price_row. simpl. now rewrite !Z.eqb_refl. }
  assert (Hkept : forall p,
            In p (List.filter (fun p => negb (gameApi.is_price_of gameId roundNumber p))
                              (round_prices db)) ->
            gameApi.is_price_of gameId roundNumber p = false).
  { intros p Hp. apply List.filter_In in Hp as (_ & Hp).
    now destruct (gameApi.is_price_of gameId roundNumber p). }
  split; [|split].
  - unfold gameApi.getRoundPrices, gameApi.setRoundPrices. simpl.
    fold (price_row gameId roundNumber). rewrite List.filter_app.
    rewrite (filter_none _ _ Hkept), (filter_all _ _ Hrows). reflexivity.
  - intros other n Hne.
    unfold gameApi.getRoundPrices, gameApi.setRoundPrices. simpl.
    fold (price_row gameId roundNumber). rewrite List.filter_app.
    rewrite (filter_none _ (List.map _ _)), app_nil_r.
    + rewrite <- filter_andb. apply List.filter_ext. intros p.
      unfold gameApi.is_price_of.
      destruct (Z.eqb_spec (price_game_id p) gameId),
               (Z.eqb_spec (price_game_id p) other),
               (Z.eqb_spec (price_round_number p) roundNumber),
               (Z.eqb_spec (price_round_number p) n);
        simpl; try reflexivity; exfalso; destruct Hne; congruence.
    + intros p Hp. specialize (Hrows p Hp). unfold gameApi.is_price_of in *.
      apply andb_true_iff in Hrows as (Hg & Hr).
      apply Z.eqb_eq in Hg, Hr. rewrite Hg, Hr.
      destruct (Z.eqb_spec gameId other), (Z.eqb_spec roundNumber n);
        simpl; try reflexivity; exfalso; destruct Hne; congruence.
  - unfold gameApi.setRoundPrices, gameApi.set_round_prices. simpl. f_equal.
    fold (price_row gameId roundNumber). rewrite List.filter_app.
    rewrite (filter_none _ (List.map _ _)), app_nil_r.
    + f_equal. apply filter_all. intros p Hp. now rewrite (Hkept p Hp).
    + intros p Hp. now rewrite (Hrows p Hp).
Qed.

(** ** The import of the users *)

Section ImportProofs.

Import ImportUsers.

Lemma batchResults_app createUser a : forall i b,
  batchResults createUser i (a ++ b) =
  (batchResults createUser i a ++ batchResults createUser (i + List.length a) b)%list.
Proof.
  induction a as [|u a IH]; intros i b; simpl.
  - now rewrite Nat.add_0_r.
  - rewrite IH. now rewrite Nat.add_succ_r.
Qed.

Lemma batchResults_length createUser l : forall i,
  List.length (batchResults createUser i l) = List.length l.
Proof. induction l as [|u l IH]; intros i; simpl; [reflexivity|now rewrite IH]. Qed.

Lemma batchResults_users createUser l : forall i,
  List.map fst (batchResults createUser i l) = l.
Proof. induction l as [|u l IH]; intros i; simpl; [reflexivity|now rewrite IH]. Qed.

Lemma filter_split_length {A} (f : A -> bool) (l : list A) :
  (List.length (List.filter f l) + List.length (List.filter (fun x => negb (f x)) l)
   = List.length l)%nat.
Proof.
  induction l as [|x l IH]; [reflexivity|]. simpl. destruct (f x); simpl; lia.
Qed.

Lemma div_ten_step m : (10 <= m)%nat -> (m / 10 = S ((m - 10) / 10))%nat.
Proof.
  intros H. replace m with ((m - 10) + 1 * 10)%nat at 1 by lia.
  rewrite Nat.div_add by lia. lia.
Qed.

Lemma importFrom_spec createUser users fuel : forall i results,
  (List.length users - i <= fuel * 10)%nat ->
  let rest := batchResults createUser i (List.skipn i users) in
  let r := importFrom fuel createUser i users results in
  success r = (success results ++ List.map fst (List.filter snd rest))%list /\
  failed r =
    (failed results ++ List.map fst (List.filter (fun r => negb (snd r)) rest))%list /\
  waits r = (waits results + (List.length users - i - 1) / 10)%nat.
Proof.
  induction fuel as [|fuel IH]; intros i results Hfuel; cbv zeta.
  - rewrite List.skipn_all2 by lia. simpl. rewrite !app_nil_r.
    replace (List.length users - i - 1)%nat with 0%nat by lia. simpl.
    rewrite Nat.add_0_r. auto.
  - cbn [importFrom]. destruct (Nat.ltb_spec i (List.length users)) as [Hi|Hi].
    + destruct (IH (i + BATCH_SIZE)%nat
                  {| success :=
                       (success results ++
                        List.map fst
                          (List.filter snd
                             (batchResults createUser i
                                (List.firstn BATCH_SIZE (List.skipn i users)))))%list;
                     failed :=
                       (failed results ++
                        List.map fst
                          (List.filter (fun r => negb (snd r))
                             (batchResults createUser i
                                (List.firstn BATCH_SIZE (List.skipn i users)))))%list;
                     waits :=
                       if (i + BATCH_SIZE <? List.length users)%nat
                       then S (waits results) else waits results |})
        as (Hs & Hf & Hw); [unfold BATCH_SIZE; lia|].
      cbv zeta in Hs, Hf, Hw. rewrite Hs, Hf, Hw. cbn [success failed waits].
      assert (Hsplit : batchResults createUser i (List.skipn i users) =
                (batchResults createUser i (List.firstn BATCH_SIZE (List.skipn i users))
                 ++ batchResults createUser (i + BATCH_SIZE)
                      (List.skipn (i + BATCH_SIZE) users))%list).
      { rewrite <- (List.firstn_skipn BATCH_SIZE (List.skipn i users)) at 1.
        rewrite batchResults_app, List.skipn_skipn, (Nat.add_comm BATCH_SIZE i).
        f_equal. rewrite List.length_firstn, List.length_skipn.
        destruct (Nat.le_gt_cases BATCH_SIZE (List.length users - i)) as [Hb|Hb].
        - now rewrite Nat.min_l by exact Hb.
        - unfold BATCH_SIZE in *. rewrite (List.skipn_all2 users) by lia. reflexivity. }
      rewrite Hsplit, !List.filter_app, !List.map_app, !List.app_assoc.
      split; [reflexivity|]. split; [reflexivity|].
      unfold BATCH_SIZE. destruct (Nat.ltb_spec (i + 10) (List.length users)) as [Hn|Hn].
      * rewrite (div_ten_step (List.length users - i - 1)) by lia.
        replace (List.length users - i - 1 - 10)%nat
          with (List.length users - (i + 10) - 1)%nat by lia. lia.
      * rewrite (Nat.div_small (List.length users - i - 1)) by lia.
        replace (List.length users - (i + 10) - 1)%nat with 0%nat by lia. simpl. lia.
    + rewrite List.skipn_all2 by lia. simpl. rewrite !app_nil_r.
      replace (List.length users - i - 1)%nat with 0%nat by lia. simpl.
      rewrite Nat.add_0_r. auto.
Qed.

End ImportProofs.

(** The import of the users: whatever the outcome of each creation and
    however many users there are, every user is tried exactly once, at
    its position in the list; the summary names as created the users
    whose creation succeeded and as failed the others, each in the order
    of the list; and the script pauses only between two batches of ten:
    for [n > 0] users that is [(n - 1) / 10] times. *)
Theorem import_tries_every_user_once
    (createUser : string -> nat -> bool) (users : list string) :
  let results := ImportUsers.batchResults createUser 0 users in
  let summary := ImportUsers.importAllUsers createUser users in
  List.map fst results = users /\
  ImportUsers.success summary = List.map fst (List.filter snd results) /\
  ImportUsers.failed summary =
    List.map fst (List.filter (fun r => negb (snd r)) results) /\
  (List.length (ImportUsers.success summary) + List.length (ImportUsers.failed summary)
   = List.length users)%nat /\
  ImportUsers.waits summary = ((List.length users - 1) / 10)%nat.
Proof.
  cbv zeta. unfold ImportUsers.importAllUsers.
  destruct (importFrom_spec createUser users (List.length users) 0
              {| ImportUsers.success := []; ImportUsers.failed := [];
                 ImportUsers.waits := 0 |}) as (Hs & Hf & Hw); [lia|].
  cbv zeta in Hs, Hf, Hw. simpl in Hs, Hf, Hw.
  rewrite Hs, Hf, Hw, Nat.sub_0_r.
  split; [|split; [reflexivity|split; [reflexivity|split; [|reflexivity]]]].
  - apply batchResults_users.
  - rewrite !List.length_map, filter_split_length. apply batchResults_length.
Qed.
